(** * Express Entry score tracker: trend projection and eligibility engine

    A shallow embedding of the projection math, the pool-distribution
    interpolation, the crossing searches and the eligibility cards of the
    generated page script, and of the snapshot deduplication of the page
    generator, followed by the properties established about them.

    JavaScript numbers are reached through the interface [JSNumber], so a
    statement proved for every implementation of the interface holds in
    particular for IEEE-754 binary64; two implementations are given, exact
    rationals ([Q], normalised) and Rocq's primitive binary64 floats.
    Where a property depends on rounding it is proved of binary64 itself,
    through the specification [SpecFloat] of the primitive floats.
    Quantities that the script only ever holds as integers (millisecond
    time stamps, scores, candidate and invitation counts) are [Z]. *)

From Stdlib Require Import ZArith QArith Qround Qabs Qfield Lia Lqa List Bool Ascii String Sorted.
From Stdlib Require Import Floats.PrimFloat Floats.SpecFloat Floats.FloatOps Floats.FloatAxioms.
From stdpp Require Import base option list strings gmap.
From Equations Require Import Equations.

Local Open Scope string_scope.
Local Open Scope Z_scope.

(** ** The number interface *)

Class JSNumber (F : Type) := {
  of_Z : Z -> F;               (* an integer literal or integer-valued field *)
  add : F -> F -> F;
  sub : F -> F -> F;
  mul : F -> F -> F;
  div : F -> F -> F;
  abs : F -> F;                (* Math.abs *)
  ltb : F -> F -> bool;        (* a < b *)
  leb : F -> F -> bool;        (* a <= b *)
  truthy : F -> bool;          (* ToBoolean: false on 0 and NaN *)
  round : F -> Z;              (* Math.round, on finite values *)
  trunc : F -> Z;              (* the time value of new Date(t), on finite values *)
}.

Module ExactNumber.

Definition q_round (x : Q) : Z := Qfloor (x + (1 # 2))%Q.

Definition q_trunc (x : Q) : Z :=
  if Qle_bool 0 x then Qfloor x else Qceiling x.

#[global] Instance Q_number : JSNumber Q := {
  of_Z z := inject_Z z;
  add x y := Qred (x + y)%Q;
  sub x y := Qred (x - y)%Q;
  mul x y := Qred (x * y)%Q;
  div x y := Qred (x / y)%Q;
  abs x := Qred (Qabs x);
  ltb x y := negb (Qle_bool y x);
  leb x y := Qle_bool x y;
  truthy x := negb (Qeq_bool x 0);
  round := q_round;
  trunc := q_trunc;
}.

End ExactNumber.

Module Binary64.

(** The integer a finite double denotes times [2^-e] is [m]; [Math.round]
    is [floor (x + 1/2)] taken exactly. NaN and the infinities, which
    [Math.round] returns unchanged, are sent to [0]. *)
Definition signed (s : bool) (m : positive) : Z :=
  if s then Z.neg m else Z.pos m.

Definition sf_round (x : spec_float) : Z :=
  match x with
  | S754_finite s m e =>
      if 0 <=? e then signed s m * 2 ^ e
      else (2 * signed s m + 2 ^ (- e)) / 2 ^ (1 - e)
  | _ => 0
  end.

Definition sf_trunc (x : spec_float) : Z :=
  match x with
  | S754_finite s m e =>
      if 0 <=? e then signed s m * 2 ^ e
      else Z.quot (signed s m) (2 ^ (- e))
  | _ => 0
  end.

(** An integer as a double: the nearest double, ties to even, as a numeric
    literal or an integer-valued expression is read; exact below [2^53] in
    absolute value and on every integer that is a double, such as [10^10]
    and [10^20]. *)
Definition float_of_Z (z : Z) : float :=
  SF2Prim (binary_normalize prec emax z 0 false).

Definition float_truthy (x : float) : bool :=
  negb (PrimFloat.eqb x PrimFloat.zero) && PrimFloat.eqb x x.

#[global] Instance float_number : JSNumber float := {
  of_Z := float_of_Z;
  add := PrimFloat.add;
  sub := PrimFloat.sub;
  mul := PrimFloat.mul;
  div := PrimFloat.div;
  abs := PrimFloat.abs;
  ltb := PrimFloat.ltb;
  leb := PrimFloat.leb;
  truthy := float_truthy;
  round x := sf_round (Prim2SF x);
  trunc x := sf_trunc (Prim2SF x);
}.

End Binary64.

(** ** Projection math *)

Record Pt (F : Type) := mkPt { px : F; py : F }.
Arguments mkPt {F} _ _.
Arguments px {F} _.
Arguments py {F} _.

(** The object a regression returns: its coefficients; the closure [eval]
    of the script is [eval_model]. *)
Inductive Model (F : Type) :=
| LinearModel (slope intercept : F)
| QuadModel (a b c xMin xRange : F).
Arguments LinearModel {F} _ _.
Arguments QuadModel {F} _ _ _ _ _.

Section Regression.
Context {F : Type} `{JSNumber F}.

Definition eval_model (m : Model F) (x : F) : F :=
  match m with
  | LinearModel slope intercept => add (mul slope x) intercept
  | QuadModel a b c xMin xRange =>
      let xn := div (sub x xMin) xRange in
      add (add (mul (mul a xn) xn) (mul b xn)) c
  end.

(** The literals [1e-10] and [1e-20]: both powers of ten are exactly
    representable, so the quotient is the correctly rounded literal. *)
Definition lit_1e_10 : F := div (of_Z 1) (of_Z (10 ^ 10)).
Definition lit_1e_20 : F := div (of_Z 1) (of_Z (10 ^ 20)).

Record LinSums := mkLinSums { sx : F; sy : F; sxy : F; sxx : F }.

Definition lin_step (s : LinSums) (p : Pt F) : LinSums :=
  {| sx := add (sx s) (px p);
     sy := add (sy s) (py p);
     sxy := add (sxy s) (mul (px p) (py p));
     sxx := add (sxx s) (mul (px p) (px p)) |}.

Definition lin_sums (pts : list (Pt F)) : LinSums :=
  fold_left lin_step pts
    {| sx := of_Z 0; sy := of_Z 0; sxy := of_Z 0; sxx := of_Z 0 |}.

Definition lin_det (pts : list (Pt F)) : F :=
  let n := of_Z (Z.of_nat (length pts)) in
  let s := lin_sums pts in
  sub (mul n (sxx s)) (mul (sx s) (sx s)).

Definition lin_slope (pts : list (Pt F)) : F :=
  let n := of_Z (Z.of_nat (length pts)) in
  let s := lin_sums pts in
  div (sub (mul n (sxy s)) (mul (sx s) (sy s))) (lin_det pts).

Definition lin_intercept (pts : list (Pt F)) : F :=
  let n := of_Z (Z.of_nat (length pts)) in
  let s := lin_sums pts in
  div (sub (sy s) (mul (lin_slope pts) (sx s))) n.

Definition linearRegression (pts : list (Pt F)) : option (Model F) :=
  if (length pts <? 2)%nat then None
  else if ltb (abs (lin_det pts)) lit_1e_10 then None
  else Some (LinearModel (lin_slope pts) (lin_intercept pts)).

Definition Row3 : Type := F * F * F.
Definition Mat3 : Type := Row3 * Row3 * Row3.

Definition det3 (m : Mat3) : F :=
  let '((m00, m01, m02), (m10, m11, m12), (m20, m21, m22)) := m in
  add
    (sub (mul m00 (sub (mul m11 m22) (mul m12 m21)))
         (mul m01 (sub (mul m10 m22) (mul m12 m20))))
    (mul m02 (sub (mul m10 m21) (mul m11 m20))).

Definition replRow (r : Row3) (col : nat) (vi : F) : Row3 :=
  let '(c0, c1, c2) := r in
  ((if (0 =? col)%nat then vi else c0),
   (if (1 =? col)%nat then vi else c1),
   (if (2 =? col)%nat then vi else c2)).

Definition replCol (m : Mat3) (col : nat) (v : Row3) : Mat3 :=
  let '(r0, r1, r2) := m in
  let '(v0, v1, v2) := v in
  (replRow r0 col v0, replRow r1 col v1, replRow r2 col v2).

Record PolySums := mkPolySums {
  s1 : F; s2 : F; s3 : F; s4 : F; t0 : F; t1 : F; t2 : F }.

Definition poly_step (s : PolySums) (p : Pt F) : PolySums :=
  let x := px p in
  let x2 := mul x x in
  {| s1 := add (s1 s) x;
     s2 := add (s2 s) x2;
     s3 := add (s3 s) (mul x2 x);
     s4 := add (s4 s) (mul x2 x2);
     t0 := add (t0 s) (py p);
     t1 := add (t1 s) (mul x (py p));
     t2 := add (t2 s) (mul x2 (py p)) |}.

Definition poly_sums (norm : list (Pt F)) : PolySums :=
  fold_left poly_step norm
    {| s1 := of_Z 0; s2 := of_Z 0; s3 := of_Z 0; s4 := of_Z 0;
       t0 := of_Z 0; t1 := of_Z 0; t2 := of_Z 0 |}.

(** [a || b] on numbers. *)
Definition or_else (a b : F) : F := if truthy a then a else b.

Definition polyRegression (pts : list (Pt F)) : option (Model F) :=
  if (length pts <? 4)%nat then linearRegression pts
  else
    match head pts, last pts with
    | Some p0, Some pn =>
        let xMin := px p0 in
        let xRange := or_else (sub (px pn) xMin) (of_Z 1) in
        let norm :=
          map (fun p => mkPt (div (sub (px p) xMin) xRange) (py p)) pts in
        let s := poly_sums norm in
        let s0 := of_Z (Z.of_nat (length pts)) in
        let M : Mat3 :=
          ((s0, s1 s, s2 s), (s1 s, s2 s, s3 s), (s2 s, s3 s, s4 s)) in
        let T : Row3 := (t0 s, t1 s, t2 s) in
        let D := det3 M in
        if ltb (abs D) lit_1e_20 then linearRegression pts
        else
          let c := div (det3 (replCol M 0 T)) D in
          let b := div (det3 (replCol M 1 T)) D in
          let a := div (det3 (replCol M 2 T)) D in
          Some (QuadModel a b c xMin xRange)
    | _, _ => None
    end.

End Regression.

Section SpecSums.
Context {F : Type} `{JSNumber F}.

(** A running total started at [0], the way the script accumulates one. *)
Definition sigma (f : Pt F -> F) (pts : list (Pt F)) : F :=
  fold_left (fun acc p => add acc (f p)) pts (of_Z 0).

End SpecSums.

(** A sum of rationals, for stating what the fit achieves in exact
    arithmetic. *)
Definition Qsum (l : list Q) : Q := fold_right Qplus 0%Q l.

(** ** Strings the script takes apart *)

Definition digit_of (c : ascii) : option Z :=
  let n := Z.of_nat (nat_of_ascii c) in
  if (48 <=? n) && (n <=? 57) then Some (n - 48) else None.

Fixpoint parse_digits (s : string) (acc : option Z) : option Z :=
  match s with
  | EmptyString => acc
  | String c s' =>
      match digit_of c with
      | Some d => parse_digits s' (Some (10 * default 0 acc + d))
      | None => acc
      end
  end.

(** [parseInt] on an unsigned decimal prefix; [None] is NaN. *)
Definition parseInt (s : string) : option Z := parse_digits s None.

(** [s.split(sep)] for a one-character separator. *)
Fixpoint split (sep : ascii) (s : string) : list string :=
  match s with
  | EmptyString => [EmptyString]
  | String c s' =>
      if Ascii.eqb c sep then EmptyString :: split sep s'
      else match split sep s' with
           | [] => [String c EmptyString]
           | w :: ws => String c w :: ws
           end
  end.

(** ** Pool distribution snapshots *)

(** One entry of [distributionSnapshots]. *)
Record Snapshot := mkSnapshot {
  snap_date : string;
  snap_ranges : gmap string Z;
  snap_total : Z;
}.

Record Range := mkRange { key : string; lo : Z }.

Definition ranges : list Range :=
  [ mkRange "601-1200" 601; mkRange "501-600" 501; mkRange "491-500" 491;
    mkRange "481-490" 481; mkRange "471-480" 471; mkRange "461-470" 461;
    mkRange "451-460" 451; mkRange "441-450" 441; mkRange "431-440" 431;
    mkRange "421-430" 421; mkRange "411-420" 411; mkRange "401-410" 401;
    mkRange "351-400" 351; mkRange "301-350" 301; mkRange "0-300" 0 ].

(** [dist.ranges[r.key] || 0] *)
Definition range_count (dist : Snapshot) (r : Range) : Z :=
  default 0 (snap_ranges dist !! key r).

(** [r.key === '601-1200' ? 1200 : parseInt(r.key.split('-')[1])] *)
Definition range_hi (r : Range) : option Z :=
  if String.eqb (key r) "601-1200" then Some 1200
  else match split "-"%char (key r) !! 1%nat with
       | Some w => parseInt w
       | None => None
       end.

Section PoolCount.
Context {F : Type} `{JSNumber F}.

(** [Math.round(count * (above / span))] *)
Definition share (count above span : Z) : Z :=
  round (mul (of_Z count) (div (of_Z above) (of_Z span))).

(** The body of the [for (const r of ranges)] loop of [countAboveScore],
    with the running [total]; the [break] is the absence of a recursive
    call. A [hi] that is NaN makes [cutoffScore <= hi] false. *)
Fixpoint countLoop (dist : Snapshot) (cutoffScore : Z) (rs : list Range)
    (total : Z) : Z :=
  match rs with
  | [] => total
  | r :: rest =>
      let count := range_count dist r in
      if cutoffScore <=? lo r then
        countLoop dist cutoffScore rest (total + count)
      else
        match range_hi r with
        | Some hi =>
            let span := hi - lo r + 1 in
            if cutoffScore <=? hi then
              let above := hi - cutoffScore + 1 in
              total + share count above span
            else total
        | None => total
        end
  end.

Definition countAboveScore (dist : Snapshot) (cutoffScore : Z) : Z :=
  countLoop dist cutoffScore ranges 0.

End PoolCount.

(** *** The walk over the bands, stated band by band *)

Definition sumZ (l : list Z) : Z := foldr Z.add 0 l.

(** A band lies entirely at or above the threshold when its lower bound
    does. *)
Definition entirely_above (threshold : Z) (r : Range) : bool :=
  threshold <=? lo r.

Section BandSpec.
Context {F : Type} `{JSNumber F}.

(** What the highest band that is not entirely above the threshold adds:
    its proportional share when the threshold is within the band. *)
Definition straddle_part (dist : Snapshot) (threshold : Z) (r : Range) : Z :=
  match range_hi r with
  | Some bandHigh =>
      if threshold <=? bandHigh then
        share (range_count dist r) (bandHigh - threshold + 1)
              (bandHigh - lo r + 1)
      else 0
  | None => 0
  end.

(** The count the way the specification words it: every band entirely
    above the threshold in full, then the first remaining band
    interpolated, then nothing. *)
Definition count_by_bands (dist : Snapshot) (threshold : Z)
    (rs : list Range) : Z :=
  sumZ (map (range_count dist) (List.filter (entirely_above threshold) rs)) +
  match List.filter (fun r => negb (entirely_above threshold r)) rs with
  | [] => 0
  | r :: _ => straddle_part dist threshold r
  end.

Definition descending (rs : list Range) : Prop :=
  StronglySorted (fun r r' => lo r' < lo r) rs.

End BandSpec.

(** *** Monotonicity of the pool count *)

(** The width of a band, and the widths of the bands of the table: 600,
    100, 10, 50 and 301. Every share the walk takes divides by one of
    them. *)
Definition band_span (r : Range) : option Z :=
  (fun hi => hi - lo r + 1) <$> range_hi r.

Definition band_spans : list Z := omap band_span ranges.

(** What the monotonicity of the count needs from the number
    implementation: for a safe integer count and a band width of the
    table, the rounded proportional share of a band grows with the part
    taken, is nothing for an empty part and the whole count for the whole
    band. The laws are proved below for exact rationals and for
    binary64. *)
Class ShareRounding (F : Type) `{JSNumber F} : Prop := {
  share_mono : forall c a a' s,
    0 <= c < 2 ^ 53 -> 0 <= a -> a <= a' -> a' <= s -> In s band_spans ->
    share c a s <= share c a' s;
  share_none : forall c s,
    0 <= c < 2 ^ 53 -> In s band_spans -> share c 0 s = 0;
  share_all : forall c s,
    0 <= c < 2 ^ 53 -> In s band_spans -> share c s s = c;
}.

Definition safe_count (c : Z) : bool := (0 <=? c) && (c <? 2 ^ 53).

(** Every band of the snapshot holds a non-negative safe integer. *)
Definition valid_snapshot (dist : Snapshot) : bool :=
  forallb (fun r => safe_count (range_count dist r)) ranges.

Definition band_total (dist : Snapshot) : Z :=
  sumZ (map (range_count dist) ranges).

(** A band of the table has an upper bound, and with it one of the widths
    of the table. *)
Definition proper_band (r : Range) : Prop :=
  exists hi, range_hi r = Some hi /\ In (hi - lo r + 1) band_spans.

(** *** Binary64 rounding, on integers *)

(** What [SpecFloat] computes when it rounds, stated on integers so that
    it can be compared: the shift of a mantissa by [k] bits with its round
    and sticky bits, the nearest integer to [x / 2^k] with ties to even,
    and the rounding of a positive integer to 53 significant bits. *)
Module Rounding64.
Import Binary64.

Definition shifted (x k : Z) (mrs : shr_record) : Prop :=
  shr_m mrs = x / 2 ^ k /\
  shr_r mrs = (2 ^ k <=? 2 * (x mod 2 ^ k)) /\
  shr_s mrs = negb (2 * (x mod 2 ^ k) =? (if shr_r mrs then 2 ^ k else 0)).

Definition rne (x k : Z) : Z :=
  let q := x / 2 ^ k in
  let rem := x mod 2 ^ k in
  if 2 * rem <? 2 ^ k then q
  else if 2 * rem =? 2 ^ k then (if Z.even q then q else q + 1)
  else q + 1.

Definition R53 (v : Z) : Z :=
  rne v (Z.log2 v - 52) * 2 ^ (Z.log2 v - 52).

(** [above / span] as the script computes it. *)
Definition ratio (a s : Z) : spec_float :=
  Prim2SF (PrimFloat.div (float_of_Z a) (float_of_Z s)).

(** [+0] or a positive normal double from [2^-148] up to [1]. *)
Definition ratio_ok (x : spec_float) : bool :=
  match x with
  | S754_zero false => true
  | S754_finite false m e =>
      (Z.log2 (Z.pos m) =? 52) && (-200 <=? e) && (e <=? -52)
  | _ => false
  end.

(** The order of such doubles. *)
Definition ratio_le (x y : spec_float) : bool :=
  match x, y with
  | S754_zero false, _ => true
  | S754_finite false m1 e1, S754_finite false m2 e2 =>
      (e1 <? e2) || ((e1 =? e2) && (Z.pos m1 <=? Z.pos m2))
  | _, _ => false
  end.

(** The quotients [0 / s], [1 / s], ..., [s / s] start at [+0], ascend
    and end at [1]. *)
Definition span_ok (s : Z) : bool :=
  (0 <? s)
  && match ratio 0 s with S754_zero false => true | _ => false end
  && forallb (fun a => ratio_ok (ratio a s)
                       && ratio_le (ratio a s) (ratio (a + 1) s))
             (seqZ 0 s)
  && match ratio s s with
     | S754_finite false m e => (Z.pos m =? 2 ^ 52) && (e =? -52)
     | _ => false
     end.

(** [Math.round(count * x)] for a double [x]. *)
Definition share_at (c : Z) (x : spec_float) : Z :=
  sf_round (SFmul prec emax (Prim2SF (float_of_Z c)) x).

(** The double that is a safe integer: its mantissa is the integer shifted
    to 53 bits. *)
Definition exact_double (z : Z) : spec_float :=
  match z with
  | Z.pos p =>
      S754_finite false (Z.to_pos (z * 2 ^ (52 - Z.log2 z))) (Z.log2 z - 52)
  | _ => S754_zero false
  end.

End Rounding64.

(** ** The date interface *)

(** What the script asks of [Date]. Time values are integer milliseconds;
    date strings are taken to be well formed (the scraper stores ISO dates).
    The calendar operations depend on the time zone of the runtime, which
    is fixed for the life of the page. *)
Class JSDate := {
  (* new Date(s).getTime() *)
  getTime : string -> Z;
  (* d = new Date(t); d.setMonth(d.getMonth() + k); d.getTime() *)
  addMonths : Z -> Z -> Z;
  (* new Date(t).toISOString().split('T')[0] *)
  isoDate : Z -> string;
  (* new Date(t).toLocaleDateString('en-CA', { year: 'numeric', month: 'short' }) *)
  monthLabel : Z -> string;
  (* new Date(Y - k, M, D).getTime() for the year, month and day of [now] *)
  yearsBack : Z -> Z -> Z;
}.

(** ** Chart data *)

(** A point of a dataset, observed or projected. [roundNumber] is a number
    on observed points and ['~'] ([None]) on projected ones; [projMethod]
    is absent ([None]) on observed points. *)
Module Point.
Record t := mk {
  x : string;
  y : Z;
  roundNumber : option Z;
  roundType : string;
  invitations : Z;
  isProjection : bool;
  projMethod : option string;
}.
End Point.

(** A chart dataset; of the styling only the fields that differ between
    datasets are kept. *)
Module Dataset.
Record t := mk {
  label : string;
  data : list Point.t;
  borderColor : string;
  borderDash : list Z;
  _isProjection : bool;
}.
End Dataset.

Definition PROJECTION_MONTHS : Z := 6.
Definition MOVING_AVG_WINDOW : nat := 6.

(** [Array.prototype.sort] with a comparator [(a, b) => k(a) - k(b)]: a
    stable sort by [k]. *)
Fixpoint insert_by {A : Type} (k : A -> Z) (a : A) (l : list A) : list A :=
  match l with
  | [] => [a]
  | b :: l' => if k a <=? k b then a :: b :: l' else b :: insert_by k a l'
  end.

Definition sort_by {A : Type} (k : A -> Z) (l : list A) : list A :=
  foldr (insert_by k) [] l.

(** The order a sort by [k] produces. *)
Definition by_key {A : Type} (k : A -> Z) (a b : A) : Prop := k a <= k b.

(** [l.slice(-n)] *)
Definition slice_last {A : Type} (n : nat) (l : list A) : list A :=
  drop (length l - n) l.

Section Projection.
Context {F : Type} `{JSNumber F} `{JSDate}.

(** [[...filtered].sort((a, b) => new Date(a.x).getTime() - new Date(b.x).getTime())] *)
Definition sort_points (filtered : list Point.t) : list Point.t :=
  sort_by (fun d => getTime (Point.x d)) filtered.

(** [d => ({ x: new Date(d.x).getTime(), y: d.y })] *)
Definition to_pt (d : Point.t) : Pt F :=
  mkPt (of_Z (getTime (Point.x d))) (of_Z (Point.y d)).

(** [Math.max(0, Math.round(reg.eval(t)))] *)
Definition clamp_eval (reg : Model F) (t : F) : Z :=
  Z.max 0 (round (eval_model reg t)).

(** [start + (end - start) * (i / steps)] *)
Definition step_time (startT endT : Z) (i steps : Z) : F :=
  add (of_Z startT)
      (mul (sub (of_Z endT) (of_Z startT)) (div (of_Z i) (of_Z steps))).

Definition projected_point (t : F) (value : Z) (roundType suffix : string) :
    Point.t :=
  Point.mk (isoDate (trunc t)) value None roundType 0 true (Some suffix).

(** The body of the loop of [regressionProjection] at step [i]. *)
Definition regression_point (reg : Model F) (firstT lastT projEndT : Z)
    (totalSteps : Z) (dsLabel suffix : string) (i : Z) : Point.t :=
  let t := step_time firstT projEndT i totalSteps in
  let isFuture := ltb (of_Z lastT) t in
  projected_point t (clamp_eval reg t)
    (dsLabel ++ " (" ++ suffix ++
       (if isFuture then " forecast" else " trend") ++ ")")
    suffix.

Definition regressionProjection (filtered : list Point.t)
    (dsLabel dsColor : string)
    (regFn : list (Pt F) -> option (Model F))
    (dashPattern : list Z) (suffix : string) : option Dataset.t :=
  if (length filtered <? 3)%nat then None
  else
    let sorted := sort_points filtered in
    let pts := map to_pt sorted in
    match regFn pts with
    | None => None
    | Some reg =>
        match head sorted, last sorted with
        | Some first, Some final =>
            let firstT := getTime (Point.x first) in
            let lastT := getTime (Point.x final) in
            let totalSteps := 40 in
            let projEndT := addMonths lastT PROJECTION_MONTHS in
            let projPoints :=
              map (regression_point reg firstT lastT projEndT totalSteps
                     dsLabel suffix)
                  (seqZ 0 (totalSteps + 1)) in
            Some (Dataset.mk (dsLabel ++ " (" ++ suffix ++ ")") projPoints
                    dsColor dashPattern true)
        | _, _ => None
        end
    end.

(** [sum] of [sorted[j].y] for [j] from [i - MOVING_AVG_WINDOW + 1] to [i]. *)
Definition window_sum (ys : list Z) (i : nat) : Z :=
  sumZ (take MOVING_AVG_WINDOW (drop (i + 1 - MOVING_AVG_WINDOW) ys)).

(** The smoothed overlay of [movingAvgProjection]. *)
Definition smoothed_overlay (sorted : list Point.t) (dsLabel : string) :
    list Point.t :=
  map (fun i =>
         Point.mk
           (default EmptyString (Point.x <$> sorted !! i))
           (round (div (of_Z (window_sum (map Point.y sorted) i))
                       (of_Z (Z.of_nat MOVING_AVG_WINDOW))))
           None (dsLabel ++ " (moving avg)") 0 true (Some "moving-avg"))
      (seq (MOVING_AVG_WINDOW - 1)
           (length sorted - (MOVING_AVG_WINDOW - 1))).

Definition movingAvgProjection (filtered : list Point.t)
    (dsLabel dsColor : string) : option Dataset.t :=
  if (length filtered <? MOVING_AVG_WINDOW)%nat then None
  else
    let sorted := sort_points filtered in
    let smoothed := smoothed_overlay sorted dsLabel in
    let forecast :=
      if (2 <=? length smoothed)%nat then
        let tail := slice_last 3 smoothed in
        match linearRegression (map to_pt tail), last smoothed with
        | Some reg, Some final =>
            let startT := getTime (Point.x final) in
            let endT := addMonths startT PROJECTION_MONTHS in
            map (fun i =>
                   let t := step_time startT endT i 12 in
                   projected_point t (clamp_eval reg t)
                     (dsLabel ++ " (moving avg forecast)") "moving-avg")
                (seqZ 1 12)
        | _, _ => []
        end
      else [] in
    Some (Dataset.mk (dsLabel ++ " (ma)") (smoothed ++ forecast)%list
            dsColor [2; 3] true).

End Projection.

(** ** Page state *)

(** The variables of the page that the functions below read: the embedded
    data, the state restored from the URL and changed by the controls, and
    the clock ([new Date()]). *)
Record Env := mkEnv {
  originalDatasets : list Dataset.t;
  distributionSnapshots : list Snapshot;
  projectionMode : string;
  timeRange : string;
  hiddenCategories : gset string;
  now : Z;
}.

Section Datasets.
Context {F : Type} `{JSNumber F} `{JSDate}.

(** [timeRange === '3y' ? new Date(Y - 3, M, D).getTime() : 0] *)
Definition cutoff (env : Env) : Z :=
  if String.eqb (timeRange env) "3y" then yearsBack (now env) 3 else 0.

(** [cutoff > 0 ? ds.data.filter(d => new Date(d.x).getTime() >= cutoff) : ds.data] *)
Definition filter_range (env : Env) (ds : Dataset.t) : list Point.t :=
  if 0 <? cutoff env then
    List.filter (fun d => cutoff env <=? getTime (Point.x d)) (Dataset.data ds)
  else Dataset.data ds.

(** The projection that [buildDatasets] adds after a dataset, if any. *)
Definition projectionOf (env : Env) (ds : Dataset.t)
    (filtered : list Point.t) : option Dataset.t :=
  if String.eqb (projectionMode env) "off" || (length filtered <? 3)%nat
  then None
  else if String.eqb (projectionMode env) "linear" then
    regressionProjection filtered (Dataset.label ds) (Dataset.borderColor ds)
      linearRegression [6; 4] "linear"
  else if String.eqb (projectionMode env) "moving-avg" then
    movingAvgProjection filtered (Dataset.label ds) (Dataset.borderColor ds)
  else if String.eqb (projectionMode env) "poly" then
    regressionProjection filtered (Dataset.label ds) (Dataset.borderColor ds)
      polyRegression [8; 3; 2; 3] "polynomial"
  else None.

Definition buildDatasets (env : Env) : list Dataset.t :=
  flat_map
    (fun ds =>
       let filtered := filter_range env ds in
       Dataset.mk (Dataset.label ds) filtered (Dataset.borderColor ds)
         (Dataset.borderDash ds) (Dataset._isProjection ds)
       :: match projectionOf env ds filtered with
          | Some proj => [proj]
          | None => []
          end)
    (originalDatasets env).

End Datasets.

(** ** Crossing searches *)

(** [for (let t = t0; t <= maxT; t += step) if (crosses(t)) return t;
    return null] on integer time values. *)
Equations? searchForward (crosses : Z -> bool) (maxT : Z) (step : positive)
    (t : Z) : option Z by wf (Z.to_nat ((maxT - t) / Z.pos step + 1)) lt :=
  searchForward crosses maxT step t with Z_le_gt_dec t maxT => {
    | left _ =>
        if crosses t then Some t
        else searchForward crosses maxT step (t + Z.pos step);
    | right _ => None }.
Proof.
  replace (maxT - (t + Z.pos step)) with (maxT - t + (-1) * Z.pos step) by lia.
  rewrite Z.div_add by lia.
  assert (0 <= (maxT - t) / Z.pos step) by (apply Z.div_pos; lia).
  lia.
Qed.

(** The time values a weekly search from [lastT] visits within three years
    of 365.25 days: [lastT + k * 7 days] for [k = 0, ..., 156]. *)
Definition weekly_samples (lastT : Z) : list Z :=
  map (fun k => lastT + k * (7 * 24 * 60 * 60 * 1000)) (seqZ 0 157).

(** The first visited time value at which the condition holds. *)
Definition first_crossing (crosses : Z -> bool) (lastT : Z) : option Z :=
  List.find crosses (weekly_samples lastT).

(** [s.endsWith(suffix)] *)
Definition endsWith (s suffix : string) : bool :=
  (String.length suffix <=? String.length s)%nat &&
  String.eqb
    (substring (String.length s - String.length suffix)
               (String.length suffix) s)
    suffix.

(** [s.replace(pattern, replacement)] for a string pattern: the first
    occurrence only. *)
Fixpoint replace_first (pattern replacement s : string) : string :=
  if String.prefix pattern s then
    replacement ++
    substring (String.length pattern)
              (String.length s - String.length pattern) s
  else
    match s with
    | EmptyString => EmptyString
    | String c s' => String c (replace_first pattern replacement s')
    end.

(** A string in a condition: the empty string is false. *)
Definition nonempty (s : string) : bool := negb (String.eqb s EmptyString).

(** One entry of [ratioSeries] in [getPoolAwareProjection]. *)
Record RatioEntry (F : Type) := mkRatioEntry {
  entry_x : Z;
  entry_ratio : F;
  entry_cutoff : Z;
  entry_invitations : Z;
}.
Arguments mkRatioEntry {F} _ _ _ _.

Section Crossing.
Context {F : Type} `{JSNumber F} `{JSDate}.

(** The scan of [findClosestDist]; [bestDiff] starts at [Infinity]
    ([None]). *)
Definition closest_step (dateMs : Z) (acc : option Snapshot * option Z)
    (snap : Snapshot) : option Snapshot * option Z :=
  let diff := Z.abs (getTime (snap_date snap) - dateMs) in
  match snd acc with
  | Some bestDiff =>
      if diff <? bestDiff then (Some snap, Some diff) else acc
  | None => (Some snap, Some diff)
  end.

Definition findClosestDist (env : Env) (dateMs : Z) : option Snapshot :=
  match distributionSnapshots env with
  | [] => None
  | snaps =>
      match fold_left (closest_step dateMs) snaps (None, None) with
      | (best, Some bestDiff) =>
          if 30 * 24 * 60 * 60 * 1000 <? bestDiff then None else best
      | (_, None) => None
      end
  end.

Definition getLatestDistribution (env : Env) : option Snapshot :=
  last (distributionSnapshots env).

(** The competition ratio series over the rounds of the category. *)
Definition ratioSeries (env : Env) (sorted : list Point.t) :
    list (RatioEntry F) :=
  flat_map
    (fun d =>
       if Point.invitations d <=? 0 then []
       else
         let dateMs := getTime (Point.x d) in
         match findClosestDist env dateMs with
         | None => []
         | Some dist =>
             let above := countAboveScore dist (Point.y d) in
             [mkRatioEntry dateMs
                (div (of_Z above) (of_Z (Point.invitations d)))
                (Point.y d) (Point.invitations d)]
         end)
    sorted.

(** [sorted.slice(-10).map(d => d.invitations).filter(n => n > 0)
      .sort((a, b) => a - b)] *)
Definition recentInvitations (sorted : list Point.t) : list Z :=
  sort_by (fun n => n)
    (List.filter (fun n => 0 <? n)
       (map Point.invitations (slice_last 10 sorted))).

(** [recentInvitations[Math.floor(recentInvitations.length / 2)]] *)
Definition medianInvitations (sorted : list Point.t) : option Z :=
  let recent := recentInvitations sorted in
  recent !! (length recent / 2)%nat.

(** The ratio of the user's score at each snapshot. *)
Definition userRatioSeries (env : Env) (userScore medianInv : Z) :
    list (Pt F) :=
  map (fun snap =>
         mkPt (of_Z (getTime (snap_date snap)))
              (div (of_Z (countAboveScore snap userScore)) (of_Z medianInv)))
      (distributionSnapshots env).

(** The trailing averages [{ x: series[i].x, y: sum / MOVING_AVG_WINDOW }]
    of a series of numbers. *)
Definition smoothed_series (series : list (Pt F)) : list (Pt F) :=
  map (fun i =>
         let window :=
           take MOVING_AVG_WINDOW (drop (i + 1 - MOVING_AVG_WINDOW) series) in
         let sum := fold_left (fun acc p => add acc (py p)) window (of_Z 0) in
         mkPt (default (of_Z 0) (px <$> series !! i))
              (div sum (of_Z (Z.of_nat MOVING_AVG_WINDOW))))
      (seq (MOVING_AVG_WINDOW - 1) (length series - (MOVING_AVG_WINDOW - 1))).

(** The model fitted to the ratio series, by projection mode. *)
Definition pool_model (env : Env) (series : list (Pt F)) : option (Model F) :=
  if String.eqb (projectionMode env) "moving-avg" then
    if (MOVING_AVG_WINDOW <=? length series)%nat then
      linearRegression (slice_last 3 (smoothed_series series))
    else linearRegression series
  else if String.eqb (projectionMode env) "poly" then polyRegression series
  else linearRegression series.

Definition getPoolAwareProjection (env : Env) (sorted : list Point.t)
    (userScore : Z) (label : string) : option string :=
  if (length (ratioSeries env sorted) <? 3)%nat then None
  else
    match getLatestDistribution env with
    | None => None
    | Some latestDist =>
        let userAbove := countAboveScore latestDist userScore in
        match medianInvitations sorted with
        | None => None
        | Some medianInv =>
            let userRatio := div (of_Z userAbove) (of_Z medianInv) in
            if leb userRatio (of_Z 1) then None
            else
              let series := userRatioSeries env userScore medianInv in
              if (length series <? 2)%nat then None
              else
                match pool_model env series,
                      last (distributionSnapshots env) with
                | Some reg, Some lastSnap =>
                    let lastT := getTime (snap_date lastSnap) in
                    (* 365.25 days a year, written 36525 / 100 *)
                    let maxT :=
                      lastT + 3 * 36525 * 24 * 60 * 60 * 1000 / 100 in
                    let step := (7 * 24 * 60 * 60 * 1000)%positive in
                    match
                      searchForward
                        (fun t => leb (eval_model reg (of_Z t)) (of_Z 1))
                        maxT step lastT
                    with
                    | Some t => Some (monthLabel t ++ " *")
                    | None => None
                    end
                | _, _ => None
                end
        end
    end.

(** The model fitted to the scores, by projection mode; the moving
    average needs a full window. *)
Definition trend_model (env : Env) (sorted : list Point.t) :
    option (Model F) :=
  if String.eqb (projectionMode env) "moving-avg" then
    if (length sorted <? MOVING_AVG_WINDOW)%nat then None
    else
      let smoothed :=
        map (fun i =>
               mkPt (of_Z (getTime (default EmptyString (Point.x <$> sorted !! i))))
                    (div (of_Z (window_sum (map Point.y sorted) i))
                         (of_Z (Z.of_nat MOVING_AVG_WINDOW))))
            (seq (MOVING_AVG_WINDOW - 1)
                 (length sorted - (MOVING_AVG_WINDOW - 1))) in
      linearRegression (slice_last 3 smoothed)
  else if String.eqb (projectionMode env) "poly" then
    polyRegression (map to_pt sorted)
  else linearRegression (map to_pt sorted).

(** The trend-based part of [getProjectedCrossing]. *)
Definition trendCrossing (env : Env) (sorted : list Point.t) (score : Z) :
    option string :=
  match trend_model env sorted, last sorted with
  | Some reg, Some final =>
      let lastT := getTime (Point.x final) in
      (* 365.25 days a year, written 36525 / 100 *)
      let maxT := lastT + 3 * 36525 * 24 * 60 * 60 * 1000 / 100 in
      let step := (7 * 24 * 60 * 60 * 1000)%positive in
      match
        searchForward
          (fun t => leb (eval_model reg (of_Z t)) (of_Z score))
          maxT step lastT
      with
      | Some t => Some (monthLabel t)
      | None => None
      end
  | _, _ => None
  end.

Definition getProjectedCrossing (env : Env) (sorted : list Point.t)
    (score : Z) (label : string) : option string :=
  let poolResult :=
    if (3 <=? length (distributionSnapshots env))%nat then
      getPoolAwareProjection env sorted score label
    else None in
  match poolResult with
  | Some text => if nonempty text then Some text
                 else trendCrossing env sorted score
  | None => trendCrossing env sorted score
  end.

End Crossing.

(** ** Eligibility cards *)

(** What a card of [buildScoreResults] says: "Eligible now (n past
    rounds)", "Projected: <month>" (pool-aware when the text carried the
    star), "Last eligible: <month>" for the date of the last eligible
    round, or "Score too low for this category". *)
Inductive Verdict :=
| Eligible (pastRoundCount : nat)
| Projected (text : string) (isPoolAware : bool)
| LastEligible (x : string)
| Ineligible.

Section Resolver.
Context {F : Type} `{JSNumber F} `{JSDate}.

(** The body of the [forEach] of [buildScoreResults] for one dataset, with
    the crossing function it calls as a parameter; [None] is a [return]
    before any card is made. *)
Definition scoreCardWith
    (crossing : Env -> list Point.t -> Z -> string -> option string)
    (env : Env) (ds : Dataset.t) (score : Z) : option Verdict :=
  if bool_decide (Dataset.label ds ∈ hiddenCategories env) then None
  else
    let filtered := filter_range env ds in
    if (length filtered <? 2)%nat then None
    else
      let sorted := sort_points filtered in
      let eligible := List.filter (fun d => Point.y d <=? score) sorted in
      let lastEligible := last eligible in
      match last sorted with
      | None => None
      | Some mostRecent =>
          let currentlyEligible := Point.y mostRecent <=? score in
          let projectedDate :=
            if negb (String.eqb (projectionMode env) "off")
               && negb currentlyEligible
            then crossing env sorted score (Dataset.label ds)
            else None in
          Some
            (if currentlyEligible then Eligible (length eligible)
             else
               match projectedDate, lastEligible with
               | Some text, _ =>
                   if nonempty text then
                     Projected (replace_first " *" EmptyString text)
                               (endsWith text "*")
                   else
                     match lastEligible with
                     | Some d => LastEligible (Point.x d)
                     | None => Ineligible
                     end
               | None, Some d => LastEligible (Point.x d)
               | None, None => Ineligible
               end)
      end.

Definition scoreCard (env : Env) (ds : Dataset.t) (score : Z) :
    option Verdict :=
  scoreCardWith getProjectedCrossing env ds score.

(** The cards, by category label; nothing for a missing or non-positive
    score. *)
Definition buildScoreResults (env : Env) (score : Z) :
    list (string * Verdict) :=
  if score <=? 0 then []
  else
    omap (fun ds => pair (Dataset.label ds) <$> scoreCard env ds score)
         (originalDatasets env).

End Resolver.

(** ** The page generator: distribution snapshots *)

Module ScoreDistribution.
Record t := mk {
  range601_1200 : Z; range501_600 : Z; range491_500 : Z; range481_490 : Z;
  range471_480 : Z; range461_470 : Z; range451_460 : Z; range441_450 : Z;
  range431_440 : Z; range421_430 : Z; range411_420 : Z; range401_410 : Z;
  range351_400 : Z; range301_350 : Z; range0_300 : Z;
  total : Z;
  asOfDate : string;
}.
End ScoreDistribution.

Module DrawRound.
Record t := mk {
  number : Z;
  date : string;
  roundType : string;
  invitationsIssued : Z;
  crsScore : Z;
  distribution : option ScoreDistribution.t;
}.
End DrawRound.

Section Generator.
Context `{JSDate}.

(** [r.distribution && r.distribution.total > 0] *)
Definition has_distribution (r : DrawRound.t) : bool :=
  match DrawRound.distribution r with
  | Some d => 0 <? ScoreDistribution.total d
  | None => false
  end.

(** The rounds that carry a distribution, sorted by round date. *)
Definition distRounds (rounds : list DrawRound.t) : list DrawRound.t :=
  sort_by (fun r => getTime (DrawRound.date r))
    (List.filter has_distribution rounds).

(** [d.asOfDate || r.date] *)
Definition snapshot_key (r : DrawRound.t) : string :=
  match DrawRound.distribution r with
  | Some d =>
      if nonempty (ScoreDistribution.asOfDate d)
      then ScoreDistribution.asOfDate d
      else DrawRound.date r
  | None => DrawRound.date r
  end.

Definition snapshot_ranges (d : ScoreDistribution.t) : gmap string Z :=
  list_to_map
    [ ("601-1200", ScoreDistribution.range601_1200 d);
      ("501-600", ScoreDistribution.range501_600 d);
      ("491-500", ScoreDistribution.range491_500 d);
      ("481-490", ScoreDistribution.range481_490 d);
      ("471-480", ScoreDistribution.range471_480 d);
      ("461-470", ScoreDistribution.range461_470 d);
      ("451-460", ScoreDistribution.range451_460 d);
      ("441-450", ScoreDistribution.range441_450 d);
      ("431-440", ScoreDistribution.range431_440 d);
      ("421-430", ScoreDistribution.range421_430 d);
      ("411-420", ScoreDistribution.range411_420 d);
      ("401-410", ScoreDistribution.range401_410 d);
      ("351-400", ScoreDistribution.range351_400 d);
      ("301-350", ScoreDistribution.range301_350 d);
      ("0-300", ScoreDistribution.range0_300 d) ].

(** The snapshot pushed for a round; a round without distribution pushes
    none. *)
Definition snapshot_of (r : DrawRound.t) : option Snapshot :=
  match DrawRound.distribution r with
  | Some d =>
      Some (mkSnapshot (DrawRound.date r) (snapshot_ranges d)
              (ScoreDistribution.total d))
  | None => None
  end.

(** The body of [for (const r of distRounds)], on the set [seenDates] and
    the array [distSnapshots]. *)
Definition dedupe_step (acc : gset string * list Snapshot)
    (r : DrawRound.t) : gset string * list Snapshot :=
  let '(seenDates, snapshots) := acc in
  let key := snapshot_key r in
  if bool_decide (key ∈ seenDates) then acc
  else
    ({[ key ]} ∪ seenDates,
     match snapshot_of r with
     | Some snap => (snapshots ++ [snap])%list
     | None => snapshots
     end).

Definition distSnapshots (rounds : list DrawRound.t) : list Snapshot :=
  snd (fold_left dedupe_step (distRounds rounds) (∅, [])).

End Generator.

(** *** First occurrences *)

Definition same_key (r r' : DrawRound.t) : bool :=
  String.eqb (snapshot_key r') (snapshot_key r).

(** The first round of a list that has the key of [r]. *)
Definition first_with_key (r : DrawRound.t) (rs : list DrawRound.t) :
    option DrawRound.t :=
  List.find (same_key r) rs.

(** The rounds of [rs], in order, that no round of [before] or earlier
    round of [rs] shares its key with. *)
Fixpoint first_occurrences (before rs : list DrawRound.t) :
    list DrawRound.t :=
  match rs with
  | [] => []
  | r :: rs' =>
      (if existsb (same_key r) before then [] else [r])
      ++ first_occurrences (before ++ [r]) rs'
  end%list.

(** The time of a snapshot, and of a round. *)
Definition snapshot_time `{JSDate} (snap : Snapshot) : Z :=
  getTime (snap_date snap).

Definition round_time `{JSDate} (r : DrawRound.t) : Z :=
  getTime (DrawRound.date r).

(** ** A runtime in the UTC time zone *)

Module UTC.

Definition msPerDay : Z := 24 * 60 * 60 * 1000.

(** Days since 1970-01-01 of a proleptic Gregorian date; a day of the
    month past the end of the month runs on into the next, as [MakeDay]
    does. *)
Definition days_from_civil (y m d : Z) : Z :=
  let y' := if m <=? 2 then y - 1 else y in
  let era := y' / 400 in
  let yoe := y' - era * 400 in
  let doy := (153 * (if 2 <? m then m - 3 else m + 9) + 2) / 5 + d - 1 in
  let doe := yoe * 365 + yoe / 4 - yoe / 100 + doy in
  era * 146097 + doe - 719468.

Definition civil_from_days (z : Z) : Z * Z * Z :=
  let z' := z + 719468 in
  let era := z' / 146097 in
  let doe := z' - era * 146097 in
  let yoe := (doe - doe / 1460 + doe / 36524 - doe / 146096) / 365 in
  let doy := doe - (365 * yoe + yoe / 4 - yoe / 100) in
  let mp := (5 * doy + 2) / 153 in
  let d := doy - (153 * mp + 2) / 5 + 1 in
  let m := if mp <? 10 then mp + 3 else mp - 9 in
  (yoe + era * 400 + (if m <=? 2 then 1 else 0), m, d).

Fixpoint decimal (width : nat) (n : Z) (acc : string) : string :=
  match width with
  | O => acc
  | S w =>
      decimal w (n / 10)
        (String (ascii_of_nat (48 + Z.to_nat (n mod 10))) acc)
  end.

Definition parse_iso (s : string) : Z :=
  match split "-"%char s with
  | [ys; ms; ds] =>
      match parseInt ys, parseInt ms, parseInt ds with
      | Some y, Some m, Some d => days_from_civil y m d * msPerDay
      | _, _, _ => 0
      end
  | _ => 0
  end.

Definition add_months (t k : Z) : Z :=
  let '(y, m, d) := civil_from_days (t / msPerDay) in
  let m0 := m - 1 + k in
  days_from_civil (y + m0 / 12) (m0 mod 12 + 1) d * msPerDay
  + t mod msPerDay.

Definition iso_date (t : Z) : string :=
  let '(y, m, d) := civil_from_days (t / msPerDay) in
  decimal 4 y ("-" ++ decimal 2 m ("-" ++ decimal 2 d EmptyString)).

Definition month_names : list string :=
  ["Jan"; "Feb"; "Mar"; "Apr"; "May"; "Jun";
   "Jul"; "Aug"; "Sep"; "Oct"; "Nov"; "Dec"].

Definition month_label (t : Z) : string :=
  let '(y, m, _) := civil_from_days (t / msPerDay) in
  default EmptyString (month_names !! Z.to_nat (m - 1)) ++ " " ++ decimal 4 y EmptyString.

Definition years_back (now k : Z) : Z :=
  let '(y, m, d) := civil_from_days (now / msPerDay) in
  days_from_civil (y - k) m d * msPerDay.

#[global] Instance utc_date : JSDate := {
  getTime := parse_iso;
  addMonths := add_months;
  isoDate := iso_date;
  monthLabel := month_label;
  yearsBack := years_back;
}.

End UTC.

(** ** Fixtures *)

Module Fixtures.
Import ExactNumber.

Definition three_points : list (Pt Q) :=
  [mkPt 0%Q 480%Q; mkPt 10%Q 460%Q; mkPt 20%Q 450%Q].

(** Four points in binary64, two at [x = 0] and one at [x = 1.6e-10]: a
    quadratic system that is nearly singular. *)
Definition near_singular : list (Pt float) :=
  [ mkPt (of_Z 0) (of_Z 1); mkPt (of_Z 0) (of_Z 2);
    mkPt (div (of_Z 16) (of_Z (10 ^ 11))) (of_Z 3); mkPt (of_Z 1) (of_Z 4) ].

(** The determinant [D] that [polyRegression] computes for them; with
    [xMin = 0] and [xRange = 1] the points are their own normalised
    form. *)
Definition near_singular_det : float :=
  let s := poly_sums near_singular in
  det3 ((of_Z 4, s1 s, s2 s), (s1 s, s2 s, s3 s), (s2 s, s3 s, s4 s)).

End Fixtures.

Module PoolFixtures.

(** Bands [(601,100), (501,200), (0,9700)]; the other bands are absent. *)
Definition three_bands : Snapshot :=
  mkSnapshot "2025-01-01"
    (<["601-1200" := 100]> (<["501-600" := 200]> (<["0-300" := 9700]> ∅)))
    10000.

End PoolFixtures.

Module SeriesFixtures.

Definition observed (x : string) (y invitations : Z) : Point.t :=
  Point.mk x y (Some 1) "General" invitations false None.

(** The series of the specification's eligibility examples. *)
Definition spec_series : list Point.t :=
  [ observed "2024-01-01" 480 1000;
    observed "2024-06-01" 460 1200;
    observed "2025-01-01" 450 1500 ].

(** Three rounds held on one day. *)
Definition same_day : list Point.t :=
  [ observed "2026-01-27" 480 1000;
    observed "2026-01-27" 470 1200;
    observed "2026-01-27" 460 1500 ].

(** Three rounds held on 5 March 2025, the highest score last. *)
Definition march_day : list Point.t :=
  [ observed "2025-03-05" 460 1000;
    observed "2025-03-05" 470 1200;
    observed "2025-03-05" 480 1500 ].

(** Rounds from 31 December 2023 to 1 March 2024: 61 days, so that step
    10 of 40 falls 6 hours into the last observed day. *)
Definition winter_series : list Point.t :=
  [ observed "2023-12-31" 480 1000;
    observed "2024-02-01" 470 1200;
    observed "2024-03-01" 460 1500 ].

(** Eight rounds, a month apart, all at 470. *)
Definition flat_series : list Point.t :=
  map (fun x => observed x 470 1000)
    [ "2024-01-10"; "2024-02-10"; "2024-03-10"; "2024-04-10";
      "2024-05-10"; "2024-06-10"; "2024-07-10"; "2024-08-10" ].

End SeriesFixtures.

Module EnvFixtures.
Import SeriesFixtures.

Definition snapshot (date : string) (top mid low : Z) : Snapshot :=
  mkSnapshot date
    (<["601-1200" := top]> (<["501-600" := mid]> (<["441-450" := low]> ∅)))
    (top + mid + low).

Definition general : Dataset.t :=
  Dataset.mk "General" spec_series "#2563eb" [] false.

(** A category with a single round. *)
Definition single : Dataset.t :=
  Dataset.mk "Education Occupations" [observed "2025-01-01" 480 1000]
    "#d97706" [] false.

(** Few candidates at or above 440: 300 against 1200 invitations. *)
Definition sparse (mode : string) : Env :=
  mkEnv [general; single]
    [ snapshot "2024-01-01" 100 200 0;
      snapshot "2024-06-01" 100 200 0;
      snapshot "2025-01-01" 100 200 0 ]
    mode "all" ∅ 1738368000000.

(** Many candidates at or above 440, fewer at each snapshot. *)
Definition crowded (mode : string) : Env :=
  mkEnv [general; single]
    [ snapshot "2024-01-01" 500 1500 2000;
      snapshot "2024-06-01" 500 1300 1500;
      snapshot "2025-01-01" 500 1100 1000 ]
    mode "all" ∅ 1738368000000.

(** A page whose only category had its three rounds on one day. *)
Definition one_day : Dataset.t :=
  Dataset.mk "General" march_day "#2563eb" [] false.

Definition one_day_page : Env :=
  mkEnv [one_day] [] "linear" "all" ∅ 1743465600000.

(** The same page three years and a day later, showing the last 3 years. *)
Definition later (env : Env) : Env :=
  mkEnv (originalDatasets env) (distributionSnapshots env)
    (projectionMode env) "3y" (hiddenCategories env)
    (now env + 1096 * 24 * 60 * 60 * 1000).

End EnvFixtures.

Module RoundFixtures.

Definition pool (total : Z) (asOfDate : string) : ScoreDistribution.t :=
  ScoreDistribution.mk total 0 0 0 0 0 0 0 0 0 0 0 0 0 0 total asOfDate.

(** Two rounds that report the pool as of the same day; the round with
    the later date has the lower number and comes first in the file. *)
Definition february : DrawRound.t :=
  DrawRound.mk 301 "2024-02-01" "General" 1000 480
    (Some (pool 20 "January 30, 2024")).

Definition january : DrawRound.t :=
  DrawRound.mk 302 "2024-01-31" "General" 1000 490
    (Some (pool 10 "January 30, 2024")).

Definition out_of_order : list DrawRound.t := [february; january].

(** A round of the data file whose distribution has a negative count in
    band 501-600 and a positive total, and the snapshot the generator
    makes of it. *)
Definition skewed : ScoreDistribution.t :=
  ScoreDistribution.mk 300 (-100) 0 0 0 0 0 0 0 0 0 0 0 0 0 200
    "January 1, 2025".



End RoundFixtures.

(** * The rest of the page, the generator and the downloaders

    The definitions below embed what the page script does besides
    projecting: the pool panel and the distribution chart, the statistics
    cards, the controls with the state they change and its persistence in
    the URL; then the categories and chart datasets of the page generator,
    and the two downloaders that produce its data file. They are preceded
    by a few definitions that only serve to state properties. *)

(** ** Definitions for stating properties *)

(** The sum of squared residuals of the line [y = s * x + c] on the
    points. *)
Definition ssr (s c : Q) (pts : list (Pt Q)) : Q :=
  Qsum (map (fun p => (py p - (s * px p + c)) * (py p - (s * px p + c)))%Q pts).

(** The residual of a model at a point. *)
Definition residual (m : Model Q) (p : Pt Q) : Q :=
  (py p - eval_model m (px p))%Q.

(** The normalised abscissa the quadratic model evaluates at. *)
Definition normalised (m : Model Q) (p : Pt Q) : Q :=
  match m with
  | LinearModel _ _ => px p
  | QuadModel _ _ _ xMin xRange => ((px p - xMin) / xRange)%Q
  end.

Section ClosestSpec.
Context `{JSDate}.

(** The distance [findClosestDist] minimises. *)
Definition snapshot_distance (dateMs : Z) (snap : Snapshot) : Z :=
  Z.abs (getTime (snap_date snap) - dateMs).

(** What the scan holds after the snapshots of [seen]. *)
Definition closest_so_far (dateMs : Z) (seen : list Snapshot)
    (acc : option Snapshot * option Z) : Prop :=
  match acc with
  | (Some best, Some bestDiff) =>
      bestDiff = snapshot_distance dateMs best /\ best ∈ seen /\
      Forall (fun snap => bestDiff <= snapshot_distance dateMs snap) seen
  | (None, None) => seen = []
  | _ => False
  end.

End ClosestSpec.

Module MoreFixtures.
Import SeriesFixtures.

(** A series whose scores rise. *)
Definition rising_series : list Point.t :=
  [ observed "2024-01-01" 450 1000;
    observed "2024-06-01" 460 1200;
    observed "2025-01-01" 480 1500 ].

(** The same page showing the last 3 years. *)
Definition three_years (env : Env) : Env :=
  mkEnv (originalDatasets env) (distributionSnapshots env)
    (projectionMode env) "3y" (hiddenCategories env) (now env).

End MoreFixtures.

(** ** The pool position of a score *)

Definition distRangeLabels : list string :=
  [ "601-1200"; "501-600"; "491-500"; "481-490"; "471-480";
    "461-470"; "451-460"; "441-450"; "431-440"; "421-430";
    "411-420"; "401-410"; "351-400"; "301-350"; "0-300" ].

(** The index of the bar the score falls in. *)
Definition getScoreRangeIndex (score : Z) : nat :=
  if 601 <=? score then 0
  else if 501 <=? score then 1
  else if 491 <=? score then 2
  else if 481 <=? score then 3
  else if 471 <=? score then 4
  else if 461 <=? score then 5
  else if 451 <=? score then 6
  else if 441 <=? score then 7
  else if 431 <=? score then 8
  else if 421 <=? score then 9
  else if 411 <=? score then 10
  else if 401 <=? score then 11
  else if 351 <=? score then 12
  else if 301 <=? score then 13
  else 14.

Definition getScoreRangeLabel (score : Z) : option string :=
  distRangeLabels !! getScoreRangeIndex score.

(** [latest.ranges[label] || 0] *)
Definition label_count (dist : Snapshot) (label : string) : Z :=
  default 0 (snap_ranges dist !! label).

(** What [updatePoolPosition] computes before it formats the chips: the
    half-band estimate [above] behind the percentile, the pool-aware count
    [abovePool], the reference invitation size [medInv], and the
    competition ratio with its class. The percentage strings, which go
    through [toFixed], are not modelled. *)
Record PoolPosition (F : Type) := mkPoolPosition {
  pos_above : Z;
  pos_total : Z;
  pos_abovePool : Z;
  pos_medInv : Z;
  pos_compRatio : F;
  pos_compClass : string;
}.
Arguments mkPoolPosition {F} _ _ _ _ _ _.
Arguments pos_above {F} _.
Arguments pos_total {F} _.
Arguments pos_abovePool {F} _.
Arguments pos_medInv {F} _.
Arguments pos_compRatio {F} _.
Arguments pos_compClass {F} _.

Section PoolPositionModel.
Context {F : Type} `{JSNumber F} `{JSDate}.

(** The literal [0.5]. *)
Definition lit_half : F := div (of_Z 1) (of_Z 2).

(** The half-band estimate: the bands above the user's in full, and
    [Math.round(inRange * 0.5)] of the user's own. *)
Definition above_estimate (latest : Snapshot) (score : Z) : Z :=
  let userIdx := getScoreRangeIndex score in
  let above :=
    sumZ (map (label_count latest) (take userIdx distRangeLabels)) in
  let inRange :=
    label_count latest (default EmptyString (distRangeLabels !! userIdx)) in
  above + round (mul (of_Z inRange) lit_half).

(** The median of the last 10 invitation sizes over all categories, or 0. *)
Definition reference_invitations (env : Env) : Z :=
  let allRoundsFlat :=
    sort_points
      (List.filter (fun d => 0 <? Point.invitations d)
         (flat_map Dataset.data (originalDatasets env))) in
  let recentInv :=
    sort_by (fun n => n) (map Point.invitations (slice_last 10 allRoundsFlat)) in
  default 0 (recentInv !! (length recentInv / 2)%nat).

(** [None] is the hidden panel. *)
Definition updatePoolPosition (env : Env) (score : Z) :
    option (PoolPosition F) :=
  if (score <=? 0) || (length (distributionSnapshots env) =? 0)%nat then None
  else
    match getLatestDistribution env with
    | None => None
    | Some latest =>
        let medInv := reference_invitations env in
        let abovePool := countAboveScore latest score in
        let compRatio :=
          if 0 <? medInv then div (of_Z abovePool) (of_Z medInv)
          else of_Z 0 in
        let compClass :=
          if ltb (of_Z 5) compRatio then "bad"
          else if ltb (of_Z 2) compRatio then "warn"
          else "good" in
        Some (mkPoolPosition (above_estimate latest score) (snap_total latest)
                abovePool medInv compRatio compClass)
    end.

End PoolPositionModel.

(** ** The page generator: categories and chart datasets *)

(** [toLowerCase] on the ASCII letters; round types are taken to be ASCII
    text. *)
Definition lower_char (c : ascii) : ascii :=
  let n := nat_of_ascii c in
  if ((65 <=? n) && (n <=? 90))%nat then ascii_of_nat (n + 32) else c.

Fixpoint toLowerCase (s : string) : string :=
  match s with
  | EmptyString => EmptyString
  | String c s' => String (lower_char c) (toLowerCase s')
  end.

(** [s.includes(pattern)] *)
Fixpoint includes (s pattern : string) : bool :=
  String.prefix pattern s ||
  match s with
  | EmptyString => false
  | String _ s' => includes s' pattern
  end.

(** Normalises round types into broader categories for charting. *)
Definition categorize (roundType : string) : string :=
  let lower := toLowerCase roundType in
  if includes lower "no program specified" || String.eqb lower "general"
  then "General"
  else if includes lower "provincial nominee"
  then "Provincial Nominee Program"
  else if includes lower "canadian experience"
  then "Canadian Experience Class"
  else if includes lower "federal skilled worker"
  then "Federal Skilled Workers"
  else if includes lower "federal skilled trades"
  then "Federal Skilled Trades"
  else if includes lower "french" then "French Language Proficiency"
  else if includes lower "healthcare" || includes lower "health care"
  then "Healthcare Occupations"
  else if includes lower "stem" then "STEM Occupations"
  else if includes lower "trade" then "Trade Occupations"
  else if includes lower "transport" then "Transport Occupations"
  else if includes lower "agriculture" || includes lower "agri-food"
  then "Agriculture & Agri-food"
  else if includes lower "education" then "Education Occupations"
  else roundType.

Definition COLORS : list (string * string) :=
  [ ("General", "#2563eb");
    ("Provincial Nominee Program", "#dc2626");
    ("Canadian Experience Class", "#16a34a");
    ("Federal Skilled Workers", "#9333ea");
    ("Federal Skilled Trades", "#ea580c");
    ("French Language Proficiency", "#0891b2");
    ("Healthcare Occupations", "#e11d48");
    ("STEM Occupations", "#4f46e5");
    ("Trade Occupations", "#b45309");
    ("Transport Occupations", "#6d28d9");
    ("Agriculture & Agri-food", "#15803d");
    ("Education Occupations", "#d97706") ].

Definition fallback : list string :=
  [ "#f59e0b"; "#8b5cf6"; "#ec4899"; "#06b6d4";
    "#84cc16"; "#f97316"; "#14b8a6"; "#a855f7" ].

(** [COLORS[category]] is read on the table's own keys; a category named
    like a member of [Object.prototype] is outside the model. *)
Definition getColor (category : string) (index : nat) : string :=
  match List.find (fun e => String.eqb (fst e) category) COLORS with
  | Some e => snd e
  | None => default EmptyString (fallback !! (index mod length fallback)%nat)
  end.

(** [if (!grouped.has(cat)) grouped.set(cat, []); grouped.get(cat).push(round)]
    on a [Map], kept as the list of its entries in insertion order. *)
Fixpoint group_push (cat : string) (round : DrawRound.t)
    (grouped : list (string * list DrawRound.t)) :
    list (string * list DrawRound.t) :=
  match grouped with
  | [] => [(cat, [round])]
  | (c, rs) :: rest =>
      if String.eqb c cat then (c, (rs ++ [round])%list) :: rest
      else (c, rs) :: group_push cat round rest
  end.

Definition grouped (rounds : list DrawRound.t) :
    list (string * list DrawRound.t) :=
  fold_left
    (fun g round => group_push (categorize (DrawRound.roundType round)) round g)
    rounds [].

(** [[...grouped.entries()].sort((a, b) => b[1].length - a[1].length)] *)
Definition categories (rounds : list DrawRound.t) :
    list (string * list DrawRound.t) :=
  sort_by (fun e => - Z.of_nat (length (snd e))) (grouped rounds).

(** The point of a round in a chart dataset. *)
Definition chart_point (r : DrawRound.t) : Point.t :=
  Point.mk (DrawRound.date r) (DrawRound.crsScore r)
    (Some (DrawRound.number r)) (DrawRound.roundType r)
    (DrawRound.invitationsIssued r) false None.

(** The datasets embedded in the page as [originalDatasets]. *)
Definition chartDatasets `{JSDate} (rounds : list DrawRound.t) :
    list Dataset.t :=
  imap
    (fun idx e =>
       let color := getColor (fst e) idx in
       let sortedRounds :=
         sort_by (fun r => getTime (DrawRound.date r)) (snd e) in
       Dataset.mk (fst e) (map chart_point sortedRounds) color [] false)
    (categories rounds).

(** The categories that have an entry in [COLORS]. *)
Definition categoryNames : list string := map fst COLORS.

(** An entry of [grouped] holds at least one round, and only rounds of its
    category. *)
Definition in_category (e : string * list DrawRound.t) : Prop :=
  snd e <> [] /\
  Forall (fun r => categorize (DrawRound.roundType r) = fst e) (snd e).

Module GeneratorFixtures.

Definition draw (number : Z) (date roundType : string) (crsScore : Z) :
    DrawRound.t :=
  DrawRound.mk number date roundType 1000 crsScore None.

(** Five rounds of three categories, latest first as in the data file. *)
Definition draws : list DrawRound.t :=
  [ draw 305 "2024-03-20" "French language proficiency (Version 1)" 388;
    draw 304 "2024-03-12" "No Program Specified" 525;
    draw 303 "2024-02-28" "General" 534;
    draw 302 "2024-02-14" "Healthcare occupations (Version 1)" 422;
    draw 301 "2024-02-01" "French language proficiency (Version 1)" 365 ].

End GeneratorFixtures.

(** ** The statistics cards *)

(** The values of the cards of [updateStats]. *)
Record Stats := mkStats {
  roundsShown : nat;
  latestScore : Z;
  latestType : string;
  lowestCRS : Z;
  highestCRS : Z;
  programTypes : nat;
  dateFrom : string;
  dateTo : string;
}.

(** [Math.min(...scores)] and [Math.max(...scores)] on a non-empty array. *)
Definition minimum (first : Z) (others : list Z) : Z :=
  fold_left Z.min others first.

Definition maximum (first : Z) (others : list Z) : Z :=
  fold_left Z.max others first.

Section StatsCards.
Context `{JSDate}.

(** The rounds the cards are computed from: all categories, hidden or
    not. *)
Definition allRounds (env : Env) : list Point.t :=
  sort_points
    (List.filter
       (fun d => (cutoff env =? 0) || (cutoff env <=? getTime (Point.x d)))
       (flat_map Dataset.data (originalDatasets env))).

(** [None]: the cards are left empty. *)
Definition updateStats (env : Env) : option Stats :=
  match allRounds env, last (allRounds env) with
  | earliest :: others, Some latest =>
      Some (mkStats (length (allRounds env))
              (Point.y latest) (Point.roundType latest)
              (minimum (Point.y earliest) (map Point.y others))
              (maximum (Point.y earliest) (map Point.y others))
              (length (originalDatasets env))
              (Point.x earliest) (Point.x latest))
  | _, _ => None
  end.

End StatsCards.

(** ** The page state and its persistence in the URL *)

(** The white space [parseInt] skips, within ASCII. *)
Definition is_space (c : ascii) : bool :=
  let n := nat_of_ascii c in
  ((9 <=? n) && (n <=? 13))%nat || (n =? 32)%nat.

Fixpoint skip_spaces (s : string) : string :=
  match s with
  | EmptyString => EmptyString
  | String c s' => if is_space c then skip_spaces s' else s
  end.

(** [parseInt(s, 10)]: leading white space, an optional sign, then the
    longest run of decimal digits; [None] is NaN. The value is exact, as it
    is in the script for results below [2 ^ 53]. *)
Definition parseInt10 (s : string) : option Z :=
  match skip_spaces s with
  | String "-" s' => Z.opp <$> parseInt s'
  | String "+" s' => parseInt s'
  | s' => parseInt s'
  end.

(** The decimal digits of a non-negative integer, most significant first,
    in front of [acc]. *)
Fixpoint digits_of (fuel : nat) (n : Z) (acc : string) : string :=
  match fuel with
  | O => acc
  | S fuel' =>
      let acc' := String (ascii_of_nat (48 + Z.to_nat (n mod 10))) acc in
      if n <? 10 then acc' else digits_of fuel' (n / 10) acc'
  end.

(** [String(n)] for an integer [n] that a number holds exactly (below
    [2 ^ 53] in absolute value). *)
Definition toString (n : Z) : string :=
  if n <? 0
  then String "-" (digits_of (S (Z.to_nat (Z.log2 (- n)))) (- n) EmptyString)
  else digits_of (S (Z.to_nat (Z.log2 n))) n EmptyString.

(** [l.join(sep)] *)
Fixpoint join (sep : string) (l : list string) : string :=
  match l with
  | [] => EmptyString
  | [a] => a
  | a :: l' => a ++ sep ++ join sep l'
  end.

(** The parameters of a query string, as [URLSearchParams.get] sees them. *)
Definition Query : Type := gmap string string.

(** [p.get(name) || fallback] *)
Definition get_or (p : Query) (name fallback : string) : string :=
  match p !! name with
  | Some v => if nonempty v then v else fallback
  | None => fallback
  end.

(** The result of [readURL]. *)
Module InitState.
Record t := mk {
  range : string;
  proj : string;
  hide : list string;
  score : string;
  theme : string;
}.
End InitState.

Definition readURL (p : Query) : InitState.t :=
  InitState.mk
    (get_or p "range" "all")
    (get_or p "proj" "off")
    (match p !! "hide" with
     | Some v =>
         if nonempty v then List.filter nonempty (split ","%char v) else []
     | None => []
     end)
    (get_or p "score" EmptyString)
    (get_or p "theme" "auto").

(** The variables of the page that the controls change, with the ones the
    projections read ([Env]). [userScore] is [None] when it is NaN. *)
Record Page := mkPage {
  page_env : Env;
  userScore : option Z;
  currentTheme : string;
}.

(** [originalDatasets[i]] for a number [i] *)
Definition dataset_at (datasets : list Dataset.t) (i : option Z) :
    option Dataset.t :=
  match i with
  | Some i => if i <? 0 then None else datasets !! Z.to_nat i
  | None => None
  end.

(** The hidden categories restored from the URL. *)
Definition restore_hidden (datasets : list Dataset.t) (hide : list string) :
    gset string :=
  fold_left
    (fun hidden idx =>
       match dataset_at datasets (parseInt10 idx) with
       | Some ds => {[ Dataset.label ds ]} ∪ hidden
       | None => hidden
       end)
    hide ∅.

(** The state of the page after its script has run on a URL. *)
Definition initPage (datasets : list Dataset.t) (snapshots : list Snapshot)
    (clock : Z) (p : Query) : Page :=
  let initState := readURL p in
  mkPage
    (mkEnv datasets snapshots (InitState.proj initState)
       (InitState.range initState)
       (restore_hidden datasets (InitState.hide initState)) clock)
    (if nonempty (InitState.score initState)
     then parseInt10 (InitState.score initState) else Some 0)
    (InitState.theme initState).

(** The indices of the hidden categories, in order. *)
Definition hidden_indices (env : Env) : list nat :=
  omap (fun e => if bool_decide (Dataset.label (snd e) ∈ hiddenCategories env)
                 then Some (fst e) else None)
    (imap pair (originalDatasets env)).

(** The parameters [writeURL] puts in the URL. *)
Definition writeURL (pg : Page) : Query :=
  let env := page_env pg in
  let p : Query := ∅ in
  let p :=
    if String.eqb (timeRange env) "all" then p
    else <["range" := timeRange env]> p in
  let p :=
    if String.eqb (projectionMode env) "off" then p
    else <["proj" := projectionMode env]> p in
  let p :=
    if (0 <? size (hiddenCategories env))%nat
    then <["hide" :=
             join "," (map (fun i => toString (Z.of_nat i))
                         (hidden_indices env))]> p
    else p in
  let p :=
    match userScore pg with
    | Some n => if 0 <? n then <["score" := toString n]> p else p
    | None => p
    end in
  if String.eqb (currentTheme pg) "auto" then p
  else <["theme" := currentTheme pg]> p.

(** *** The controls *)

Definition with_hidden (pg : Page) (hidden : gset string) : Page :=
  let env := page_env pg in
  mkPage
    (mkEnv (originalDatasets env) (distributionSnapshots env)
       (projectionMode env) (timeRange env) hidden (now env))
    (userScore pg) (currentTheme pg).

(** A click on the button of category [origIdx]; the buttons exist for
    the indices of [originalDatasets] only. *)
Definition toggleDataset (pg : Page) (origIdx : nat) : option Page :=
  let env := page_env pg in
  match originalDatasets env !! origIdx with
  | Some ds =>
      let label := Dataset.label ds in
      Some (with_hidden pg
              (if bool_decide (label ∈ hiddenCategories env)
               then hiddenCategories env ∖ {[ label ]}
               else {[ label ]} ∪ hiddenCategories env))
  | None => None
  end.

Definition toggleAll (pg : Page) : Page :=
  let env := page_env pg in
  let allVis := (size (hiddenCategories env) =? 0)%nat in
  with_hidden pg
    (if allVis
     then fold_left (fun hidden ds => {[ Dataset.label ds ]} ∪ hidden)
            (originalDatasets env) (hiddenCategories env)
     else ∅).

(** The handler of the score input. *)
Definition scoreInput (pg : Page) (value : string) : Page :=
  let val := parseInt10 value in
  mkPage (page_env pg)
    (match val with
     | Some v => if (0 <=? v) && (v <=? 1200) then Some v else Some 0
     | None => Some 0
     end)
    (currentTheme pg).

(** The handlers of the time-range, projection and theme buttons. *)
Definition setTimeRange (pg : Page) (range : string) : Page :=
  let env := page_env pg in
  mkPage
    (mkEnv (originalDatasets env) (distributionSnapshots env)
       (projectionMode env) range (hiddenCategories env) (now env))
    (userScore pg) (currentTheme pg).

Definition setProjectionMode (pg : Page) (proj : string) : Page :=
  let env := page_env pg in
  mkPage
    (mkEnv (originalDatasets env) (distributionSnapshots env)
       proj (timeRange env) (hiddenCategories env) (now env))
    (userScore pg) (currentTheme pg).

Definition setTheme (pg : Page) (theme : string) : Page :=
  mkPage (page_env pg) (userScore pg) theme.

(** A use of one of the controls. *)
Inductive Event :=
| ClickCategory (origIdx : nat)
| ClickAll
| ClickTimeRange (range : string)
| ClickProjection (proj : string)
| ClickTheme (theme : string)
| TypeScore (value : string).

(** The values the toolbar buttons carry. *)
Definition button_value (ev : Event) : bool :=
  match ev with
  | ClickTimeRange range => bool_decide (range ∈ ["all"; "3y"])
  | ClickProjection proj =>
      bool_decide (proj ∈ ["off"; "linear"; "moving-avg"; "poly"])
  | ClickTheme theme => bool_decide (theme ∈ ["auto"; "light"; "dark"])
  | _ => true
  end.

Definition handle (pg : Page) (ev : Event) : option Page :=
  match ev with
  | ClickCategory origIdx => toggleDataset pg origIdx
  | ClickAll => Some (toggleAll pg)
  | ClickTimeRange range => Some (setTimeRange pg range)
  | ClickProjection proj => Some (setProjectionMode pg proj)
  | ClickTheme theme => Some (setTheme pg theme)
  | TypeScore value => Some (scoreInput pg value)
  end.

(** The state after a sequence of events; [None] when a handler throws. *)
Definition run (pg : Page) (events : list Event) : option Page :=
  foldl (fun st ev => st ≫= fun pg' => handle pg' ev) (Some pg) events.

(** What holds of the state of every page: only categories of the page
    are hidden, and the three modes are not empty strings. *)
Definition page_invariant (pg : Page) : Prop :=
  let env := page_env pg in
  (forall label, label ∈ hiddenCategories env ->
     label ∈ map Dataset.label (originalDatasets env)) /\
  timeRange env <> EmptyString /\
  projectionMode env <> EmptyString /\
  currentTheme pg <> EmptyString.

(** A run of decimal digits. *)
Definition is_digit (c : ascii) : bool :=
  match digit_of c with Some _ => true | None => false end.

Fixpoint all_digits (s : string) : bool :=
  match s with
  | EmptyString => true
  | String c s' => is_digit c && all_digits s'
  end.

(** A text without the character the pool-aware projection marks its
    answer with. *)
Fixpoint star_free (s : string) : bool :=
  match s with
  | EmptyString => true
  | String c s' => negb (Ascii.eqb c "*") && star_free s'
  end.

(** *** Hiding datasets on the chart *)

(** The alternatives of the pattern
    [/ \((?:linear|ma|polynomial|proj)\)$/]. *)
Definition projection_suffixes : list string :=
  [" (linear)"; " (ma)"; " (polynomial)"; " (proj)"].

(** [label.replace(/ \((?:linear|ma|polynomial|proj)\)$/, '')]: the
    pattern is anchored at the end, so it matches when the label ends with
    one of the alternatives, of which no two can end the same string. *)
Definition strip_projection_suffix (label : string) : string :=
  match List.find (endsWith label) projection_suffixes with
  | Some suffix =>
      substring 0 (String.length label - String.length suffix) label
  | None => label
  end.

Section Rebuild.
Context {F : Type} `{JSNumber F} `{JSDate}.

(** The datasets [rebuildChart] gives the chart, each with its [hidden]
    flag. *)
Definition rebuildChart (env : Env) : list (Dataset.t * bool) :=
  map (fun d =>
         let base := strip_projection_suffix (Dataset.label d) in
         (d, bool_decide (base ∈ hiddenCategories env)))
    (buildDatasets (F := F) env).

End Rebuild.

Module PageFixtures.

(** A visit with the second category hidden and the last 3 years shown. *)
Definition visit : Query :=
  <["hide" := "1"]> (<["range" := "3y"]> ∅).

Definition clicks : list Event :=
  [ClickCategory 0; TypeScore "470"; ClickProjection "linear"].

(** The page of [EnvFixtures.sparse] after [clicks] on [visit]. *)
Definition after_clicks : Page :=
  mkPage
    (mkEnv (originalDatasets (EnvFixtures.sparse "off"))
       (distributionSnapshots (EnvFixtures.sparse "off"))
       "linear" "3y" ({[ "General" ]} ∪ {[ "Education Occupations" ]})
       (now (EnvFixtures.sparse "off")))
    (Some 470) "auto".

(** The sparse page with the first category hidden. *)
Definition general_hidden (mode : string) : Env :=
  mkEnv (originalDatasets (EnvFixtures.sparse mode))
    (distributionSnapshots (EnvFixtures.sparse mode))
    mode "all" {[ "General" ]} (now (EnvFixtures.sparse mode)).

End PageFixtures.

(** ** The downloader *)

(** A round of the endpoint's JSON: a [Record<string, string>]. *)
Definition Row : Type := gmap string string.

(** [str.replace(/,/g, "")] *)
Fixpoint remove_commas (s : string) : string :=
  match s with
  | EmptyString => EmptyString
  | String c s' =>
      if Ascii.eqb c "," then remove_commas s' else String c (remove_commas s')
  end.

(** [s.trim()], within ASCII. *)
Fixpoint trim_end (s : string) : string :=
  match s with
  | EmptyString => EmptyString
  | String c s' =>
      let rest := trim_end s' in
      if is_space c && String.eqb rest EmptyString then EmptyString
      else String c rest
  end.

Definition trim (s : string) : string := trim_end (skip_spaces s).

(** [parseNumber]; [None] is a missing field. *)
Definition parseNumber (str : option string) : Z :=
  match str with
  | None => 0
  | Some s =>
      if String.eqb s EmptyString || String.eqb s "undefined"
         || String.eqb s "N/A"
      then 0
      else default 0 (parseInt10 (trim (remove_commas s)))
  end.

(** [a || b || ""] on fields that may be missing. *)
Definition first_text (a b : option string) : string :=
  match a with
  | Some s => if nonempty s then s else default EmptyString b
  | None => default EmptyString b
  end.

Definition parseDistribution (round : Row) : option ScoreDistribution.t :=
  let dd1 := parseNumber (round !! "dd1") in
  let total := parseNumber (round !! "dd18") in
  if total =? 0 then None
  else
    Some (ScoreDistribution.mk
            dd1
            (parseNumber (round !! "dd2"))
            (parseNumber (round !! "dd4"))
            (parseNumber (round !! "dd5"))
            (parseNumber (round !! "dd6"))
            (parseNumber (round !! "dd7"))
            (parseNumber (round !! "dd8"))
            (parseNumber (round !! "dd10"))
            (parseNumber (round !! "dd11"))
            (parseNumber (round !! "dd12"))
            (parseNumber (round !! "dd13"))
            (parseNumber (round !! "dd14"))
            (parseNumber (round !! "dd15"))
            (parseNumber (round !! "dd16"))
            (parseNumber (round !! "dd17"))
            total
            (first_text (round !! "drawDistributionAsOn") None)).

Section Downloader.

(** [parseDate] goes through the platform's parser of free-form dates
    ([new Date(dateStr)]), which is left open. *)
Variable parseDate : string -> string.

(** The round pushed for an entry of the JSON; [None] is [continue]. *)
Definition drawRound_of (round : Row) : option DrawRound.t :=
  let num := parseNumber (round !! "drawNumber") in
  if num =? 0 then None
  else
    Some (DrawRound.mk num
            (parseDate
               (first_text (round !! "drawDateFull")
                  (Some (first_text (round !! "drawDate") None))))
            (first_text (round !! "drawName")
               (Some (first_text (round !! "drawText2") None)))
            (parseNumber (round !! "drawSize"))
            (parseNumber (round !! "drawCRS"))
            (parseDistribution round)).

(** The rounds [main] saves, from the entries of [json.rounds]. *)
Definition downloadRounds (entries : list (string * Row)) :
    list DrawRound.t :=
  sort_by DrawRound.number (omap (fun e => drawRound_of (snd e)) entries).

End Downloader.

(** ** The scraper of the rounds page *)

Module Scraper.

(** The cells of a table row of the rounds page. *)
Record RowText := mkRowText {
  number : string;
  date : string;
  roundType : string;
  invitations : string;
  crs : string;
}.

(** [parseInt(str.replace(/,/g, "").trim(), 10) || 0] *)
Definition parseNumber (str : string) : Z :=
  default 0 (parseInt10 (trim (remove_commas str))).

Section Rounds.
Variable parseDate : string -> string.

Definition round_of (r : RowText) : DrawRound.t :=
  DrawRound.mk (parseNumber (number r)) (parseDate (date r)) (roundType r)
    (parseNumber (invitations r)) (parseNumber (crs r)) None.

(** The callback of [rounds.filter], on the set [seen] and the rounds
    kept so far. *)
Definition keep_first (acc : gset Z * list DrawRound.t) (r : DrawRound.t) :
    gset Z * list DrawRound.t :=
  let '(seen, kept) := acc in
  if bool_decide (DrawRound.number r ∈ seen) then acc
  else ({[ DrawRound.number r ]} ∪ seen, (kept ++ [r])%list).

Definition deduped (rounds : list DrawRound.t) : list DrawRound.t :=
  snd (fold_left keep_first rounds (∅, [])).

(** The rounds the scraper saves, from the rows of all pages. *)
Definition scrapedRounds (rows : list RowText) : list DrawRound.t :=
  sort_by DrawRound.number (deduped (map round_of rows)).

End Rounds.
End Scraper.

(** [r] is the first of [rounds] with its round number. *)
Definition first_with_number (rounds : list DrawRound.t) (r : DrawRound.t) :
    Prop :=
  exists before after,
    rounds = (before ++ r :: after)%list /\
    DrawRound.number r ∉ map DrawRound.number before.

(** ** The pool distribution chart *)

Section DistChart.
Context `{JSDate}.

(** The bars of the current view: [distRangeLabels.map(r => latest.ranges[r] || 0)]. *)
Definition currentValues (env : Env) : option (list Z) :=
  (fun latest => map (label_count latest) distRangeLabels)
    <$> getLatestDistribution env.

(** The snapshots of the history view. *)
Definition historySnapshots (env : Env) : list Snapshot :=
  if 0 <? cutoff env then
    List.filter (fun s => cutoff env <=? getTime (snap_date s))
      (distributionSnapshots env)
  else distributionSnapshots env.

(** The stacked datasets of the history view, as label and points;
    [None] when no snapshot is in range. *)
Definition historyDatasets (env : Env) :
    option (list (string * list (string * Z))) :=
  let filtered := historySnapshots env in
  if (length filtered =? 0)%nat then None
  else
    Some (map (fun range =>
                 (range,
                  map (fun s => (snap_date s, label_count s range)) filtered))
            distRangeLabels).

(** [items.reduce((s, it) => s + it.raw.y, 0)] over the points at index
    [j] of the datasets. *)
Definition footerTotal (datasets : list (string * list (string * Z)))
    (j : nat) : Z :=
  fold_left (fun s it => s + snd it) (omap (fun ds => snd ds !! j) datasets) 0.

End DistChart.

(** The page with another projection mode. *)
Definition with_mode (env : Env) (mode : string) : Env :=
  mkEnv (originalDatasets env) (distributionSnapshots env) mode
    (timeRange env) (hiddenCategories env) (now env).

(** The dates and invitation counts of the rounds of a category, without
    their cutoff scores. *)
Definition round_schedule (sorted : list Point.t) : list (string * Z) :=
  map (fun d => (Point.x d, Point.invitations d)) sorted.

Module ScheduleFixtures.
Import SeriesFixtures.

(** The rounds of [spec_series] with other cutoff scores. *)
Definition other_cutoffs : list Point.t :=
  [ observed "2024-01-01" 300 1000;
    observed "2024-06-01" 900 1200;
    observed "2025-01-01" 510 1500 ].

(** The sparse page with a score typed in. *)
Definition visitor : Page :=
  mkPage (EnvFixtures.sparse "linear") (Some 440) "auto".

End ScheduleFixtures.

(** * Properties *)

(** ** Facts about the projection math *)

Section RegressionFacts.
Context {F : Type} `{JSNumber F}.

Lemma lin_sums_from (pts : list (Pt F)) (s : LinSums) :
  fold_left lin_step pts s =
  {| sx := fold_left (fun acc p => add acc (px p)) pts (sx s);
     sy := fold_left (fun acc p => add acc (py p)) pts (sy s);
     sxy := fold_left (fun acc p => add acc (mul (px p) (py p))) pts (sxy s);
     sxx := fold_left (fun acc p => add acc (mul (px p) (px p))) pts (sxx s) |}.
Proof.
  revert s. induction pts as [| p pts IH]; intros s.
  - destruct s; reflexivity.
  - cbn [fold_left]. rewrite IH. reflexivity.
Qed.

Lemma lin_sums_sigma (pts : list (Pt F)) :
  lin_sums pts =
  {| sx := sigma px pts;
     sy := sigma py pts;
     sxy := sigma (fun p => mul (px p) (py p)) pts;
     sxx := sigma (fun p => mul (px p) (px p)) pts |}.
Proof. unfold lin_sums. rewrite lin_sums_from. reflexivity. Qed.

Lemma linearRegression_short (pts : list (Pt F)) :
  (length pts < 2)%nat -> linearRegression pts = None.
Proof.
  intros Hn. unfold linearRegression.
  destruct (Nat.ltb_spec (length pts) 2) as [_ | Hge]; [reflexivity | lia].
Qed.

End RegressionFacts.

Section RegressionTheorems.
Context {F : Type} `{JSNumber F}.

Lemma linearRegression_cases (pts : list (Pt F)) :
  let n := of_Z (Z.of_nat (length pts)) in
  let Sx := sigma px pts in
  let Sy := sigma py pts in
  let Sxy := sigma (fun p => mul (px p) (py p)) pts in
  let Sxx := sigma (fun p => mul (px p) (px p)) pts in
  let d := sub (mul n Sxx) (mul Sx Sx) in
  let slope := div (sub (mul n Sxy) (mul Sx Sy)) d in
  let intercept := div (sub Sy (mul slope Sx)) n in
  (linearRegression pts = None <->
     (length pts < 2)%nat \/ ltb (abs d) lit_1e_10 = true) /\
  (linearRegression pts <> None <->
     linearRegression pts = Some (LinearModel slope intercept)) /\
  (forall x, eval_model (LinearModel slope intercept) x =
             add (mul slope x) intercept).
Proof.
  intros n Sx Sy Sxy Sxx d slope intercept.
  assert (Hd : lin_det pts = d).
  { unfold lin_det. rewrite lin_sums_sigma. reflexivity. }
  assert (Hs : lin_slope pts = slope).
  { unfold lin_slope. rewrite Hd, lin_sums_sigma. reflexivity. }
  assert (Hi : lin_intercept pts = intercept).
  { unfold lin_intercept. rewrite Hs, lin_sums_sigma. reflexivity. }
  unfold linearRegression. rewrite Hd, Hs, Hi.
  destruct (Nat.ltb_spec (length pts) 2) as [Hlt | Hge].
  - split; [| split].
    + split; [intros _; left; exact Hlt | reflexivity].
    + split; [intros Hne; contradiction Hne; reflexivity | discriminate].
    + reflexivity.
  - destruct (ltb (abs d) lit_1e_10) eqn:Hsmall; (split; [| split]).
    + split; [intros _; right; reflexivity | reflexivity].
    + split; [intros Hne; contradiction Hne; reflexivity | discriminate].
    + reflexivity.
    + split; [discriminate | intros [Hlt | Hc]; [lia | discriminate]].
    + split; [reflexivity | discriminate].
    + reflexivity.
Qed.

(** C6: on every list of fewer than 4 points the quadratic fit returns
    exactly what the linear fit returns on the same points. *)
Theorem polyRegression_short_is_linear (pts : list (Pt F)) :
  (length pts < 4)%nat -> polyRegression pts = linearRegression pts.
Proof.
  intros Hn. unfold polyRegression.
  destruct (Nat.ltb_spec (length pts) 4) as [_ | Hge]; [reflexivity | lia].
Qed.

End RegressionTheorems.

(** ** The fit in exact arithmetic *)

Lemma Qsum_ext {A : Type} (f g : A -> Q) (l : list A) :
  (forall a, f a == g a)%Q -> (Qsum (map f l) == Qsum (map g l))%Q.
Proof.
  intros Hfg. induction l as [| a l IH]; cbn; [reflexivity |].
  rewrite (Hfg a). unfold Qsum in IH. rewrite IH. reflexivity.
Qed.

Lemma running_total_exact (f : Pt Q -> Q) (pts : list (Pt Q)) (acc : Q) :
  (fold_left (fun acc p => add acc (f p)) pts acc ==
   acc + Qsum (map f pts))%Q.
Proof.
  revert acc. induction pts as [| p pts IH]; intros acc; cbn [fold_left map].
  - cbn. ring.
  - rewrite IH. cbn [add ExactNumber.Q_number Qsum fold_right].
    rewrite Qred_correct. unfold Qsum. ring.
Qed.

Lemma sigma_exact (f : Pt Q -> Q) (pts : list (Pt Q)) :
  (sigma f pts == Qsum (map f pts))%Q.
Proof.
  unfold sigma. rewrite running_total_exact. cbn. ring.
Qed.

Lemma Qsum_residuals (s c : Q) (pts : list (Pt Q)) :
  (Qsum (map (fun p => py p - (s * px p + c)) pts) ==
   Qsum (map py pts) - s * Qsum (map px pts)
   - inject_Z (Z.of_nat (length pts)) * c)%Q.
Proof.
  induction pts as [| p pts IH].
  - cbn. ring.
  - cbn [map Qsum fold_right length]. unfold Qsum in IH. rewrite IH.
    rewrite Nat2Z.inj_succ. unfold Z.succ. rewrite inject_Z_plus.
    ring.
Qed.

Lemma Qsum_moments (s c : Q) (pts : list (Pt Q)) :
  (Qsum (map (fun p => px p * (py p - (s * px p + c))) pts) ==
   Qsum (map (fun p => px p * py p) pts)
   - s * Qsum (map (fun p => px p * px p) pts)
   - c * Qsum (map px pts))%Q.
Proof.
  induction pts as [| p pts IH].
  - cbn. ring.
  - cbn [map Qsum fold_right]. unfold Qsum in IH. rewrite IH. ring.
Qed.

Lemma Q_ltb_small (d : Q) :
  (d == 0)%Q -> ltb (abs d) (lit_1e_10 (F := Q)) = true.
Proof.
  intros Hd. cbn [ltb abs ExactNumber.Q_number].
  apply negb_true_iff. destruct (Qle_bool _ _) eqn:Hle; [| reflexivity].
  apply Qle_bool_iff in Hle. rewrite Qred_correct, Hd in Hle.
  revert Hle. vm_compute. intros Hle. contradiction Hle. reflexivity.
Qed.

Lemma linearRegression_normal_equations (pts : list (Pt Q))
    (slope intercept : Q) :
  linearRegression pts = Some (LinearModel slope intercept) ->
  (Qsum (map (fun p => py p - (slope * px p + intercept)) pts) == 0)%Q /\
  (Qsum (map (fun p => px p * (py p - (slope * px p + intercept))) pts) == 0)%Q.
Proof.
  intros Hfit.
  pose proof (linearRegression_cases pts) as Hc. cbv zeta in Hc.
  destruct Hc as [Hnone [Hsome _]].
  assert (Hne : linearRegression pts <> None) by (rewrite Hfit; discriminate).
  apply Hsome in Hne. rewrite Hfit in Hne. injection Hne as Hslope Hint.
  assert (Hguard : ~ ((length pts < 2)%nat \/
            ltb (abs (sub (mul (of_Z (Z.of_nat (length pts)))
                            (sigma (fun p => mul (px p) (px p)) pts))
                          (mul (sigma px pts) (sigma px pts))))
                lit_1e_10 = true)).
  { intros Hbad. apply Hnone in Hbad. congruence. }
  set (n := inject_Z (Z.of_nat (length pts))) in *.
  set (Sx := Qsum (map px pts)).
  set (Sy := Qsum (map py pts)).
  set (Sxy := Qsum (map (fun p => px p * py p)%Q pts)).
  set (Sxx := Qsum (map (fun p => px p * px p)%Q pts)).
  assert (Hsx : (sigma px pts == Sx)%Q) by apply sigma_exact.
  assert (Hsy : (sigma py pts == Sy)%Q) by apply sigma_exact.
  assert (Hsxy : (sigma (fun p => mul (px p) (py p)) pts == Sxy)%Q).
  { rewrite sigma_exact. apply Qsum_ext. intros p. cbn. apply Qred_correct. }
  assert (Hsxx : (sigma (fun p => mul (px p) (px p)) pts == Sxx)%Q).
  { rewrite sigma_exact. apply Qsum_ext. intros p. cbn. apply Qred_correct. }
  assert (Hn : ~ (n == 0)%Q).
  { subst n. intros Hz. apply Hguard. left.
    unfold Qeq in Hz. cbn in Hz. lia. }
  assert (Hd : ~ (n * Sxx - Sx * Sx == 0)%Q).
  { intros Hz. apply Hguard. right. apply Q_ltb_small.
    cbn [sub mul of_Z ExactNumber.Q_number]. fold n.
    rewrite !Qred_correct, Hsx, Hsxx. exact Hz. }
  rewrite <- Hslope in Hint.
  assert (Hs : (slope == (n * Sxy - Sx * Sy) / (n * Sxx - Sx * Sx))%Q).
  { rewrite Hslope. cbn [sub mul div of_Z ExactNumber.Q_number]. fold n.
    rewrite !Qred_correct, Hsx, Hsy, Hsxy, Hsxx. reflexivity. }
  assert (Hi : (intercept == (Sy - slope * Sx) / n)%Q).
  { rewrite Hint. cbn [sub mul div of_Z ExactNumber.Q_number]. fold n.
    rewrite !Qred_correct, Hsx, Hsy. reflexivity. }
  split.
  - rewrite Qsum_residuals. fold n Sx Sy. rewrite Hi. field.
    repeat split; assumption.
  - rewrite Qsum_moments. fold Sx Sxy Sxx. rewrite Hi, Hs. field.
    repeat split; assumption.
Qed.

(** C5 fails of the script on rounds held on one day, the degenerate
    input that the guard [Math.abs(d) < 1e-10] is there for. The three
    rounds of 5 March 2025 have one [x]; the determinant
    [n * Sxx - Sx * Sx] is 0 and exact arithmetic returns no model. In
    binary64 the sums of the squared time values are rounded, the
    determinant comes out as [-2^32], the guard does not fire and a model
    is returned, the flat line [-0 * x + 470]: the chart gets a 41-point
    projection, and the card for a score of 475 reads "Projected: Mar
    2025" where without a model it names the last eligible round. *)
Theorem linearRegression_same_day_model :
  map Point.x SeriesFixtures.march_day
    = ["2025-03-05"; "2025-03-05"; "2025-03-05"] /\
  lin_det (F := Q) (map to_pt SeriesFixtures.march_day) = 0%Q /\
  linearRegression (F := Q) (map to_pt SeriesFixtures.march_day) = None /\
  lin_det (F := float) (map to_pt SeriesFixtures.march_day)
    = of_Z (- 2 ^ 32) /\
  ltb (abs (lin_det (F := float) (map to_pt SeriesFixtures.march_day)))
      lit_1e_10 = false /\
  linearRegression (F := float) (map to_pt SeriesFixtures.march_day)
    = Some (LinearModel PrimFloat.neg_zero (of_Z 470)) /\
  regressionProjection (F := Q) SeriesFixtures.march_day
    "General" "#2563eb" linearRegression [6; 4] "linear" = None /\
  (fun proj => length (Dataset.data proj)) <$>
    regressionProjection (F := float) SeriesFixtures.march_day
      "General" "#2563eb" linearRegression [6; 4] "linear" = Some 41%nat /\
  scoreCard (F := Q) EnvFixtures.one_day_page EnvFixtures.one_day 475
    = Some (LastEligible "2025-03-05") /\
  scoreCard (F := float) EnvFixtures.one_day_page EnvFixtures.one_day 475
    = Some (Projected "Mar 2025" false).
Proof. repeat split; vm_compute; reflexivity. Qed.

Lemma polyRegression_short_is_linear_witness :
  (length Fixtures.three_points < 4)%nat /\
  polyRegression Fixtures.three_points = linearRegression Fixtures.three_points.
Proof.
  split; [simpl; lia | apply polyRegression_short_is_linear; simpl; lia].
Defined.

(** ** Facts about the pool count *)

Section BandView.
Context {F : Type} `{JSNumber F}.

Lemma below_none_above (threshold : Z) (r : Range) (rest : list Range) :
  lo r < threshold ->
  Forall (fun r' => lo r' < lo r) rest ->
  List.filter (entirely_above threshold) rest = [].
Proof.
  intros Hr Hall. induction Hall as [| r' rest Hr' _ IH]; [reflexivity |].
  cbn [List.filter]. unfold entirely_above at 1.
  destruct (Z.leb_spec threshold (lo r')); [lia | exact IH].
Qed.

Lemma countLoop_by_bands (dist : Snapshot) (threshold : Z) (rs : list Range) :
  descending rs ->
  forall total,
    countLoop dist threshold rs total =
    total + count_by_bands dist threshold rs.
Proof.
  unfold count_by_bands.
  induction 1 as [| r rest Hsorted IH Hall]; intros total.
  - cbn. lia.
  - cbn [countLoop List.filter].
    destruct (entirely_above threshold r) eqn:Habove;
      unfold entirely_above in Habove; rewrite Habove.
    + rewrite IH. cbn [negb map]. unfold sumZ. cbn [foldr]. lia.
    + apply Z.leb_gt in Habove.
      rewrite (below_none_above threshold r rest Habove Hall).
      cbn [negb map]. unfold straddle_part, sumZ. cbn [foldr].
      destruct (range_hi r) as [hi |]; [| lia].
      destruct (threshold <=? hi); lia.
Qed.

Lemma countLoop_full_prefix (dist : Snapshot) (threshold : Z)
    (above rest : list Range) (total : Z) :
  Forall (fun r' => threshold <= lo r') above ->
  countLoop dist threshold (above ++ rest)%list total =
  countLoop dist threshold rest
    (total + sumZ (map (range_count dist) above)).
Proof.
  intros Hall. revert total.
  induction Hall as [| r above Hr _ IH]; intros total.
  - cbn. f_equal. lia.
  - cbn [app countLoop].
    destruct (Z.leb_spec threshold (lo r)) as [_ | Hgt]; [| lia].
    rewrite IH. f_equal. cbn [map]. unfold sumZ. cbn [foldr]. lia.
Qed.

Lemma ranges_descending : descending ranges.
Proof.
  unfold descending, ranges.
  repeat (apply SSorted_cons; [| repeat constructor; cbn; lia]).
  apply SSorted_nil.
Qed.

Lemma countAboveScore_by_bands (dist : Snapshot) (threshold : Z) :
  countAboveScore dist threshold = count_by_bands dist threshold ranges.
Proof.
  unfold countAboveScore.
  rewrite (countLoop_by_bands dist threshold ranges ranges_descending).
  lia.
Qed.

End BandView.

Lemma Qfloor_half_up (n : Z) (p : positive) :
  Qfloor ((n # p) + (1 # 2))%Q = (2 * n + Z.pos p) / (2 * Z.pos p).
Proof.
  unfold Qplus, Qfloor. cbn [Qnum Qden].
  f_equal; lia.
Qed.

(** In exact arithmetic the share is the quotient rounded half up. *)
Lemma Q_share_exact (c a : Z) (p : positive) :
  share (F := Q) c a (Z.pos p) = (2 * (c * a) + Z.pos p) / (2 * Z.pos p).
Proof.
  unfold share. cbn [round mul div of_Z ExactNumber.Q_number].
  unfold ExactNumber.q_round.
  rewrite <- Qfloor_half_up.
  apply Qfloor_comp.
  rewrite !Qred_correct.
  unfold Qeq, Qplus, Qmult, Qdiv, Qinv, inject_Z. cbn.
  lia.
Qed.

(** C3: the walk goes from the highest band down; every band whose lower
    bound is at or above the threshold is added in full; the first band
    below that, when the threshold is within it, adds
    [Math.round(count * ((bandHigh - threshold + 1) / bandSpan))]; no lower
    band adds anything. The top band ends at 1200. On the bands
    [(601,100), (501,200), (0,9700)] and threshold 550 the result is 202,
    in exact arithmetic and in binary64. In exact arithmetic the rounded
    share is [count * above / span] rounded to the nearest integer, halves
    up. *)
Theorem countAboveScore_walk :
  (forall (F : Type) (N : JSNumber F) (dist : Snapshot) (threshold : Z)
          (above : list Range) (r : Range) (below : list Range)
          (bandHigh : Z),
      ranges = (above ++ r :: below)%list ->
      Forall (fun r' => threshold <= lo r') above ->
      lo r < threshold <= bandHigh ->
      range_hi r = Some bandHigh ->
      countAboveScore dist threshold =
      sumZ (map (range_count dist) above) +
      round (mul (of_Z (range_count dist r))
                 (div (of_Z (bandHigh - threshold + 1))
                      (of_Z (bandHigh - lo r + 1))))) /\
  (forall (F : Type) (N : JSNumber F) (dist : Snapshot) (threshold : Z),
      Forall (fun r => threshold <= lo r) ranges ->
      countAboveScore dist threshold =
      sumZ (map (range_count dist) ranges)) /\
  (forall (F : Type) (N : JSNumber F) (dist : Snapshot) (threshold : Z),
      1200 < threshold -> countAboveScore dist threshold = 0) /\
  map range_hi ranges =
    map Some [1200; 600; 500; 490; 480; 470; 460; 450; 440; 430; 420; 410;
              400; 350; 300] /\
  countAboveScore (F := Q) PoolFixtures.three_bands 550 = 202 /\
  countAboveScore (F := float) PoolFixtures.three_bands 550 = 202 /\
  (forall count above span : Z,
      0 < span ->
      round (mul (of_Z count) (div (of_Z above) (of_Z span)) : Q) =
      (2 * (count * above) + span) / (2 * span)).
Proof.
  split; [| split; [| split; [| split; [| split; [| split]]]]].
  - intros F N dist threshold above r below bandHigh Hsplit Hall [Hlo Hhi] Hr.
    unfold countAboveScore. rewrite Hsplit.
    rewrite (countLoop_full_prefix dist threshold above (r :: below) 0 Hall).
    cbn [countLoop]. rewrite Hr.
    destruct (Z.leb_spec threshold (lo r)) as [Hle | _]; [lia |].
    destruct (Z.leb_spec threshold bandHigh) as [_ | Hgt]; [| lia].
    unfold share. lia.
  - intros F N dist threshold Hall. unfold countAboveScore.
    rewrite <- (app_nil_r ranges) at 1.
    rewrite (countLoop_full_prefix dist threshold ranges [] 0 Hall).
    cbn [countLoop]. lia.
  - intros F N dist threshold Hbig. unfold countAboveScore, ranges.
    cbn [countLoop lo]. 
    destruct (Z.leb_spec threshold 601) as [Hle | _]; [lia |].
    change (range_hi (mkRange "601-1200" 601)) with (Some 1200).
    cbv beta iota zeta.
    destruct (Z.leb_spec threshold 1200) as [Hle | _]; [lia | reflexivity].
  - reflexivity.
  - vm_compute. reflexivity.
  - vm_compute. reflexivity.
  - intros count above span Hspan.
    destruct span as [| p | p]; try lia.
    apply Q_share_exact.
Qed.

(** In binary64 the order of the operations matters on an exact tie: for a
    band of 1285 candidates taken at 7 parts in 10 the exact share is
    899.5, which rounds up to 900, while [1285 * (7 / 10)] is the double
    just below 899.5 and rounds down. Either is a nearest integer. *)
Lemma share_tie_binary64 :
  share (F := Q) 1285 7 10 = 900 /\
  share (F := float) 1285 7 10 = 899 /\
  round (div (mul (of_Z 1285) (of_Z 7)) (of_Z 10) : float) = 900.
Proof. repeat split; vm_compute; reflexivity. Qed.

Lemma band_spans_pos (s : Z) : In s band_spans -> 0 < s.
Proof.
  intros Hs. vm_compute in Hs.
  repeat (destruct Hs as [Hs | Hs]; [subst; lia |]). contradiction.
Qed.

#[global] Instance Q_share_rounding : ShareRounding Q.
Proof.
  split.
  - intros c a a' s Hc Ha Haa' Has Hs. apply band_spans_pos in Hs.
    destruct s as [| p | p]; try lia.
    rewrite !Q_share_exact.
    apply Z.div_le_mono; [lia | nia].
  - intros c s Hc Hs. apply band_spans_pos in Hs.
    destruct s as [| p | p]; try lia.
    rewrite Q_share_exact.
    apply Z.div_small. lia.
  - intros c s Hc Hs. apply band_spans_pos in Hs.
    destruct s as [| p | p]; try lia.
    rewrite Q_share_exact.
    symmetry. apply (Z.div_unique _ _ c (Z.pos p)); lia.
Qed.

(** ** Binary64 *)

(** [Math.round(count * (above / span))] in binary64 is two correctly
    rounded operations followed by a rounding to an integer. The product
    is followed through [SpecFloat]: its rounding is [R53], which is
    monotone, and so is the final [Math.round]; the quotients
    [above / span] of the bands of the table are finitely many and are
    evaluated. Sums and differences of safe integers are exact, which
    gives the end points of the projection steps. *)
Module Binary64Facts.
Import Binary64 Rounding64.

(** The number of bits of a mantissa is its binary logarithm plus 1. *)
Lemma digits2_size (p : positive) : digits2_pos p = Pos.size p.
Proof. induction p; cbn; congruence. Qed.

Lemma digits2_log2 (p : positive) :
  Z.pos (digits2_pos p) = Z.log2 (Z.pos p) + 1.
Proof.
  rewrite digits2_size. destruct p; cbn [Z.log2 Pos.size]; lia.
Qed.

(** Shifting a mantissa right by [k] bits keeps the invariant [shifted]:
    the quotient, the round bit and the sticky bit of [x / 2^k]. *)
Lemma shr_1_fields (m : Z) (r s : bool) :
  0 <= m ->
  shr_1 (Build_shr_record m r s) =
  Build_shr_record (m / 2) (Z.odd m) (r || s).
Proof.
  intros Hm. rewrite <- Z.div2_div.
  destruct m as [| [p | p |] |]; try lia; reflexivity.
Qed.

Lemma shr_1_shifted (x k : Z) (mrs : shr_record) :
  0 <= x -> 0 <= k -> shifted x k mrs -> shifted x (k + 1) (shr_1 mrs).
Proof.
  intros Hx Hk [Hm [Hr Hs]]. destruct mrs as [m r s]. cbn in Hm, Hr, Hs.
  assert (HP : 0 < 2 ^ k) by (apply Z.pow_pos_nonneg; lia).
  assert (Hq : 0 <= x / 2 ^ k) by (apply Z.div_pos; lia).
  rewrite shr_1_fields by lia.
  pose proof (Z.div_mod x (2 ^ k) ltac:(lia)) as Hdm.
  pose proof (Z.mod_pos_bound x (2 ^ k) HP) as Hrem.
  pose proof (Z.div_mod m 2 ltac:(lia)) as Hdm2.
  pose proof (Z.mod_pos_bound m 2 ltac:(lia)) as Hb.
  set (P := 2 ^ k) in *. set (rem := x mod P) in *.
  set (q' := m / 2) in *. set (b := m mod 2) in *.
  assert (Hpow : 2 ^ (k + 1) = 2 * P).
  { subst P. rewrite Z.pow_add_r by lia. lia. }
  assert (Hx' : x = (2 * P) * q' + (b * P + rem)) by nia.
  assert (Hrange : 0 <= b * P + rem < 2 * P) by nia.
  assert (Hdiv : x / (2 * P) = q').
  { symmetry. apply (Z.div_unique_pos x (2 * P) q' (b * P + rem)); lia. }
  assert (Hmod : x mod (2 * P) = b * P + rem).
  { symmetry. apply (Z.mod_unique_pos x (2 * P) q' (b * P + rem)); lia. }
  assert (Hodd : Z.odd m = (b =? 1)).
  { subst b. rewrite Zmod_odd. destruct (Z.odd m); reflexivity. }
  unfold shifted. cbn [shr_m shr_r shr_s]. rewrite Hpow, Hdiv, Hmod, Hodd.
  split; [reflexivity |]. subst r s.
  assert (Hcases : b = 0 \/ b = 1) by lia.
  destruct Hcases as [-> | ->]; cbn [Z.eqb];
    repeat match goal with
           | |- context [?a <=? ?b] => destruct (Z.leb_spec a b)
           | |- context [?a =? ?b] => destruct (Z.eqb_spec a b)
           end; cbn [negb orb]; try lia; split; try reflexivity; try lia.
  all: exfalso; cbn [Z.eqb Pos.eqb] in *; lia.
Qed.

Lemma iter_shr_shifted (n : positive) :
  forall (x k : Z) (mrs : shr_record),
    0 <= x -> 0 <= k -> shifted x k mrs ->
    shifted x (k + Z.pos n) (SpecFloat.iter_pos shr_1 n mrs).
Proof.
  induction n as [n IH | n IH |]; intros x k mrs Hx Hk Hs; cbn [SpecFloat.iter_pos].
  - replace (k + Z.pos n~1) with (k + 1 + Z.pos n + Z.pos n) by lia.
    apply IH; [lia | lia |]. apply IH; [lia | lia |].
    apply shr_1_shifted; assumption.
  - replace (k + Z.pos n~0) with (k + Z.pos n + Z.pos n) by lia.
    apply IH; [lia | lia |]. apply IH; assumption.
  - apply shr_1_shifted; assumption.
Qed.

Lemma shifted_exact (x : Z) : shifted x 0 (Build_shr_record x false false).
Proof.
  unfold shifted. cbn [shr_m shr_r shr_s].
  rewrite Z.pow_0_r, Z.div_1_r, Z.mod_1_r. repeat split.
Qed.

(** Rounding to nearest, ties to even, on the shifted mantissa. *)
Lemma round_shifted (x k : Z) (mrs : shr_record) :
  shifted x k mrs ->
  round_nearest_even (shr_m mrs) (loc_of_shr_record mrs) = rne x k.
Proof.
  intros [Hm [Hr Hs]]. destruct mrs as [m r s]. cbn in Hm, Hr, Hs.
  unfold rne. cbn [shr_m]. subst m.
  destruct r, s; cbn [loc_of_shr_record round_nearest_even];
    symmetry in Hr, Hs;
    repeat match goal with
           | H : (_ <=? _) = true |- _ => apply Z.leb_le in H
           | H : (_ <=? _) = false |- _ => apply Z.leb_gt in H
           | H : negb _ = true |- _ => apply negb_true_iff in H
           | H : negb _ = false |- _ => apply negb_false_iff in H
           | H : (_ =? _) = true |- _ => apply Z.eqb_eq in H
           | H : (_ =? _) = false |- _ => apply Z.eqb_neq in H
           end;
    repeat match goal with
           | |- context [?a <? ?b] => destruct (Z.ltb_spec a b)
           | |- context [?a =? ?b] => destruct (Z.eqb_spec a b)
           end; try lia; try reflexivity.
Qed.

Ltac rne_cases :=
  repeat match goal with
         | |- context [?a <? ?b] => destruct (Z.ltb_spec a b)
         | |- context [?a =? ?b] => destruct (Z.eqb_spec a b)
         | |- context [Z.even ?a] => destruct (Z.even a)
         end.

Lemma rne_bounds (x k : Z) : x / 2 ^ k <= rne x k <= x / 2 ^ k + 1.
Proof. unfold rne. rne_cases; lia. Qed.

Lemma rne_mono (x y k : Z) : 0 <= k -> x <= y -> rne x k <= rne y k.
Proof.
  intros Hk Hxy.
  assert (HP : 0 < 2 ^ k) by (apply Z.pow_pos_nonneg; lia).
  pose proof (Z.div_le_mono x y (2 ^ k) HP Hxy) as Hq.
  destruct (Z.eq_dec (x / 2 ^ k) (y / 2 ^ k)) as [Heq | Hne].
  - pose proof (Z.div_mod x (2 ^ k) ltac:(lia)) as Hx.
    pose proof (Z.div_mod y (2 ^ k) ltac:(lia)) as Hy.
    unfold rne. rewrite <- Heq in *.
    rne_cases; lia.
  - pose proof (rne_bounds x k). pose proof (rne_bounds y k). lia.
Qed.

Lemma rne_exact (m k : Z) : 0 <= k -> rne (m * 2 ^ k) k = m.
Proof.
  intros Hk.
  assert (HP : 0 < 2 ^ k) by (apply Z.pow_pos_nonneg; lia).
  unfold rne. rewrite Z.div_mul, Z.mod_mul by lia.
  rne_cases; lia.
Qed.

Lemma rne_scale (x k j : Z) :
  0 <= k -> 0 <= j -> rne (x * 2 ^ j) (k + j) = rne x k.
Proof.
  intros Hk Hj.
  assert (HP : 0 < 2 ^ k) by (apply Z.pow_pos_nonneg; lia).
  assert (HJ : 0 < 2 ^ j) by (apply Z.pow_pos_nonneg; lia).
  unfold rne. rewrite Z.pow_add_r by lia.
  rewrite Z.div_mul_cancel_r by lia.
  rewrite Zmult_mod_distr_r.
  rne_cases; try reflexivity; nia.
Qed.

Lemma rne_range (v l : Z) :
  52 <= l -> 2 ^ l <= v < 2 ^ (l + 1) ->
  2 ^ 52 <= rne v (l - 52) <= 2 ^ 53.
Proof.
  intros Hl [Hlo Hhi].
  assert (HP : 0 < 2 ^ (l - 52)) by (apply Z.pow_pos_nonneg; lia).
  assert (Hl52 : 2 ^ l = 2 ^ 52 * 2 ^ (l - 52)).
  { rewrite <- Z.pow_add_r by lia. f_equal. lia. }
  assert (Hl53 : 2 ^ (l + 1) = 2 ^ 53 * 2 ^ (l - 52)).
  { rewrite <- Z.pow_add_r by lia. f_equal. lia. }
  pose proof (rne_bounds v (l - 52)) as Hb.
  assert (2 ^ 52 <= v / 2 ^ (l - 52)).
  { apply Z.div_le_lower_bound; lia. }
  assert (v / 2 ^ (l - 52) < 2 ^ 53).
  { apply Z.div_lt_upper_bound; lia. }
  lia.
Qed.

(** Rounding to 53 bits is monotone. *)
Lemma R53_mono (v w : Z) : 2 ^ 52 <= v -> v <= w -> R53 v <= R53 w.
Proof.
  intros Hv Hvw. unfold R53.
  assert (H52 : 0 < 2 ^ 52) by (apply Z.pow_pos_nonneg; lia).
  assert (Hlv : 52 <= Z.log2 v).
  { change 52 with (Z.log2 (2 ^ 52)). apply Z.log2_le_mono. exact Hv. }
  pose proof (Z.log2_le_mono v w Hvw) as Hl.
  pose proof (Z.log2_spec v ltac:(lia)) as Hsv.
  pose proof (Z.log2_spec w ltac:(lia)) as Hsw.
  replace (Z.succ (Z.log2 v)) with (Z.log2 v + 1) in Hsv by lia.
  replace (Z.succ (Z.log2 w)) with (Z.log2 w + 1) in Hsw by lia.
  pose proof (rne_range v (Z.log2 v) Hlv Hsv) as Hrv.
  pose proof (rne_range w (Z.log2 w) ltac:(lia) Hsw) as Hrw.
  destruct (Z.eq_dec (Z.log2 v) (Z.log2 w)) as [Heq | Hne].
  - rewrite <- Heq.
    apply Z.mul_le_mono_nonneg_r.
    + apply Z.pow_nonneg. lia.
    + apply rne_mono; lia.
  - assert (Hstep : 2 ^ 53 * 2 ^ (Z.log2 v - 52) <= 2 ^ 52 * 2 ^ (Z.log2 w - 52)).
    { rewrite <- !Z.pow_add_r by lia. apply Z.pow_le_mono_r; lia. }
    assert (0 < 2 ^ (Z.log2 v - 52)) by (apply Z.pow_pos_nonneg; lia).
    assert (0 < 2 ^ (Z.log2 w - 52)) by (apply Z.pow_pos_nonneg; lia).
    nia.
Qed.

Lemma shr_fexp_exact (m e : Z) :
  0 < m -> 52 <= Z.log2 m -> -1074 <= Z.log2 m + e - 52 ->
  exists mrs,
    shr_fexp prec emax m e loc_Exact = (mrs, e + (Z.log2 m - 52)) /\
    shifted m (Z.log2 m - 52) mrs.
Proof.
  intros Hm Hl He. unfold shr_fexp.
  assert (Hd : Zdigits2 m = Z.log2 m + 1).
  { destruct m as [| p | p]; try lia. cbn [Zdigits2]. apply digits2_log2. }
  assert (Hshift : fexp prec emax (Zdigits2 m + e) - e = Z.log2 m - 52).
  { rewrite Hd. unfold fexp, SpecFloat.emin, prec, emax. lia. }
  rewrite Hshift. cbn [shr_record_of_loc].
  destruct (Z.log2 m - 52) as [| n | n] eqn:Hn; try lia.
  - exists (Build_shr_record m false false). split.
    + cbn [shr]. f_equal. lia.
    + apply shifted_exact.
  - exists (SpecFloat.iter_pos shr_1 n (Build_shr_record m false false)).
    split; [reflexivity |].
    apply (iter_shr_shifted n m 0); [lia | lia | apply shifted_exact].
Qed.

(** The rounding of [P * 2^e] for a mantissa of 54 bits or more, in the
    normal range: the result is finite, normal, and its value is [P]
    rounded to 53 bits. *)
Lemma binary_round_aux_spec (sx : bool) (P : positive) (e : Z) :
  52 <= Z.log2 (Z.pos P) ->
  -1074 <= Z.log2 (Z.pos P) + e - 52 <= 970 ->
  exists m' e',
    binary_round_aux prec emax sx (Z.pos P) e loc_Exact
      = S754_finite sx m' e' /\
    e <= e' /\
    Z.pos m' * 2 ^ (e' - e) = R53 (Z.pos P) /\
    Z.log2 (Z.pos m') = 52.
Proof.
  intros Hl He. set (l := Z.log2 (Z.pos P)) in *.
  destruct (shr_fexp_exact (Z.pos P) e) as [mrs1 [Hs1 Hsh1]];
    [lia | fold l; lia | fold l; lia |].
  fold l in Hs1, Hsh1.
  unfold binary_round_aux. rewrite Hs1.
  rewrite (round_shifted _ _ _ Hsh1).
  pose proof (Z.log2_spec (Z.pos P) ltac:(lia)) as Hspec. fold l in Hspec.
  replace (Z.succ l) with (l + 1) in Hspec by lia.
  pose proof (rne_range (Z.pos P) l ltac:(lia) Hspec) as HM.
  set (M := rne (Z.pos P) (l - 52)) in *.
  assert (H52 : 0 < 2 ^ 52) by (apply Z.pow_pos_nonneg; lia).
  assert (HlM : 52 <= Z.log2 M <= 53).
  { split.
    - change 52 with (Z.log2 (2 ^ 52)). apply Z.log2_le_mono. lia.
    - change 53 with (Z.log2 (2 ^ 53)). apply Z.log2_le_mono. lia. }
  destruct (shr_fexp_exact M (e + (l - 52))) as [mrs2 [Hs2 Hsh2]];
    [lia | lia | lia |].
  rewrite Hs2. destruct Hsh2 as [Hm2 _]. rewrite Hm2.
  assert (Hcase : M < 2 ^ 53 \/ M = 2 ^ 53) by lia.
  destruct Hcase as [Hlt | Heq].
  - assert (HlogM : Z.log2 M = 52).
    { apply Z.log2_unique; [lia |]. change (Z.succ 52) with 53. lia. }
    rewrite HlogM. replace (52 - 52) with 0 by lia.
    rewrite Z.pow_0_r, Z.div_1_r.
    destruct M as [| m' |] eqn:HMeq; try lia.
    destruct (Z.leb_spec (e + (l - 52) + 0) (emax - prec)) as [_ | Hbad];
      [| unfold emax, prec in Hbad; lia].
    exists m', (e + (l - 52) + 0). split; [reflexivity |].
    split; [lia |]. split; [| exact HlogM].
    unfold R53. fold l. fold M. rewrite HMeq. f_equal. f_equal. lia.
  - rewrite Heq. change (Z.log2 (2 ^ 53)) with 53.
    change (2 ^ 53 / 2 ^ (53 - 52)) with (Z.pos (2 ^ 52)).
    destruct (Z.leb_spec (e + (l - 52) + (53 - 52)) (emax - prec))
      as [_ | Hbad]; [| unfold emax, prec in Hbad; lia].
    exists (2 ^ 52)%positive, (e + (l - 52) + (53 - 52)).
    split; [reflexivity |]. split; [lia |]. split; [| reflexivity].
    unfold R53. fold l. fold M. rewrite Heq.
    replace (e + (l - 52) + (53 - 52) - e) with (1 + (l - 52)) by lia.
    rewrite Z.pow_add_r by lia. change (Z.pos (2 ^ 52)) with (2 ^ 52).
    change (2 ^ 53) with (2 ^ 52 * 2 ^ 1). ring.
Qed.

Lemma R53_scale (x j : Z) :
  2 ^ 52 <= x -> 0 <= j -> R53 (x * 2 ^ j) = R53 x * 2 ^ j.
Proof.
  intros Hx Hj. unfold R53.
  assert (H52 : 0 < 2 ^ 52) by (apply Z.pow_pos_nonneg; lia).
  assert (Hl : 52 <= Z.log2 x).
  { change 52 with (Z.log2 (2 ^ 52)). apply Z.log2_le_mono. exact Hx. }
  rewrite Z.log2_mul_pow2 by lia.
  replace (j + Z.log2 x - 52) with (Z.log2 x - 52 + j) by lia.
  rewrite rne_scale by lia. rewrite Z.pow_add_r by lia. ring.
Qed.

Lemma R53_exact (m j : Z) :
  Z.log2 m = 52 -> 0 <= j -> R53 (m * 2 ^ j) = m * 2 ^ j.
Proof.
  intros Hl Hj.
  assert (Hm : 2 ^ 52 <= m).
  { destruct (Z.le_gt_cases m 0) as [Hle | Hgt].
    - rewrite Z.log2_nonpos in Hl by lia. lia.
    - pose proof (Z.log2_spec m Hgt) as Hs. rewrite Hl in Hs. lia. }
  rewrite R53_scale by lia. f_equal.
  unfold R53. rewrite Hl. replace (52 - 52) with 0 by lia.
  rewrite <- (Z.mul_1_r m) at 1. change 1 with (2 ^ 0) at 1.
  rewrite rne_exact by lia. change (2 ^ 0) with 1. lia.
Qed.

Lemma log2_52 (m : Z) : Z.log2 m = 52 -> 2 ^ 52 <= m < 2 ^ 53.
Proof.
  intros Hl.
  destruct (Z.le_gt_cases m 0) as [Hle | Hgt].
  - rewrite Z.log2_nonpos in Hl by lia. lia.
  - pose proof (Z.log2_spec m Hgt) as Hs. rewrite Hl in Hs.
    change (Z.succ 52) with 53 in Hs. exact Hs.
Qed.

(** The product of two normal doubles in the range of the shares. *)
Lemma SFmul_spec (mx m : positive) (ex e : Z) :
  Z.log2 (Z.pos mx) = 52 -> Z.log2 (Z.pos m) = 52 ->
  -52 <= ex <= 0 -> -200 <= e <= -52 ->
  exists m' e',
    SFmul prec emax (S754_finite false mx ex) (S754_finite false m e)
      = S754_finite false m' e' /\
    ex + e <= e' /\
    Z.pos m' * 2 ^ (e' - (ex + e)) = R53 (Z.pos mx * Z.pos m).
Proof.
  intros Hmx Hm Hex He.
  apply log2_52 in Hmx. apply log2_52 in Hm.
  cbn [SFmul xorb].
  assert (Hlo : 2 ^ 104 <= Z.pos (mx * m)).
  { rewrite Pos2Z.inj_mul. change (2 ^ 104) with (2 ^ 52 * 2 ^ 52).
    apply Z.mul_le_mono_nonneg; lia. }
  assert (Hhi : Z.pos (mx * m) < 2 ^ 106).
  { rewrite Pos2Z.inj_mul. change (2 ^ 106) with (2 ^ 53 * 2 ^ 53).
    apply Z.mul_lt_mono_nonneg; lia. }
  assert (Hl : 104 <= Z.log2 (Z.pos (mx * m)) <= 105).
  { split.
    - change 104 with (Z.log2 (2 ^ 104)). apply Z.log2_le_mono. exact Hlo.
    - apply Z.lt_succ_r. apply Z.log2_lt_pow2; [lia | exact Hhi]. }
  destruct (binary_round_aux_spec false (mx * m) (ex + e))
    as [m' [e' [Hr [He' [Hv _]]]]]; [lia | lia |].
  exists m', e'. rewrite Hr. rewrite Pos2Z.inj_mul in Hv. auto.
Qed.

(** [Math.round] of a positive double, on its value scaled by [2^K]. *)
Lemma sf_round_scaled (m : positive) (e K : Z) :
  0 <= K -> - K <= e ->
  sf_round (S754_finite false m e)
  = (2 * (Z.pos m * 2 ^ (e + K)) + 2 ^ K) / 2 ^ (K + 1).
Proof.
  intros HK He. unfold sf_round, signed.
  assert (HPK : 0 < 2 ^ K) by (apply Z.pow_pos_nonneg; lia).
  destruct (Z.leb_spec 0 e) as [Hpos | Hneg].
  - rewrite Z.pow_add_r by lia.
    replace (2 * (Z.pos m * (2 ^ e * 2 ^ K)) + 2 ^ K)
      with (Z.pos m * 2 ^ e * 2 ^ (K + 1) + 2 ^ K)
      by (rewrite (Z.pow_add_r 2 K 1) by lia; change (2 ^ 1) with 2; ring).
    rewrite Z.div_add_l by (apply Z.pow_nonzero; lia).
    rewrite Z.div_small; [lia |].
    split; [lia |]. rewrite Z.pow_add_r by lia. change (2 ^ 1) with 2. lia.
  - assert (HP : 0 < 2 ^ (e + K)) by (apply Z.pow_pos_nonneg; lia).
    replace (2 * (Z.pos m * 2 ^ (e + K)) + 2 ^ K)
      with ((2 * Z.pos m + 2 ^ (- e)) * 2 ^ (e + K)).
    2:{ rewrite Z.mul_add_distr_r. rewrite <- Z.pow_add_r by lia.
        replace (- e + (e + K)) with K by lia. ring. }
    replace (2 ^ (K + 1)) with (2 ^ (1 - e) * 2 ^ (e + K)).
    2:{ rewrite <- Z.pow_add_r by lia. f_equal. lia. }
    rewrite Z.div_mul_cancel_r; [reflexivity | | lia].
    apply Z.pow_nonzero; lia.
Qed.

Lemma iter_xO_pow (p d : positive) :
  Z.pos (Pos.iter xO p d) = Z.pos p * 2 ^ Z.pos d.
Proof.
  induction d as [| d IH] using Pos.peano_ind.
  - cbn [Pos.iter]. rewrite Pos2Z.inj_xO. change (2 ^ 1) with 2. lia.
  - rewrite Pos.iter_succ, Pos2Z.inj_xO, IH, Pos2Z.inj_succ.
    rewrite Z.pow_succ_r by lia. ring.
Qed.

(** A positive safe integer as a double: its mantissa is the integer
    shifted to 53 bits, so the value is the integer itself. *)
Lemma float_of_Z_pos (c : Z) :
  0 < c < 2 ^ 53 ->
  exists mx ex,
    Prim2SF (float_of_Z c) = S754_finite false mx ex /\
    Z.log2 (Z.pos mx) = 52 /\
    -52 <= ex <= 0 /\
    Z.pos mx = c * 2 ^ (- ex).
Proof.
  intros Hc. destruct c as [| p |]; try lia.
  unfold float_of_Z. cbn [binary_normalize]. unfold binary_round.
  assert (Hl : 0 <= Z.log2 (Z.pos p) <= 52).
  { split; [apply Z.log2_nonneg |].
    apply Z.lt_succ_r. apply Z.log2_lt_pow2; lia. }
  assert (Hf : fexp prec emax (Z.pos (digits2_pos p) + 0)
               = Z.log2 (Z.pos p) - 52).
  { rewrite digits2_log2. unfold fexp, SpecFloat.emin, prec, emax. lia. }
  rewrite Hf. unfold shl_align.
  pose proof (Z.log2_spec (Z.pos p) ltac:(lia)) as Hspec.
  destruct (Z.log2 (Z.pos p) - 52 - 0) as [| d | d] eqn:Hd; try lia.
  - assert (Hlog : Z.log2 (Z.pos p) = 52) by lia.
    destruct (binary_round_aux_spec false p 0)
      as [m' [e' [Hr [He' [Hv Hm']]]]]; [lia | lia |].
    assert (Hexact : R53 (Z.pos p) = Z.pos p).
    { rewrite <- (Z.mul_1_r (Z.pos p)). change 1 with (2 ^ 0).
      apply R53_exact; [exact Hlog | lia]. }
    rewrite Hexact in Hv. apply log2_52 in Hm'.
    assert (He0 : e' = 0).
    { destruct (Z.eq_dec e' 0) as [| Hne]; [assumption |].
      assert (2 ^ 1 <= 2 ^ (e' - 0)) by (apply Z.pow_le_mono_r; lia).
      change (2 ^ 1) with 2 in *. rewrite Hlog in Hspec.
      change (Z.succ 52) with 53 in Hspec. nia. }
    subst e'. change (2 ^ (0 - 0)) with 1 in Hv.
    assert (m' = p) by lia. subst m'.
    rewrite Hr.
    rewrite FloatAxioms.Prim2SF_SF2Prim.
    + exists p, 0. repeat split; lia.
    + cbn [SpecFloat.valid_binary]. unfold bounded.
      apply andb_true_intro. split.
      * unfold canonical_mantissa. rewrite digits2_log2, Hlog.
        reflexivity.
      * reflexivity.
  - set (mz := Pos.iter xO p d).
    assert (Hmz : Z.pos mz = Z.pos p * 2 ^ Z.pos d) by apply iter_xO_pow.
    assert (Hlog : Z.log2 (Z.pos mz) = 52).
    { rewrite Hmz, Z.log2_mul_pow2 by lia. lia. }
    destruct (binary_round_aux_spec false mz (Z.log2 (Z.pos p) - 52))
      as [m' [e' [Hr [He' [Hv Hm']]]]]; [lia | lia |].
    assert (Hexact : R53 (Z.pos mz) = Z.pos mz).
    { rewrite <- (Z.mul_1_r (Z.pos mz)). change 1 with (2 ^ 0).
      apply R53_exact; [exact Hlog | lia]. }
    rewrite Hexact in Hv.
    pose proof (log2_52 _ Hm') as Hb'. pose proof (log2_52 _ Hlog) as Hb.
    assert (He0 : e' = Z.log2 (Z.pos p) - 52).
    { destruct (Z.eq_dec e' (Z.log2 (Z.pos p) - 52)) as [| Hne];
        [assumption |].
      assert (2 ^ 1 <= 2 ^ (e' - (Z.log2 (Z.pos p) - 52)))
        by (apply Z.pow_le_mono_r; lia).
      change (2 ^ 1) with 2 in *. nia. }
    rewrite He0 in Hv, Hr. rewrite Z.sub_diag in Hv.
    change (2 ^ 0) with 1 in Hv.
    assert (m' = mz) by lia. subst m'.
    rewrite Hr.
    rewrite FloatAxioms.Prim2SF_SF2Prim.
    + exists mz, (Z.log2 (Z.pos p) - 52). repeat split; try lia.
      rewrite Hmz. f_equal. f_equal. lia.
    + cbn [SpecFloat.valid_binary]. unfold bounded.
      apply andb_true_intro. split.
      * unfold canonical_mantissa. rewrite digits2_log2, Hlog.
        unfold fexp, SpecFloat.emin, prec, emax.
        apply Z.eqb_eq. lia.
      * apply Z.leb_le. unfold emax, prec. lia.
Qed.

(** The quotients of every band width of the table, evaluated. *)
Lemma spans_ok : forallb span_ok band_spans = true.
Proof. vm_compute. reflexivity. Qed.

Lemma span_facts (s : Z) :
  In s band_spans ->
  0 < s /\
  ratio 0 s = S754_zero false /\
  (forall a, 0 <= a < s ->
     ratio_ok (ratio a s) = true /\
     ratio_le (ratio a s) (ratio (a + 1) s) = true) /\
  ratio s s = S754_finite false (2 ^ 52) (-52).
Proof.
  intros Hs.
  pose proof spans_ok as Hall. rewrite forallb_forall in Hall.
  specialize (Hall s Hs). unfold span_ok in Hall.
  apply andb_prop in Hall as [Hall Hone].
  apply andb_prop in Hall as [Hall Hsteps].
  apply andb_prop in Hall as [Hpos Hzero].
  apply Z.ltb_lt in Hpos.
  split; [exact Hpos |]. split; [| split].
  - destruct (ratio 0 s) as [[|] | | |]; try discriminate. reflexivity.
  - intros a Ha. rewrite forallb_forall in Hsteps.
    apply andb_prop. apply Hsteps.
    apply list_elem_of_In, elem_of_seqZ. lia.
  - destruct (ratio s s) as [| | | [|] m e]; try discriminate.
    apply andb_prop in Hone as [Hm He].
    apply Z.eqb_eq in Hm. apply Z.eqb_eq in He.
    f_equal; [| exact He].
    change (2 ^ 52) with (Z.pos (2 ^ 52)) in Hm. congruence.
Qed.

Lemma ratio_le_refl (x : spec_float) : ratio_ok x = true -> ratio_le x x = true.
Proof.
  destruct x as [[|] | | | [|] m e]; cbn; try discriminate; try reflexivity.
  intros _. rewrite Z.eqb_refl, Z.leb_refl. apply orb_true_r.
Qed.

Lemma ratio_le_trans (x y z : spec_float) :
  ratio_le x y = true -> ratio_le y z = true -> ratio_le x z = true.
Proof.
  destruct x as [[|] | | | [|] m1 e1]; cbn [ratio_le];
    try discriminate; try reflexivity.
  destruct y as [[|] | | | [|] m2 e2]; cbn [ratio_le]; try discriminate.
  destruct z as [[|] | | | [|] m3 e3]; cbn [ratio_le]; try discriminate.
  intros H1 H2.
  apply orb_prop in H1. apply orb_prop in H2.
  apply orb_true_iff.
  destruct H1 as [H1 | H1], H2 as [H2 | H2];
    repeat match goal with
           | H : _ && _ = true |- _ => apply andb_prop in H as [? ?]
           | H : (_ <? _) = true |- _ => apply Z.ltb_lt in H
           | H : (_ =? _) = true |- _ => apply Z.eqb_eq in H
           | H : (_ <=? _) = true |- _ => apply Z.leb_le in H
           end.
  - left. apply Z.ltb_lt. lia.
  - left. apply Z.ltb_lt. lia.
  - left. apply Z.ltb_lt. lia.
  - right. apply andb_true_intro. split; [apply Z.eqb_eq | apply Z.leb_le]; lia.
Qed.

Lemma ratio_ok_all (s a : Z) :
  In s band_spans -> 0 <= a <= s -> ratio_ok (ratio a s) = true.
Proof.
  intros Hs Ha. destruct (span_facts s Hs) as [Hpos [_ [Hsteps Hone]]].
  destruct (Z.eq_dec a s) as [-> | Hne].
  - rewrite Hone. reflexivity.
  - apply Hsteps. lia.
Qed.

Lemma ratio_mono (s : Z) (n : nat) :
  In s band_spans ->
  forall a, 0 <= a -> a + Z.of_nat n <= s ->
    ratio_le (ratio a s) (ratio (a + Z.of_nat n) s) = true.
Proof.
  intros Hs. destruct (span_facts s Hs) as [Hpos [_ [Hsteps _]]].
  induction n as [| n IH]; intros a Ha Hle.
  - rewrite Z.add_0_r. apply ratio_le_refl, ratio_ok_all; [exact Hs | lia].
  - apply (ratio_le_trans _ (ratio (a + Z.of_nat n) s)).
    + apply IH; lia.
    + replace (a + Z.of_nat (S n)) with (a + Z.of_nat n + 1) by lia.
      apply Hsteps. lia.
Qed.

Lemma R53_lower (v : Z) : 2 ^ 52 <= v -> 2 ^ 52 <= R53 v.
Proof.
  intros Hv. change (2 ^ 52) with (R53 (2 ^ 52)) at 1.
  apply R53_mono; lia.
Qed.

Lemma share_float (c a s : Z) :
  share (F := float) c a s = share_at c (ratio a s).
Proof.
  unfold share, share_at, ratio. cbn [round mul div of_Z float_number].
  rewrite FloatAxioms.mul_spec. reflexivity.
Qed.

Lemma float_of_Z_0 : Prim2SF (float_of_Z 0) = S754_zero false.
Proof. reflexivity. Qed.

(** The scaled value of a product of a safe integer and a ratio. *)
Lemma share_at_finite (c : Z) (m : positive) (e : Z) :
  0 < c < 2 ^ 53 ->
  Z.log2 (Z.pos m) = 52 -> -200 <= e <= -52 ->
  exists mx ex,
    Z.log2 (Z.pos mx) = 52 /\ -52 <= ex <= 0 /\
    Z.pos mx = c * 2 ^ (- ex) /\
    share_at c (S754_finite false m e)
    = (2 * (R53 (Z.pos mx * (Z.pos m * 2 ^ (e + 200))) * 2 ^ (ex + 200))
       + 2 ^ 400) / 2 ^ 401.
Proof.
  intros Hc Hm He.
  destruct (float_of_Z_pos c Hc) as [mx [ex [Hrep [Hmx [Hex Hval]]]]].
  exists mx, ex. split; [exact Hmx |]. split; [exact Hex |].
  split; [exact Hval |].
  unfold share_at. rewrite Hrep.
  destruct (SFmul_spec mx m ex e Hmx Hm Hex He) as [m' [e' [Hr [He' Hv]]]].
  rewrite Hr. rewrite (sf_round_scaled m' e' 400) by lia.
  change (400 + 1) with 401. f_equal. f_equal. f_equal.
  replace (e' + 400) with ((e' - (ex + e)) + ((e + 200) + (ex + 200))) by lia.
  rewrite !Z.pow_add_r by lia.
  rewrite Z.mul_assoc, Hv.
  pose proof (log2_52 _ Hmx) as Hbx. pose proof (log2_52 _ Hm) as Hbm.
  assert (2 ^ 52 <= Z.pos mx * Z.pos m) by nia.
  rewrite (Z.mul_assoc (Z.pos mx)), R53_scale by lia. ring.
Qed.

Lemma share_at_zero (c : Z) :
  0 <= c < 2 ^ 53 -> share_at c (S754_zero false) = 0.
Proof.
  intros Hc. unfold share_at.
  destruct (Z.eq_dec c 0) as [-> | Hne].
  - rewrite float_of_Z_0. reflexivity.
  - destruct (float_of_Z_pos c ltac:(lia)) as [mx [ex [Hrep _]]].
    rewrite Hrep. reflexivity.
Qed.

Lemma share_at_of_zero (x : spec_float) :
  ratio_ok x = true -> share_at 0 x = 0.
Proof.
  unfold share_at. rewrite float_of_Z_0.
  destruct x as [[|] | | | [|] m e]; cbn; try discriminate; reflexivity.
Qed.

(** The share grows with the ratio. *)
Lemma share_at_le (c : Z) (x y : spec_float) :
  0 <= c < 2 ^ 53 ->
  ratio_ok x = true -> ratio_ok y = true -> ratio_le x y = true ->
  share_at c x <= share_at c y.
Proof.
  intros Hc Hx Hy Hle.
  destruct (Z.eq_dec c 0) as [-> | Hne].
  { rewrite !share_at_of_zero by assumption. lia. }
  assert (Hc' : 0 < c < 2 ^ 53) by lia.
  assert (Hnonneg : forall m e, Z.log2 (Z.pos m) = 52 -> -200 <= e <= -52 ->
            0 <= share_at c (S754_finite false m e)).
  { intros m e Hm He.
    destruct (share_at_finite c m e Hc' Hm He) as [mx [ex [Hmx [Hex [_ ->]]]]].
    apply Z.div_pos; [| lia].
    pose proof (log2_52 _ Hmx). assert (0 < 2 ^ (e + 200)) by (apply Z.pow_pos_nonneg; lia).
    assert (0 < 2 ^ (ex + 200)) by (apply Z.pow_pos_nonneg; lia).
    assert (2 ^ 52 <= R53 (Z.pos mx * (Z.pos m * 2 ^ (e + 200)))).
    { apply R53_lower. pose proof (log2_52 _ Hm). nia. }
    nia. }
  destruct x as [[|] | | | [|] m1 e1]; cbn [ratio_ok] in Hx; try discriminate.
  - rewrite share_at_zero by lia.
    destruct y as [[|] | | | [|] m2 e2]; cbn [ratio_ok] in Hy;
      try discriminate.
    + rewrite share_at_zero by lia. lia.
    + apply andb_prop in Hy as [Hy He2']. apply andb_prop in Hy as [Hm2 He2].
      apply Hnonneg; [apply Z.eqb_eq, Hm2 | lia].
  - destruct y as [[|] | | | [|] m2 e2]; cbn [ratio_ok ratio_le] in Hy, Hle;
      try discriminate.
    apply andb_prop in Hx as [Hx He1']. apply andb_prop in Hx as [Hm1 He1].
    apply andb_prop in Hy as [Hy He2']. apply andb_prop in Hy as [Hm2 He2].
    apply Z.eqb_eq in Hm1, Hm2. apply Z.leb_le in He1, He1', He2, He2'.
    destruct (share_at_finite c m1 e1 Hc' Hm1 ltac:(lia))
      as [mx [ex [Hmx [Hex [Hval ->]]]]].
    destruct (share_at_finite c m2 e2 Hc' Hm2 ltac:(lia))
      as [mx' [ex' [Hmx' [Hex' [Hval' ->]]]]].
    assert (Hsame : ex' = ex /\ mx' = mx).
    { pose proof (log2_52 _ Hmx) as Hb. pose proof (log2_52 _ Hmx') as Hb'.
      assert (ex' = ex).
      { destruct (Z.lt_trichotomy ex ex') as [Hlt | [Heq | Hgt]];
          [| congruence |].
        - assert (2 * 2 ^ (- ex') <= 2 ^ (- ex)).
          { change 2 with (2 ^ 1) at 1. rewrite <- Z.pow_add_r by lia.
            apply Z.pow_le_mono_r; lia. }
          assert (0 < 2 ^ (- ex')) by (apply Z.pow_pos_nonneg; lia).
          nia.
        - assert (2 * 2 ^ (- ex) <= 2 ^ (- ex')).
          { change 2 with (2 ^ 1) at 1. rewrite <- Z.pow_add_r by lia.
            apply Z.pow_le_mono_r; lia. }
          assert (0 < 2 ^ (- ex)) by (apply Z.pow_pos_nonneg; lia).
          nia. }
      subst ex'. split; [reflexivity |]. lia. }
    destruct Hsame as [-> ->].
    apply Z.div_le_mono; [lia |].
    apply Z.add_le_mono_r. apply Z.mul_le_mono_nonneg_l; [lia |].
    apply Z.mul_le_mono_nonneg_r; [apply Z.pow_nonneg; lia |].
    pose proof (log2_52 _ Hmx) as Hbx.
    pose proof (log2_52 _ Hm1) as Hb1. pose proof (log2_52 _ Hm2) as Hb2.
    assert (HP1 : 0 < 2 ^ (e1 + 200)) by (apply Z.pow_pos_nonneg; lia).
    assert (HP2 : 0 < 2 ^ (e2 + 200)) by (apply Z.pow_pos_nonneg; lia).
    assert (Hrho : Z.pos m1 * 2 ^ (e1 + 200) <= Z.pos m2 * 2 ^ (e2 + 200)).
    { apply orb_prop in Hle as [Hlt | Heq].
      - apply Z.ltb_lt in Hlt.
        assert (2 * 2 ^ (e1 + 200) <= 2 ^ (e2 + 200)).
        { change 2 with (2 ^ 1) at 1. rewrite <- Z.pow_add_r by lia.
          apply Z.pow_le_mono_r; lia. }
        change (2 ^ 53) with (2 * 2 ^ 52) in *. nia.
      - apply andb_prop in Heq as [Heq Hm]. apply Z.eqb_eq in Heq.
        apply Z.leb_le in Hm. subst e2. nia. }
    apply R53_mono; nia.
Qed.

Lemma share_at_one (c : Z) :
  0 <= c < 2 ^ 53 -> share_at c (S754_finite false (2 ^ 52) (-52)) = c.
Proof.
  intros Hc.
  destruct (Z.eq_dec c 0) as [-> | Hne].
  { apply share_at_of_zero. reflexivity. }
  destruct (share_at_finite c (2 ^ 52) (-52) ltac:(lia) eq_refl ltac:(lia))
    as [mx [ex [Hmx [Hex [Hval ->]]]]].
  change (Z.pos (2 ^ 52)) with (2 ^ 52).
  rewrite <- Z.pow_add_r by lia.
  rewrite R53_exact by (assumption || lia).
  rewrite Hval.
  replace (c * 2 ^ (- ex) * 2 ^ (52 + (-52 + 200)) * 2 ^ (ex + 200))
    with (c * (2 ^ (- ex) * 2 ^ (ex + 200)) * 2 ^ 200)
    by (replace (52 + (-52 + 200)) with 200 by lia; ring).
  rewrite <- Z.pow_add_r by lia.
  replace (- ex + (ex + 200)) with 200 by lia.
  replace (2 * (c * 2 ^ 200 * 2 ^ 200) + 2 ^ 400) with (c * 2 ^ 401 + 2 ^ 400).
  2:{ change (2 ^ 401) with (2 * (2 ^ 200 * 2 ^ 200)).
      change (2 ^ 400) with (2 ^ 200 * 2 ^ 200). ring. }
  rewrite Z.div_add_l by (apply Z.pow_nonzero; lia).
  rewrite Z.div_small; [lia |].
  split; [apply Z.pow_nonneg; lia |]. apply Z.pow_lt_mono_r; lia.
Qed.

(** The laws of the share hold of binary64. *)
#[global] Instance float_share_rounding : ShareRounding float.
Proof.
  split.
  - intros c a a' s Hc Ha Haa' Has Hs. rewrite !share_float.
    apply share_at_le; [exact Hc | | |].
    + apply ratio_ok_all; [exact Hs | lia].
    + apply ratio_ok_all; [exact Hs | lia].
    + replace a' with (a + Z.of_nat (Z.to_nat (a' - a))) by lia.
      apply ratio_mono; [exact Hs | lia | lia].
  - intros c s Hc Hs. rewrite share_float.
    destruct (span_facts s Hs) as [_ [Hzero _]]. rewrite Hzero.
    apply share_at_zero, Hc.
  - intros c s Hc Hs. rewrite share_float.
    destruct (span_facts s Hs) as [_ [_ [_ Hone]]]. rewrite Hone.
    apply share_at_one, Hc.
Qed.

(** *** Sums and differences of safe integers *)

Lemma normal_unique (a b i j : Z) :
  Z.log2 a = 52 -> Z.log2 b = 52 -> 0 <= i -> 0 <= j ->
  a * 2 ^ i = b * 2 ^ j -> i = j /\ a = b.
Proof.
  intros Ha Hb Hi Hj Heq.
  apply log2_52 in Ha. apply log2_52 in Hb.
  assert (HPi : 0 < 2 ^ i) by (apply Z.pow_pos_nonneg; lia).
  assert (HPj : 0 < 2 ^ j) by (apply Z.pow_pos_nonneg; lia).
  assert (Hij : i = j).
  { destruct (Z.lt_trichotomy i j) as [Hlt | [Heq' | Hgt]]; [| assumption |].
    - assert (2 * 2 ^ i <= 2 ^ j).
      { change 2 with (2 ^ 1) at 1. rewrite <- Z.pow_add_r by lia.
        apply Z.pow_le_mono_r; lia. }
      change (2 ^ 53) with (2 * 2 ^ 52) in *. nia.
    - assert (2 * 2 ^ j <= 2 ^ i).
      { change 2 with (2 ^ 1) at 1. rewrite <- Z.pow_add_r by lia.
        apply Z.pow_le_mono_r; lia. }
      change (2 ^ 53) with (2 * 2 ^ 52) in *. nia. }
  split; [exact Hij |]. subst j. nia.
Qed.

(** A mantissa of 53 bits or more whose value is a double is rounded to
    that double. *)
Lemma binary_round_aux_exact (sx : bool) (p M : positive) (e E : Z) :
  Z.log2 (Z.pos M) = 52 -> -1074 <= E <= 970 -> e <= E ->
  Z.pos p = Z.pos M * 2 ^ (E - e) ->
  binary_round_aux prec emax sx (Z.pos p) e loc_Exact = S754_finite sx M E.
Proof.
  intros HM HE He Hp.
  assert (Hlog : Z.log2 (Z.pos p) = 52 + (E - e)).
  { rewrite Hp, Z.log2_mul_pow2 by lia. lia. }
  destruct (binary_round_aux_spec sx p e) as [m' [e' [Hr [He' [Hv Hm']]]]];
    [lia | lia |].
  rewrite Hr. rewrite Hp in Hv. rewrite R53_exact in Hv by (assumption || lia).
  destruct (normal_unique (Z.pos m') (Z.pos M) (e' - e) (E - e))
    as [Hex Hmx]; try assumption; try lia.
  f_equal; [congruence | lia].
Qed.

Lemma binary_round_exact (sx : bool) (p M : positive) (e E : Z) :
  Z.log2 (Z.pos M) = 52 -> -1074 <= E <= 970 ->
  (E <= e -> Z.pos M = Z.pos p * 2 ^ (e - E)) ->
  (e <= E -> Z.pos p = Z.pos M * 2 ^ (E - e)) ->
  binary_round prec emax sx p e = S754_finite sx M E.
Proof.
  intros HM HE Hdown Hup. unfold binary_round.
  assert (Hf : fexp prec emax (Z.pos (digits2_pos p) + e) = E).
  { rewrite digits2_log2.
    assert (Z.log2 (Z.pos p) + e = 52 + E).
    { destruct (Z.le_gt_cases E e) as [Hle | Hgt].
      - specialize (Hdown Hle).
        rewrite Hdown, Z.log2_mul_pow2 in HM by lia. lia.
      - specialize (Hup ltac:(lia)).
        rewrite Hup, Z.log2_mul_pow2 by lia. lia. }
    unfold fexp, SpecFloat.emin, prec, emax. lia. }
  rewrite Hf. unfold shl_align.
  destruct (E - e) as [| d | d] eqn:Hd;
    [| pose proof (Pos2Z.is_pos d) | pose proof (Pos2Z.neg_is_neg d)].
  - apply binary_round_aux_exact with (E := E); try assumption; [lia |].
    rewrite Hd. apply Hup. lia.
  - apply binary_round_aux_exact with (E := E); try assumption; [lia |].
    rewrite Hd. apply Hup. lia.
  - apply binary_round_aux_exact with (E := E); try assumption; [lia |].
    rewrite Z.sub_diag, iter_xO_pow.
    rewrite Hdown by lia. change (2 ^ 0) with 1.
    replace (e - E) with (Z.pos d) by lia. ring.
Qed.

Lemma exact_double_pos (z : Z) :
  0 < z < 2 ^ 53 ->
  exists M E,
    exact_double z = S754_finite false M E /\
    Z.log2 (Z.pos M) = 52 /\ -52 <= E <= 0 /\ Z.pos M = z * 2 ^ (- E).
Proof.
  intros Hz. destruct z as [| p |]; try lia.
  assert (Hl : 0 <= Z.log2 (Z.pos p) <= 52).
  { split; [apply Z.log2_nonneg |].
    apply Z.lt_succ_r. apply Z.log2_lt_pow2; lia. }
  assert (HP : 0 < 2 ^ (52 - Z.log2 (Z.pos p)))
    by (apply Z.pow_pos_nonneg; lia).
  exists (Z.to_pos (Z.pos p * 2 ^ (52 - Z.log2 (Z.pos p)))),
         (Z.log2 (Z.pos p) - 52).
  split; [reflexivity |].
  rewrite Z2Pos.id by nia.
  split; [rewrite Z.log2_mul_pow2 by lia; lia |].
  split; [lia |]. f_equal. f_equal. lia.
Qed.

Lemma exact_double_of_Z (z : Z) :
  0 <= z < 2 ^ 53 -> Prim2SF (float_of_Z z) = exact_double z.
Proof.
  intros Hz. destruct (Z.eq_dec z 0) as [-> | Hne]; [reflexivity |].
  destruct (float_of_Z_pos z ltac:(lia)) as [mx [ex [Hrep [Hmx [Hex Hval]]]]].
  destruct (exact_double_pos z ltac:(lia)) as [M [E [HED [HM [HE HvalM]]]]].
  rewrite Hrep, HED.
  assert (Hex' : ex = Z.log2 z - 52).
  { rewrite Hval, Z.log2_mul_pow2 in Hmx by lia. lia. }
  assert (HE' : E = Z.log2 z - 52).
  { rewrite HvalM, Z.log2_mul_pow2 in HM by lia. lia. }
  f_equal; [| lia].
  assert (Z.pos mx = Z.pos M) by (rewrite Hval, HvalM; f_equal; f_equal; lia).
  congruence.
Qed.

Lemma normalize_exact (p : positive) (e z : Z) :
  0 < z < 2 ^ 53 -> -52 <= e <= 0 -> Z.pos p = z * 2 ^ (- e) ->
  binary_round prec emax false p e = exact_double z.
Proof.
  intros Hz He Hp.
  destruct (exact_double_pos z Hz) as [M [E [-> [HM [HE HvalM]]]]].
  apply binary_round_exact; [exact HM | lia | |].
  - intros Hle. rewrite HvalM, Hp, <- Z.mul_assoc, <- Z.pow_add_r by lia.
    f_equal. f_equal. lia.
  - intros Hle. rewrite HvalM, Hp, <- Z.mul_assoc, <- Z.pow_add_r by lia.
    f_equal. f_equal. lia.
Qed.

Lemma shl_align_fst (m : positive) (e ez : Z) :
  ez <= e -> Z.pos (fst (shl_align m e ez)) = Z.pos m * 2 ^ (e - ez).
Proof.
  intros Hle. unfold shl_align.
  destruct (ez - e) as [| d | d] eqn:Hd;
    [| pose proof (Pos2Z.is_pos d) | pose proof (Pos2Z.neg_is_neg d)];
    cbn [fst]; try lia.
  - replace (e - ez) with 0 by lia. change (2 ^ 0) with 1. lia.
  - rewrite iter_xO_pow. f_equal. f_equal. lia.
Qed.

Lemma aligned_value (z : Z) (M : positive) (E ez : Z) :
  Z.pos M = z * 2 ^ (- E) -> ez <= E -> E <= 0 ->
  Z.pos (fst (shl_align M E ez)) = z * 2 ^ (- ez).
Proof.
  intros HM Hle HE. rewrite shl_align_fst by lia.
  rewrite HM, <- Z.mul_assoc, <- Z.pow_add_r by lia.
  f_equal. f_equal. lia.
Qed.

Lemma SFsub_exact (a b : Z) :
  0 <= a -> a <= b -> b < 2 ^ 53 ->
  SFsub prec emax (exact_double b) (exact_double a) = exact_double (b - a).
Proof.
  intros Ha Hab Hb.
  destruct (Z.eq_dec a 0) as [-> | Hane].
  { rewrite Z.sub_0_r. destruct b as [| p |]; try lia; reflexivity. }
  destruct (exact_double_pos a ltac:(lia)) as [Ma [Ea [HDa [HMa [HEa Hva]]]]].
  destruct (exact_double_pos b ltac:(lia)) as [Mb [Eb [HDb [HMb [HEb Hvb]]]]].
  rewrite HDa, HDb. cbn [SFsub cond_Zopp].
  set (ez := Z.min Eb Ea).
  rewrite (aligned_value b Mb Eb ez Hvb) by lia.
  rewrite (aligned_value a Ma Ea ez Hva) by lia.
  assert (HP : 0 < 2 ^ (- ez)) by (apply Z.pow_pos_nonneg; lia).
  replace (b * 2 ^ (- ez) - a * 2 ^ (- ez)) with ((b - a) * 2 ^ (- ez)) by ring.
  destruct (Z.eq_dec a b) as [-> | Hne].
  { rewrite Z.sub_diag. reflexivity. }
  destruct ((b - a) * 2 ^ (- ez)) as [| p |] eqn:Hp; try nia.
  cbn [binary_normalize].
  apply normalize_exact; [lia | lia | lia].
Qed.

Lemma SFadd_exact (a d : Z) :
  0 <= a -> 0 <= d -> a + d < 2 ^ 53 ->
  SFadd prec emax (exact_double a) (exact_double d) = exact_double (a + d).
Proof.
  intros Ha Hd Hsum.
  destruct (Z.eq_dec a 0) as [-> | Hane].
  { rewrite Z.add_0_l. destruct d as [| p |]; try lia; reflexivity. }
  destruct (Z.eq_dec d 0) as [-> | Hdne].
  { rewrite Z.add_0_r. destruct a as [| p |]; try lia; reflexivity. }
  destruct (exact_double_pos a ltac:(lia)) as [Ma [Ea [HDa [HMa [HEa Hva]]]]].
  destruct (exact_double_pos d ltac:(lia)) as [Md [Ed [HDd [HMd [HEd Hvd]]]]].
  rewrite HDa, HDd. cbn [SFadd cond_Zopp].
  set (ez := Z.min Ea Ed).
  rewrite (aligned_value a Ma Ea ez Hva) by lia.
  rewrite (aligned_value d Md Ed ez Hvd) by lia.
  assert (HP : 0 < 2 ^ (- ez)) by (apply Z.pow_pos_nonneg; lia).
  replace (a * 2 ^ (- ez) + d * 2 ^ (- ez)) with ((a + d) * 2 ^ (- ez)) by ring.
  destruct ((a + d) * 2 ^ (- ez)) as [| p |] eqn:Hp; try nia.
  cbn [binary_normalize].
  apply normalize_exact; [lia | lia | lia].
Qed.

Lemma SFmul_one (z : Z) :
  0 <= z < 2 ^ 53 ->
  SFmul prec emax (exact_double z) (S754_finite false (2 ^ 52) (-52))
  = exact_double z.
Proof.
  intros Hz. destruct (Z.eq_dec z 0) as [-> | Hne]; [reflexivity |].
  destruct (exact_double_pos z ltac:(lia)) as [M [E [-> [HM [HE Hv]]]]].
  cbn [SFmul xorb].
  apply binary_round_aux_exact; [exact HM | lia | lia |].
  rewrite Pos2Z.inj_mul. f_equal.
  replace (E - (E + -52)) with 52 by lia. reflexivity.
Qed.

Lemma SFmul_zero (z : Z) :
  SFmul prec emax (exact_double z) (S754_zero false) = S754_zero false.
Proof. destruct z; reflexivity. Qed.

Lemma SFadd_zero (z : Z) :
  SFadd prec emax (exact_double z) (S754_zero false) = exact_double z.
Proof. destruct z; reflexivity. Qed.

(** In binary64 the steps start at the first time value and end at the
    last, exactly, for safe integer time values. *)
Lemma step_time_ends_binary64 (startT endT : Z) :
  0 <= startT -> startT <= endT -> endT < 2 ^ 53 ->
  step_time (F := float) startT endT 0 40 = of_Z startT /\
  step_time (F := float) startT endT 40 40 = of_Z endT.
Proof.
  intros Hs Hse He. unfold step_time.
  cbn [add sub mul div of_Z float_number].
  split; apply FloatAxioms.Prim2SF_inj;
    rewrite FloatAxioms.add_spec, FloatAxioms.mul_spec, FloatAxioms.sub_spec;
    unfold FloatAxioms.SF64add, FloatAxioms.SF64mul, FloatAxioms.SF64sub;
    rewrite !exact_double_of_Z by lia;
    rewrite SFsub_exact by lia.
  - change (Prim2SF (PrimFloat.div (float_of_Z 0) (float_of_Z 40)))
      with (S754_zero false).
    rewrite SFmul_zero. apply SFadd_zero.
  - change (Prim2SF (PrimFloat.div (float_of_Z 40) (float_of_Z 40)))
      with (S754_finite false (2 ^ 52) (-52)).
    rewrite SFmul_one by lia. rewrite SFadd_exact by lia.
    f_equal. lia.
Qed.

Lemma trunc_of_Z (z : Z) :
  0 <= z < 2 ^ 53 -> trunc (of_Z (F := float) z) = z.
Proof.
  intros Hz. cbn [trunc of_Z float_number].
  rewrite exact_double_of_Z by lia.
  destruct (Z.eq_dec z 0) as [-> | Hne]; [reflexivity |].
  destruct (exact_double_pos z ltac:(lia)) as [M [E [-> [HM [HE Hv]]]]].
  unfold sf_trunc, signed.
  destruct (Z.leb_spec 0 E) as [Hpos | Hneg].
  - replace E with 0 in * by lia. change (2 ^ (- 0)) with 1 in Hv.
    change (2 ^ 0) with 1. lia.
  - rewrite Hv. apply Z.quot_mul. apply Z.pow_nonzero; lia.
Qed.

End Binary64Facts.

Section Monotone.
Context {F : Type} `{ShareRounding F}.

Lemma share_bounds (c a s : Z) :
  0 <= c < 2 ^ 53 -> 0 <= a <= s -> In s band_spans ->
  0 <= share c a s <= c.
Proof.
  intros Hc Ha Hs. split.
  - rewrite <- (share_none c s Hc Hs). apply share_mono; (lia || exact Hs).
  - rewrite <- (share_all c s Hc Hs) at 2.
    apply share_mono; (lia || exact Hs).
Qed.



End Monotone.

Ltac in_spans := vm_compute; repeat (first [left; reflexivity | right]).






(** ** Facts about the stable sort *)

Section SortFacts.
Context {A : Type} (k : A -> Z).

Lemma insert_by_perm (a : A) (l : list A) : insert_by k a l ≡ₚ a :: l.
Proof.
  induction l as [| b l IH]; cbn [insert_by]; [reflexivity |].
  destruct (k a <=? k b); [reflexivity |].
  rewrite IH. apply Permutation_swap.
Qed.

Lemma sort_by_perm (l : list A) : sort_by k l ≡ₚ l.
Proof.
  induction l as [| a l IH]; [reflexivity |].
  unfold sort_by in *. cbn [foldr].
  rewrite insert_by_perm, IH. reflexivity.
Qed.

Lemma sort_by_length (l : list A) : length (sort_by k l) = length l.
Proof. apply Permutation_length, sort_by_perm. Qed.

Lemma insert_by_sorted (a : A) (l : list A) :
  StronglySorted (by_key k) l -> StronglySorted (by_key k) (insert_by k a l).
Proof.
  induction 1 as [| b l Hl IH Hb]; cbn [insert_by].
  - repeat constructor.
  - destruct (Z.leb_spec (k a) (k b)) as [Hab | Hba].
    + constructor; [constructor; assumption |].
      constructor; [exact Hab |].
      eapply Forall_impl; [exact Hb |].
      unfold by_key. intros c Hc. lia.
    + constructor; [exact IH |].
      rewrite insert_by_perm. constructor; [unfold by_key; lia | exact Hb].
Qed.

Lemma sort_by_sorted (l : list A) : StronglySorted (by_key k) (sort_by k l).
Proof.
  induction l as [| a l IH]; [constructor |].
  apply insert_by_sorted, IH.
Qed.

(** Equal keys keep their input order. *)
Lemma insert_by_stable (c : Z) (a : A) (l : list A) :
  Forall (fun b => k b = c -> k a <= k b) l ->
  List.filter (fun b => k b =? c) (insert_by k a l) =
  List.filter (fun b => k b =? c) (a :: l).
Proof.
  induction 1 as [| b l Hb _ IH]; cbn [insert_by]; [reflexivity |].
  destruct (Z.leb_spec (k a) (k b)) as [_ | Hba]; [reflexivity |].
  cbn [List.filter] in *. rewrite IH.
  destruct (Z.eqb_spec (k b) c) as [Hbc | _]; [| reflexivity].
  specialize (Hb Hbc). lia.
Qed.

Lemma insert_by_other (c : Z) (a : A) (l : list A) :
  k a <> c ->
  List.filter (fun b => k b =? c) (insert_by k a l) =
  List.filter (fun b => k b =? c) l.
Proof.
  intros Hne. induction l as [| b l IH]; cbn [insert_by List.filter].
  - destruct (Z.eqb_spec (k a) c); [contradiction | reflexivity].
  - destruct (k a <=? k b); cbn [List.filter]; [| rewrite IH; reflexivity].
    destruct (Z.eqb_spec (k a) c); [contradiction | reflexivity].
Qed.

Lemma sort_by_stable (c : Z) (l : list A) :
  List.filter (fun b => k b =? c) (sort_by k l) =
  List.filter (fun b => k b =? c) l.
Proof.
  induction l as [| a l IH]; [reflexivity |].
  change (sort_by k (a :: l)) with (insert_by k a (sort_by k l)).
  destruct (Z.eq_dec (k a) c) as [Hac | Hne].
  - rewrite insert_by_stable.
    + cbn [List.filter]. rewrite IH. reflexivity.
    + apply Forall_forall. intros b _ Hb. lia.
  - rewrite insert_by_other by exact Hne.
    cbn [List.filter]. rewrite IH.
    destruct (Z.eqb_spec (k a) c); [contradiction | reflexivity].
Qed.

Lemma sort_by_id (l : list A) : StronglySorted (by_key k) l -> sort_by k l = l.
Proof.
  induction 1 as [| a l _ IH Ha]; [reflexivity |].
  change (sort_by k (a :: l)) with (insert_by k a (sort_by k l)).
  rewrite IH. destruct Ha as [| b l Hab _]; cbn [insert_by]; [reflexivity |].
  destruct (Z.leb_spec (k a) (k b)); [reflexivity | unfold by_key in Hab; lia].
Qed.

End SortFacts.

(** ** The projection builder *)

Section ProjectionFacts.
Context {F : Type} `{JSNumber F} `{JSDate}.

Lemma sort_points_length (filtered : list Point.t) :
  length (sort_points filtered) = length filtered.
Proof. apply sort_by_length. Qed.

Lemma head_is_Some {A : Type} (l : list A) :
  (0 < length l)%nat -> exists a, head l = Some a.
Proof. destruct l as [| a l]; cbn; [lia | eauto]. Qed.

Lemma last_is_Some {A : Type} (l : list A) :
  (0 < length l)%nat -> exists a, last l = Some a.
Proof.
  intros Hl. destruct (last l) as [a |] eqn:Hlast; [eauto |].
  apply last_None in Hlast. subst l. cbn in Hl. lia.
Qed.

Lemma lookup_map_seqZ {B : Type} (f : Z -> B) (m len i : Z) :
  0 <= i < len -> map f (seqZ m len) !! Z.to_nat i = Some (f (m + i)).
Proof.
  intros Hi. change (map f (seqZ m len)) with (f <$> seqZ m len).
  rewrite list_lookup_fmap, lookup_seqZ_lt by lia.
  cbn. f_equal. f_equal. lia.
Qed.

End ProjectionFacts.

(** In exact arithmetic the steps start at the first time and end at the
    last. *)
Lemma step_time_ends_exact (startT endT steps : Z) :
  steps <> 0 ->
  (step_time (F := Q) startT endT 0 steps == inject_Z startT)%Q /\
  (step_time (F := Q) startT endT steps steps == inject_Z endT)%Q.
Proof.
  intros Hsteps. unfold step_time.
  cbn [add sub mul div of_Z ExactNumber.Q_number].
  assert (Hq : ~ (inject_Z steps == 0)%Q).
  { unfold Qeq. cbn. lia. }
  split; rewrite !Qred_correct; field; exact Hq.
Qed.

(** C7, as the script has it: a regression projection is made only when
    there are at least 3 points and the selected fit yields a model. It
    then holds the 41 points of 40 even steps from the first observed date
    to 6 months past the last one; the point at step [i] is taken at the
    time value [t = firstT + (projEndT - firstT) * (i / 40)], is dated by
    the day of [t], is tagged a forecast exactly when [t > lastT], the
    time value of the last observed date, and a trend otherwise (so a
    point that falls later on the last observed day is a forecast), and
    has the value [Math.max(0, Math.round(reg.eval(t)))]. With fewer than
    3 points, or when the fit yields no model, nothing is returned. A
    sorted series is used as it is. The linear and polynomial modes of
    the builder are this projection with the linear and the quadratic
    fit. Step 0 is at the first observed time and step 40 at the end
    time, exactly: in exact arithmetic, and in binary64 for time values
    that are safe integers not before 1970. *)
Theorem regressionProjection_points
    {F : Type} `{JSNumber F} `{JSDate}
    (filtered : list Point.t) (dsLabel dsColor : string)
    (regFn : list (Pt F) -> option (Model F))
    (dashPattern : list Z) (suffix : string) :
  let sorted := sort_points filtered in
  let result :=
    regressionProjection filtered dsLabel dsColor regFn dashPattern suffix in
  ((length filtered < 3)%nat -> result = None) /\
  (regFn (map to_pt sorted) = None -> result = None) /\
  ((3 <= length filtered)%nat ->
     exists first final, head sorted = Some first /\ last sorted = Some final) /\
  (StronglySorted (by_key (fun d => getTime (Point.x d))) filtered ->
     sorted = filtered) /\
  (forall reg first final,
     (3 <= length filtered)%nat ->
     regFn (map to_pt sorted) = Some reg ->
     head sorted = Some first ->
     last sorted = Some final ->
     let firstT := getTime (Point.x first) in
     let lastT := getTime (Point.x final) in
     let projEndT := addMonths lastT 6 in
     exists proj,
       result = Some proj /\
       length (Dataset.data proj) = 41%nat /\
       forall i, 0 <= i <= 40 ->
         let t := step_time firstT projEndT i 40 in
         Dataset.data proj !! Z.to_nat i =
         Some (Point.mk (isoDate (trunc t))
                 (Z.max 0 (round (eval_model reg t)))
                 None
                 (dsLabel ++ " (" ++ suffix ++
                    (if ltb (of_Z lastT) t then " forecast" else " trend")
                    ++ ")")
                 0 true (Some suffix))) /\
  (forall env ds,
     (3 <= length filtered)%nat ->
     (projectionMode env = "linear" ->
        projectionOf env ds filtered =
        regressionProjection filtered (Dataset.label ds)
          (Dataset.borderColor ds) linearRegression [6; 4] "linear") /\
     (projectionMode env = "poly" ->
        projectionOf env ds filtered =
        regressionProjection filtered (Dataset.label ds)
          (Dataset.borderColor ds) polyRegression [8; 3; 2; 3] "polynomial")) /\
  (forall firstT projEndT i,
     step_time firstT projEndT i 40 =
     add (of_Z firstT)
         (mul (sub (of_Z projEndT) (of_Z firstT)) (div (of_Z i) (of_Z 40)))) /\
  (forall firstT projEndT,
     (step_time (F := Q) firstT projEndT 0 40 == inject_Z firstT)%Q /\
     (step_time (F := Q) firstT projEndT 40 40 == inject_Z projEndT)%Q) /\
  (forall firstT projEndT,
     0 <= firstT -> firstT <= projEndT -> projEndT < 2 ^ 53 ->
     step_time (F := float) firstT projEndT 0 40 = of_Z firstT /\
     step_time (F := float) firstT projEndT 40 40 = of_Z projEndT /\
     trunc (step_time (F := float) firstT projEndT 0 40) = firstT /\
     trunc (step_time (F := float) firstT projEndT 40 40) = projEndT).
Proof.
  intros sorted result. subst result.
  split; [| split; [| split; [| split; [| split; [| split; [| split;
    [| split]]]]]]].
  - intros Hlt. unfold regressionProjection.
    destruct (Nat.ltb_spec (length filtered) 3); [reflexivity | lia].
  - intros Hnone. unfold regressionProjection. fold sorted. rewrite Hnone.
    destruct (length filtered <? 3)%nat; reflexivity.
  - intros Hge.
    assert (Hlen : (0 < length sorted)%nat).
    { subst sorted. rewrite sort_points_length. lia. }
    destruct (head_is_Some sorted Hlen) as [first Hfirst].
    destruct (last_is_Some sorted Hlen) as [final Hfinal].
    eauto.
  - intros Hsorted. subst sorted. unfold sort_points.
    apply sort_by_id, Hsorted.
  - intros reg first final Hge Hreg Hfirst Hfinal. cbv zeta.
    unfold regressionProjection. fold sorted.
    destruct (Nat.ltb_spec (length filtered) 3) as [Hlt | _]; [lia |].
    rewrite Hreg, Hfirst, Hfinal.
    eexists. split; [reflexivity |].
    cbn [Dataset.data]. split.
    + rewrite length_map, length_seqZ. reflexivity.
    + intros i Hi.
      rewrite lookup_map_seqZ by lia. reflexivity.
  - intros env ds Hge. unfold projectionOf.
    destruct (Nat.ltb_spec (length filtered) 3) as [Hlt | _]; [lia |].
    split; intros Hmode; rewrite Hmode; reflexivity.
  - reflexivity.
  - intros firstT projEndT. apply step_time_ends_exact. lia.
  - intros firstT projEndT Hepoch Hle Hsafe.
    destruct (Binary64Facts.step_time_ends_binary64 firstT projEndT
                Hepoch Hle Hsafe) as [Hfirst Hlast].
    rewrite Hfirst, Hlast.
    repeat split; try reflexivity; apply Binary64Facts.trunc_of_Z; lia.
Qed.

(** C7 as stated fails in two ways, in binary64 and in exact arithmetic.
    The three rounds of 27 January 2026 are a sorted series of 3 points
    for which the fit yields no model (its determinant is computed as 0),
    and the builder returns nothing, in linear and in polynomial mode.
    And on the series from 31 December 2023 to 1 March 2024 step 10 is
    taken 6 hours into 1 March 2024: the point is dated 2024-03-01, which
    is the last observed date and not after it, and it is tagged a
    forecast. *)
Lemma regressionProjection_as_stated_fails :
  ((3 <= length SeriesFixtures.same_day)%nat /\
   sort_points SeriesFixtures.same_day = SeriesFixtures.same_day /\
   regressionProjection (F := float) SeriesFixtures.same_day
     "General" "#2563eb" linearRegression [6; 4] "linear" = None /\
   regressionProjection (F := float) SeriesFixtures.same_day
     "General" "#2563eb" polyRegression [8; 3; 2; 3] "polynomial" = None /\
   regressionProjection (F := Q) SeriesFixtures.same_day
     "General" "#2563eb" linearRegression [6; 4] "linear" = None /\
   regressionProjection (F := Q) SeriesFixtures.same_day
     "General" "#2563eb" polyRegression [8; 3; 2; 3] "polynomial" = None) /\
  ((3 <= length SeriesFixtures.winter_series)%nat /\
   sort_points SeriesFixtures.winter_series = SeriesFixtures.winter_series /\
   Point.x <$> last SeriesFixtures.winter_series = Some "2024-03-01" /\
   (fun proj =>
      (fun p => (Point.x p, Point.roundType p)) <$>
      Dataset.data proj !! 10%nat) <$>
   regressionProjection (F := float) SeriesFixtures.winter_series
     "General" "#2563eb" linearRegression [6; 4] "linear"
   = Some (Some ("2024-03-01", "General (linear forecast)")) /\
   (fun proj =>
      (fun p => (Point.x p, Point.roundType p)) <$>
      Dataset.data proj !! 10%nat) <$>
   regressionProjection (F := float) SeriesFixtures.winter_series
     "General" "#2563eb" polyRegression [8; 3; 2; 3] "polynomial"
   = Some (Some ("2024-03-01", "General (polynomial forecast)")) /\
   (fun proj =>
      (fun p => (Point.x p, Point.roundType p)) <$>
      Dataset.data proj !! 10%nat) <$>
   regressionProjection (F := Q) SeriesFixtures.winter_series
     "General" "#2563eb" linearRegression [6; 4] "linear"
   = Some (Some ("2024-03-01", "General (linear forecast)")) /\
   trunc (step_time (F := float) (getTime "2023-12-31")
            (addMonths (getTime "2024-03-01") 6) 10 40)
   = getTime "2024-03-01" + 6 * 60 * 60 * 1000).
Proof. repeat split; vm_compute; try reflexivity; lia. Qed.

(** C9: the projection the builder makes for a series is a function of
    the series, the projection mode and the label and colour of the
    dataset alone: two calls that agree on these return the same dataset,
    point for point, whatever the clock, the time range, the snapshots and
    the hidden categories of the page are at either call. *)
Theorem projection_deterministic {F : Type} `{JSNumber F} `{JSDate}
    (env1 env2 : Env) (ds1 ds2 : Dataset.t) (filtered : list Point.t) :
  projectionMode env1 = projectionMode env2 ->
  Dataset.label ds1 = Dataset.label ds2 ->
  Dataset.borderColor ds1 = Dataset.borderColor ds2 ->
  projectionOf env1 ds1 filtered = projectionOf env2 ds2 filtered.
Proof.
  intros Hmode Hlabel Hcolor. unfold projectionOf.
  rewrite Hmode, Hlabel, Hcolor. reflexivity.
Qed.

Lemma projection_deterministic_witness :
  projectionOf (F := Q) (EnvFixtures.sparse "moving-avg")
    EnvFixtures.general SeriesFixtures.flat_series =
  projectionOf (F := Q) (EnvFixtures.later (EnvFixtures.crowded "moving-avg"))
    EnvFixtures.general SeriesFixtures.flat_series.
Proof.
  apply (projection_deterministic (F := Q)); reflexivity.
Defined.

(** The caller is another matter: with the 3-year range [buildDatasets]
    filters by the clock before it calls the builder, so the same page
    three years later shows no projection for the same data. *)
Lemma buildDatasets_reads_clock :
  length (buildDatasets (F := Q) (EnvFixtures.sparse "linear")) = 3%nat /\
  length (buildDatasets (F := Q)
            (EnvFixtures.later (EnvFixtures.sparse "linear"))) = 2%nat.
Proof. split; vm_compute; reflexivity. Qed.

(** ** The crossing searches *)

Section SearchFacts.

Lemma searchForward_step (crosses : Z -> bool) (maxT : Z) (step : positive)
    (t : Z) :
  searchForward crosses maxT step t =
  if t <=? maxT then
    if crosses t then Some t
    else searchForward crosses maxT step (t + Z.pos step)
  else None.
Proof.
  rewrite searchForward_equation_1.
  destruct (Z_le_gt_dec t maxT) as [Hle | Hgt]; cbn.
  - destruct (Z.leb_spec t maxT); [reflexivity | lia].
  - destruct (Z.leb_spec t maxT); [lia | reflexivity].
Qed.

Lemma searchForward_samples (crosses : Z -> bool) (maxT : Z) (step : positive)
    (t0 : Z) (n : nat) :
  forall m : Z,
    t0 + (m + Z.of_nat n - 1) * Z.pos step <= maxT \/ n = 0%nat ->
    maxT < t0 + (m + Z.of_nat n) * Z.pos step ->
    searchForward crosses maxT step (t0 + m * Z.pos step) =
    List.find crosses
      (map (fun k => t0 + k * Z.pos step) (seqZ m (Z.of_nat n))).
Proof.
  induction n as [| n IH]; intros m Hin Hout.
  - rewrite searchForward_step.
    destruct (Z.leb_spec (t0 + m * Z.pos step) maxT); [lia | reflexivity].
  - rewrite searchForward_step.
    assert (Hle : t0 + m * Z.pos step <= maxT).
    { destruct Hin as [Hin | Hin]; [nia | discriminate]. }
    destruct (Z.leb_spec (t0 + m * Z.pos step) maxT) as [_ | Hgt]; [| lia].
    rewrite seqZ_cons by lia. cbn [map List.find].
    destruct (crosses (t0 + m * Z.pos step)); [reflexivity |].
    replace (t0 + m * Z.pos step + Z.pos step)
      with (t0 + Z.succ m * Z.pos step) by lia.
    replace (Z.pred (Z.of_nat (S n))) with (Z.of_nat n) by lia.
    apply IH.
    + destruct n as [| n']; [right; reflexivity | left].
      destruct Hin as [Hin | Hin]; [| discriminate].
      replace (Z.succ m + Z.of_nat (S n') - 1)
        with (m + Z.of_nat (S (S n')) - 1) by lia.
      exact Hin.
    + replace (Z.succ m + Z.of_nat n) with (m + Z.of_nat (S n)) by lia.
      exact Hout.
Qed.

(** The loop with the constants both searches use visits exactly the
    weekly samples. *)
Lemma searchForward_weekly (crosses : Z -> bool) (lastT : Z) :
  searchForward crosses
    (lastT + 3 * 36525 * 24 * 60 * 60 * 1000 / 100)
    (7 * 24 * 60 * 60 * 1000)%positive lastT =
  first_crossing crosses lastT.
Proof.
  unfold first_crossing, weekly_samples.
  pose proof (searchForward_samples crosses
                (lastT + 3 * 36525 * 24 * 60 * 60 * 1000 / 100)
                (7 * 24 * 60 * 60 * 1000)%positive lastT 157 0) as Hs.
  replace (lastT + 0 * Z.pos (7 * 24 * 60 * 60 * 1000)) with lastT in Hs
    by lia.
  change (Z.of_nat 157) with 157 in Hs.
  change (Z.pos (7 * 24 * 60 * 60 * 1000)) with (7 * 24 * 60 * 60 * 1000) in Hs.
  apply Hs.
  - left. change (3 * 36525 * 24 * 60 * 60 * 1000 / 100) with 94672800000.
    lia.
  - change (3 * 36525 * 24 * 60 * 60 * 1000 / 100) with 94672800000. lia.
Qed.

End SearchFacts.

Lemma find_first {A : Type} (f : A -> bool) (l : list A) (a : A) :
  List.find f l = Some a ->
  exists i : nat,
    l !! i = Some a /\ f a = true /\
    forall (j : nat) (b : A), (j < i)%nat -> l !! j = Some b -> f b = false.
Proof.
  induction l as [| b l IH]; cbn [List.find]; [discriminate |].
  destruct (f b) eqn:Hb.
  - intros [= ->]. exists 0%nat. repeat split; [exact Hb |].
    intros j c Hj. lia.
  - intros Hfind. destruct (IH Hfind) as [i [Hi [Ha Hbefore]]].
    exists (S i). repeat split; [exact Hi | exact Ha |].
    intros [| j] c Hj Hc; cbn in Hc.
    + injection Hc as <-. exact Hb.
    + apply (Hbefore j c); [lia | exact Hc].
Qed.

Lemma find_none_all {A : Type} (f : A -> bool) (l : list A) :
  List.find f l = None -> Forall (fun a => f a = false) l.
Proof.
  induction l as [| b l IH]; cbn [List.find]; [constructor |].
  destruct (f b) eqn:Hb; [discriminate |].
  intros Hfind. constructor; [exact Hb | exact (IH Hfind)].
Qed.

Lemma weekly_samples_lookup (lastT k : Z) :
  0 <= k <= 156 ->
  weekly_samples lastT !! Z.to_nat k = Some (lastT + k * 604800000).
Proof.
  intros Hk. unfold weekly_samples.
  rewrite lookup_map_seqZ by lia. f_equal.
Qed.

Lemma weekly_samples_length (lastT : Z) :
  length (weekly_samples lastT) = 157%nat.
Proof. unfold weekly_samples. rewrite length_map, length_seqZ. reflexivity. Qed.

(** C4: both searches visit the same time values, whatever the projection
    mode: the last observed time plus [k] weeks of exactly 7 days, for
    [k = 0, ..., 156], which is every weekly step within 3 years of 365.25
    days. Each search evaluates the fitted model on at most these 157
    values and returns the first on which the crossing condition holds
    (formatted as a month), or nothing. *)
Theorem crossing_searches_weekly {F : Type} `{JSNumber F} `{JSDate} :
  (forall lastT,
     length (weekly_samples lastT) = 157%nat /\
     (forall k, 0 <= k <= 156 ->
        weekly_samples lastT !! Z.to_nat k =
        Some (lastT + k * (7 * 24 * 60 * 60 * 1000))) /\
     lastT + 156 * (7 * 24 * 60 * 60 * 1000)
       <= lastT + 3 * 36525 * 24 * 60 * 60 * 1000 / 100
       < lastT + 157 * (7 * 24 * 60 * 60 * 1000)) /\
  (forall crosses lastT,
     match first_crossing crosses lastT with
     | Some t =>
         exists k, 0 <= k <= 156 /\ t = lastT + k * (7 * 24 * 60 * 60 * 1000) /\
           crosses t = true /\
           forall j, 0 <= j < k ->
             crosses (lastT + j * (7 * 24 * 60 * 60 * 1000)) = false
     | None =>
         forall k, 0 <= k <= 156 ->
           crosses (lastT + k * (7 * 24 * 60 * 60 * 1000)) = false
     end) /\
  (forall env sorted score,
     trendCrossing env sorted score =
     match trend_model env sorted, last sorted with
     | Some reg, Some final =>
         monthLabel <$>
           first_crossing
             (fun t => leb (eval_model reg (of_Z t)) (of_Z score))
             (getTime (Point.x final))
     | _, _ => None
     end) /\
  (forall env sorted userScore label latestDist medianInv reg lastSnap,
     (3 <= length (ratioSeries env sorted))%nat ->
     getLatestDistribution env = Some latestDist ->
     medianInvitations sorted = Some medianInv ->
     leb (div (of_Z (countAboveScore latestDist userScore)) (of_Z medianInv))
         (of_Z 1) = false ->
     (2 <= length (userRatioSeries env userScore medianInv))%nat ->
     pool_model env (userRatioSeries env userScore medianInv) = Some reg ->
     last (distributionSnapshots env) = Some lastSnap ->
     getPoolAwareProjection env sorted userScore label =
     (fun t => monthLabel t ++ " *") <$>
       first_crossing
         (fun t => leb (eval_model reg (of_Z t)) (of_Z 1))
         (getTime (snap_date lastSnap))).
Proof.
  split; [| split; [| split]].
  - intros lastT. split; [apply weekly_samples_length |].
    split; [intros k Hk; apply weekly_samples_lookup, Hk |].
    change (3 * 36525 * 24 * 60 * 60 * 1000 / 100) with 94672800000. lia.
  - intros crosses lastT. unfold first_crossing.
    destruct (List.find crosses (weekly_samples lastT)) as [t |] eqn:Hfind.
    + destruct (find_first crosses _ t Hfind) as [i [Hi [Ht Hbefore]]].
      assert (Hlt : (i < 157)%nat).
      { rewrite <- (weekly_samples_length lastT).
        eapply lookup_lt_Some, Hi. }
      exists (Z.of_nat i).
      pose proof (weekly_samples_lookup lastT (Z.of_nat i)) as Hk.
      rewrite Nat2Z.id, Hi in Hk.
      split; [lia |]. split; [injection Hk; [intros ->; lia | lia] |].
      split; [exact Ht |].
      intros j Hj. apply (Hbefore (Z.to_nat j)); [lia |].
      rewrite weekly_samples_lookup by lia. f_equal.
    + intros k Hk. apply find_none_all in Hfind.
      rewrite Forall_forall in Hfind. apply Hfind.
      eapply list_elem_of_lookup_2.
      rewrite weekly_samples_lookup by exact Hk. f_equal.
  - intros env sorted score. unfold trendCrossing.
    destruct (trend_model env sorted) as [reg |]; [| reflexivity].
    destruct (last sorted) as [final |]; [| reflexivity].
    cbv zeta. rewrite searchForward_weekly.
    destruct (first_crossing _ _); reflexivity.
  - intros env sorted userScore label latestDist medianInv reg lastSnap
      Hratio Hlatest Hmedian Hbusy Hseries Hreg Hlast.
    unfold getPoolAwareProjection.
    destruct (Nat.ltb_spec (length (ratioSeries env sorted)) 3); [lia |].
    rewrite Hlatest, Hmedian. cbv zeta. rewrite Hbusy.
    destruct (Nat.ltb_spec
                (length (userRatioSeries env userScore medianInv)) 2);
      [lia |].
    rewrite Hreg, Hlast, searchForward_weekly.
    destruct (first_crossing _ _); reflexivity.
Qed.

(** ** The pool-aware model inside the crossing search *)

(** C2, as the script has it: when the ratio of the user's score on the
    latest snapshot is at most 1, the pool-aware model returns nothing, the
    very result it returns when it is unavailable or finds no crossing,
    and the caller goes on to the trend-based search. *)
Theorem pool_parity_falls_back {F : Type} `{JSNumber F} `{JSDate}
    (env : Env) (sorted : list Point.t) (userScore : Z) (label : string)
    (latestDist : Snapshot) (medianInv : Z) :
  getLatestDistribution env = Some latestDist ->
  medianInvitations sorted = Some medianInv ->
  leb (div (of_Z (countAboveScore latestDist userScore)) (of_Z medianInv))
      (of_Z 1) = true ->
  getPoolAwareProjection env sorted userScore label = None /\
  getProjectedCrossing env sorted userScore label =
  trendCrossing env sorted userScore.
Proof.
  intros Hlatest Hmedian Hratio.
  assert (Hpool : getPoolAwareProjection env sorted userScore label = None).
  { unfold getPoolAwareProjection.
    destruct (length (ratioSeries env sorted) <? 3)%nat; [reflexivity |].
    rewrite Hlatest, Hmedian. cbv zeta. rewrite Hratio. reflexivity. }
  split; [exact Hpool |].
  unfold getProjectedCrossing. rewrite Hpool.
  destruct (3 <=? length (distributionSnapshots env))%nat; reflexivity.
Qed.

Lemma pool_parity_falls_back_witness :
  getLatestDistribution (EnvFixtures.sparse "linear") =
    Some (EnvFixtures.snapshot "2025-01-01" 100 200 0) /\
  medianInvitations SeriesFixtures.spec_series = Some 1200 /\
  getPoolAwareProjection (F := Q) (EnvFixtures.sparse "linear")
    SeriesFixtures.spec_series 440 "General" = None /\
  getProjectedCrossing (F := Q) (EnvFixtures.sparse "linear")
    SeriesFixtures.spec_series 440 "General" =
  trendCrossing (F := Q) (EnvFixtures.sparse "linear")
    SeriesFixtures.spec_series 440.
Proof.
  split; [reflexivity |]. split; [reflexivity |].
  apply (pool_parity_falls_back (F := Q) (EnvFixtures.sparse "linear")
           SeriesFixtures.spec_series 440 "General"
           (EnvFixtures.snapshot "2025-01-01" 100 200 0) 1200);
    vm_compute; reflexivity.
Defined.

(** C2 as stated fails: with 300 candidates at or above 440 on the latest
    snapshot and a median of 1200 invitations the ratio is 1/4; the
    pool-aware model returns nothing, the trend-based search runs and
    answers April 2025, and the card reads "Projected" from the trend, not
    pool-aware; with a score of 300 the same ratio ends in "Score too
    low". *)
Lemma pool_parity_runs_trend_search :
  (option_map (fun latest => countAboveScore (F := Q) latest 440)
     (getLatestDistribution (EnvFixtures.sparse "linear")) = Some 300 /\
   medianInvitations SeriesFixtures.spec_series = Some 1200 /\
   leb (div (of_Z 300) (of_Z 1200)) (of_Z 1 : Q) = true) /\
  getPoolAwareProjection (F := Q) (EnvFixtures.sparse "linear")
    SeriesFixtures.spec_series 440 "General" = None /\
  trendCrossing (F := Q) (EnvFixtures.sparse "linear")
    SeriesFixtures.spec_series 440 = Some "Apr 2025" /\
  getProjectedCrossing (F := Q) (EnvFixtures.sparse "linear")
    SeriesFixtures.spec_series 440 "General" = Some "Apr 2025" /\
  scoreCard (F := Q) (EnvFixtures.sparse "linear") EnvFixtures.general 440 =
    Some (Projected "Apr 2025" false) /\
  scoreCard (F := float) (EnvFixtures.sparse "linear") EnvFixtures.general 440 =
    Some (Projected "Apr 2025" false) /\
  scoreCard (F := Q) (EnvFixtures.sparse "linear") EnvFixtures.general 300 =
    Some Ineligible.
Proof. repeat split; vm_compute; reflexivity. Qed.

(** ** The eligibility cards *)

Section ResolverFacts.
Context {F : Type} `{JSNumber F} `{JSDate}.

Lemma scoreCardWith_few_points
    (crossing : Env -> list Point.t -> Z -> string -> option string)
    (env : Env) (ds : Dataset.t) (score : Z) :
  (length (filter_range env ds) < 2)%nat ->
  scoreCardWith crossing env ds score = None.
Proof.
  intros Hfew. unfold scoreCardWith.
  destruct (bool_decide _); [reflexivity |].
  destruct (Nat.ltb_spec (length (filter_range env ds)) 2);
    [reflexivity | lia].
Qed.

End ResolverFacts.

(** C1, as the script has it. A category that is hidden or has fewer than
    2 rounds in range gets no card at all, and no projection is attempted
    for it: the outcome is the same whatever the crossing function would
    answer. A shown category with at least 2 rounds in range gets exactly
    one card: "Eligible" with the number of rounds at or below the score
    when the latest round is at or below it; otherwise "Projected" when a
    projection mode is on and the crossing search answers; otherwise
    "Last eligible" with the date of the latest round at or below the
    score; otherwise "Score too low". A missing or non-positive score gets
    no cards. *)
Theorem scoreCard_verdicts {F : Type} `{JSNumber F} `{JSDate}
    (env : Env) (ds : Dataset.t) (score : Z) :
  let filtered := filter_range env ds in
  let sorted := sort_points filtered in
  let eligible := List.filter (fun d => Point.y d <=? score) sorted in
  ((length filtered < 2)%nat ->
     forall crossing, scoreCardWith crossing env ds score = None) /\
  (Dataset.label ds ∈ hiddenCategories env ->
     forall crossing, scoreCardWith crossing env ds score = None) /\
  (score <= 0 -> buildScoreResults env score = []) /\
  (Dataset.label ds ∉ hiddenCategories env ->
   (2 <= length filtered)%nat ->
   exists mostRecent verdict,
     last sorted = Some mostRecent /\
     scoreCard env ds score = Some verdict /\
     (Point.y mostRecent <= score -> verdict = Eligible (length eligible)) /\
     (score < Point.y mostRecent ->
      let projectedDate :=
        if negb (String.eqb (projectionMode env) "off")
        then getProjectedCrossing env sorted score (Dataset.label ds)
        else None in
      match projectedDate with
      | Some text =>
          if nonempty text then
            verdict = Projected (replace_first " *" EmptyString text) (endsWith text "*")
          else
            verdict = match last eligible with
                      | Some d => LastEligible (Point.x d)
                      | None => Ineligible
                      end
      | None =>
          verdict = match last eligible with
                    | Some d => LastEligible (Point.x d)
                    | None => Ineligible
                    end
      end)).
Proof.
  intros filtered sorted eligible.
  split; [| split; [| split]].
  - intros Hfew crossing. apply scoreCardWith_few_points, Hfew.
  - intros Hhidden crossing. unfold scoreCardWith.
    rewrite bool_decide_eq_true_2 by exact Hhidden. reflexivity.
  - intros Hscore. unfold buildScoreResults.
    destruct (Z.leb_spec score 0); [reflexivity | lia].
  - intros Hshown Hmany.
    assert (Hlen : (0 < length sorted)%nat).
    { subst sorted. rewrite sort_points_length. lia. }
    destruct (last_is_Some sorted Hlen) as [mostRecent Hlast].
    unfold scoreCard, scoreCardWith.
    rewrite bool_decide_eq_false_2 by exact Hshown.
    fold filtered.
    destruct (Nat.ltb_spec (length filtered) 2) as [Hlt | _]; [lia |].
    fold sorted. fold eligible. rewrite Hlast.
    exists mostRecent. eexists. split; [reflexivity |].
    split; [reflexivity |]. split.
    + intros Hnow.
      destruct (Z.leb_spec (Point.y mostRecent) score); [reflexivity | lia].
    + intros Hnot. cbv zeta.
      destruct (Z.leb_spec (Point.y mostRecent) score) as [Hle | _]; [lia |].
      rewrite andb_true_r.
      destruct (negb (String.eqb (projectionMode env) "off")).
      * destruct (getProjectedCrossing env sorted score (Dataset.label ds))
          as [text |].
        -- destruct (nonempty text); [reflexivity |].
           destruct (last eligible); reflexivity.
        -- destruct (last eligible); reflexivity.
      * destruct (last eligible); reflexivity.
Qed.

(** C1 as stated fails on a category with one round: it gets no card, for
    a score that the round would satisfy and for one it would not, with
    projections on and off. *)
Lemma single_round_no_card :
  length (filter_range (EnvFixtures.sparse "linear") EnvFixtures.single)
    = 1%nat /\
  scoreCard (F := Q) (EnvFixtures.sparse "linear") EnvFixtures.single 500
    = None /\
  scoreCard (F := Q) (EnvFixtures.sparse "linear") EnvFixtures.single 440
    = None /\
  scoreCard (F := Q) (EnvFixtures.sparse "off") EnvFixtures.single 500
    = None /\
  buildScoreResults (F := Q) (EnvFixtures.sparse "linear") 500
    = [("General", Eligible 3)].
Proof. repeat split; vm_compute; reflexivity. Qed.

(** ** The snapshots of the page generator *)

Section GeneratorFacts.
Context `{JSDate}.

Lemma find_app_l {A : Type} (f : A -> bool) (l1 l2 : list A) :
  List.find f (l1 ++ l2)%list =
  match List.find f l1 with
  | Some a => Some a
  | None => List.find f l2
  end.
Proof.
  induction l1 as [| a l1 IH]; cbn [app List.find]; [reflexivity |].
  destruct (f a); [reflexivity | exact IH].
Qed.

Lemma existsb_false_find {A : Type} (f : A -> bool) (l : list A) :
  existsb f l = false -> List.find f l = None.
Proof.
  induction l as [| a l IH]; cbn [existsb List.find]; [reflexivity |].
  destruct (f a); cbn [orb]; [discriminate | exact IH].
Qed.

Lemma same_key_refl (r : DrawRound.t) : same_key r r = true.
Proof. unfold same_key. apply String.eqb_refl. Qed.

(** A kept round is the first of the list with its key. *)
Lemma first_occurrences_first (before rs : list DrawRound.t)
    (r : DrawRound.t) :
  r ∈ first_occurrences before rs ->
  first_with_key r (before ++ rs)%list = Some r.
Proof.
  unfold first_with_key. revert before.
  induction rs as [| r' rs IH]; intros before Hin; cbn in Hin.
  - inversion Hin.
  - apply elem_of_app in Hin as [Hhead | Htail].
    + destruct (existsb (same_key r') before) eqn:Hseen;
        [inversion Hhead |].
      apply list_elem_of_singleton in Hhead. subst r'.
      rewrite find_app_l, (existsb_false_find _ _ Hseen).
      cbn [List.find]. rewrite same_key_refl. reflexivity.
    + specialize (IH (before ++ [r'])%list Htail).
      rewrite <- app_assoc in IH. exact IH.
Qed.

(** Every key of the list is kept once. *)
Lemma first_occurrences_keys (before rs : list DrawRound.t)
    (r : DrawRound.t) :
  r ∈ rs ->
  existsb (same_key r) before = true \/
  exists r', r' ∈ first_occurrences before rs /\ same_key r r' = true.
Proof.
  revert before. induction rs as [| r' rs IH]; intros before Hin.
  - inversion Hin.
  - cbn [first_occurrences].
    apply elem_of_cons in Hin as [-> | Hin].
    + destruct (existsb (same_key r') before) eqn:Hseen; [left; reflexivity |].
      right. exists r'. split; [| apply same_key_refl].
      apply elem_of_app. left. apply list_elem_of_singleton. reflexivity.
    + destruct (IH (before ++ [r'])%list Hin) as [Hseen | [r0 [Hr0 Hkey]]].
      * rewrite existsb_app in Hseen. cbn [existsb] in Hseen.
        rewrite orb_false_r in Hseen.
        apply orb_prop in Hseen as [Hseen | Hhere]; [left; exact Hseen |].
        destruct (existsb (same_key r') before) eqn:Hseen'.
        -- left. apply existsb_exists in Hseen' as [r1 [Hr1 Hk1]].
           apply existsb_exists. exists r1. split; [exact Hr1 |].
           unfold same_key in *. apply String.eqb_eq in Hk1, Hhere.
           apply String.eqb_eq. congruence.
        -- right. exists r'. split; [| exact Hhere].
           apply elem_of_app. left. apply list_elem_of_singleton. reflexivity.
      * right. exists r0. split; [| exact Hkey].
        apply elem_of_app. right. exact Hr0.
Qed.

Lemma first_occurrences_keys_NoDup (before rs : list DrawRound.t) :
  NoDup (map snapshot_key (first_occurrences before rs)) /\
  forall r, r ∈ first_occurrences before rs ->
    existsb (same_key r) before = false.
Proof.
  revert before. induction rs as [| r' rs IH]; intros before.
  - cbn. split; [constructor | intros r Hr; inversion Hr].
  - cbn [first_occurrences].
    destruct (IH (before ++ [r'])%list) as [Hnodup Hfresh].
    assert (Hweaken : forall r, r ∈ first_occurrences (before ++ [r']) rs ->
              existsb (same_key r) before = false /\ same_key r r' = false).
    { intros r Hr. specialize (Hfresh r Hr).
      rewrite existsb_app in Hfresh. cbn [existsb] in Hfresh.
      rewrite orb_false_r in Hfresh.
      apply orb_false_elim in Hfresh. exact Hfresh. }
    destruct (existsb (same_key r') before) eqn:Hseen; cbn [app].
    + split; [exact Hnodup |]. intros r Hr. apply (Hweaken r Hr).
    + split.
      * cbn [map]. constructor; [| exact Hnodup].
        intros Hdup. apply list_elem_of_In in Hdup.
        apply in_map_iff in Hdup as [r [Hkey Hr]].
        apply list_elem_of_In in Hr.
        destruct (Hweaken r Hr) as [_ Hdiff].
        unfold same_key in Hdiff. apply String.eqb_neq in Hdiff.
        congruence.
      * intros r Hr. apply elem_of_cons in Hr as [-> | Hr];
          [exact Hseen | apply (Hweaken r Hr)].
Qed.

(** The loop of the generator keeps the first occurrences. *)
Lemma dedupe_loop (rs before : list DrawRound.t) (seenDates : gset string)
    (snapshots : list Snapshot) :
  (forall key, key ∈ seenDates <-> key ∈ map snapshot_key before) ->
  snd (fold_left dedupe_step rs (seenDates, snapshots)) =
  (snapshots ++ omap snapshot_of (first_occurrences before rs))%list.
Proof.
  revert before seenDates snapshots.
  induction rs as [| r rs IH]; intros before seenDates snapshots Hseen.
  - cbn. rewrite app_nil_r. reflexivity.
  - cbn [fold_left first_occurrences]. unfold dedupe_step at 2.
    assert (Hiff : existsb (same_key r) before = true <->
                   snapshot_key r ∈ seenDates).
    { rewrite Hseen, existsb_exists. split.
      - intros [r0 [Hr0 Hkey]]. apply String.eqb_eq in Hkey.
        rewrite <- Hkey. apply list_elem_of_In, in_map, Hr0.
      - intros Hin. apply list_elem_of_In, in_map_iff in Hin
          as [r0 [Hkey Hr0]].
        exists r0. split; [exact Hr0 |]. apply String.eqb_eq. exact Hkey. }
    assert (Hnext : forall seen' : gset string,
              (forall key, key ∈ seen' <->
                 key = snapshot_key r \/ key ∈ seenDates) ->
              forall key, key ∈ seen' <->
                key ∈ map snapshot_key (before ++ [r])%list).
    { intros seen' Hseen' key.
      rewrite Hseen', map_app, elem_of_app, Hseen. cbn [map].
      rewrite list_elem_of_singleton. tauto. }
    destruct (existsb (same_key r) before) eqn:Hex.
    + rewrite bool_decide_eq_true_2 by (apply Hiff; reflexivity).
      cbn [app]. apply IH, Hnext. intros key. split; [tauto |].
      intros [-> | Hin]; [apply Hiff; reflexivity | exact Hin].
    + rewrite bool_decide_eq_false_2
        by (intros Hin; apply Hiff in Hin; discriminate).
      rewrite (IH (before ++ [r])%list).
      * rewrite omap_app. cbn [omap list_omap].
        destruct (snapshot_of r) as [snap |]; cbn [app];
          [rewrite <- app_assoc |]; reflexivity.
      * apply Hnext. intros key. rewrite elem_of_union, elem_of_singleton.
        tauto.
Qed.

Lemma first_occurrences_Forall (P : DrawRound.t -> Prop)
    (before rs : list DrawRound.t) :
  Forall P rs -> Forall P (first_occurrences before rs).
Proof.
  intros Hall. revert before.
  induction Hall as [| r rs Hr _ IH]; intros before; cbn [first_occurrences].
  - constructor.
  - apply Forall_app. split; [| apply IH].
    destruct (existsb (same_key r) before); repeat constructor. exact Hr.
Qed.

Lemma first_occurrences_sorted (before rs : list DrawRound.t) :
  StronglySorted (by_key round_time) rs ->
  StronglySorted (by_key round_time) (first_occurrences before rs).
Proof.
  intros Hsorted. revert before.
  induction Hsorted as [| r rs _ IH Hr]; intros before;
    cbn [first_occurrences]; [constructor |].
  destruct (existsb (same_key r) before); cbn [app]; [apply IH |].
  constructor; [apply IH |].
  apply first_occurrences_Forall, Hr.
Qed.

Lemma snapshot_of_time (r : DrawRound.t) (snap : Snapshot) :
  snapshot_of r = Some snap -> snapshot_time snap = round_time r.
Proof.
  unfold snapshot_of. destruct (DrawRound.distribution r); [| discriminate].
  intros [= <-]. reflexivity.
Qed.

Lemma snapshots_sorted (rs : list DrawRound.t) :
  StronglySorted (by_key round_time) rs ->
  StronglySorted (by_key snapshot_time) (omap snapshot_of rs).
Proof.
  induction 1 as [| r rs _ IH Hr]; [constructor |].
  cbn [omap list_omap].
  destruct (snapshot_of r) as [snap |] eqn:Hsnap; [| exact IH].
  constructor; [exact IH |].
  apply Forall_forall. intros snap' Hin.
  apply list_elem_of_omap in Hin as [r' [Hr' Hsnap']].
  rewrite Forall_forall in Hr. specialize (Hr r' Hr').
  unfold by_key in *.
  rewrite (snapshot_of_time r snap Hsnap), (snapshot_of_time r' snap' Hsnap').
  exact Hr.
Qed.

End GeneratorFacts.

(** C8, as the generator has it: the rounds that carry a distribution with
    a positive total are first sorted by round date, stably; the loop then
    keeps, for each distinct key (the as-of date, or the round date when
    the as-of date is empty), the first round in that date order, which is
    the earliest-dated round with the key and, among rounds of one date,
    the first of the input; later rounds with the key are dropped. The
    snapshots come out in ascending order of date. *)
Theorem distSnapshots_first_by_date `{JSDate} (rounds : list DrawRound.t) :
  let sorted := distRounds rounds in
  let kept := first_occurrences [] sorted in
  sorted ≡ₚ List.filter has_distribution rounds /\
  StronglySorted (by_key round_time) sorted /\
  (forall c,
     List.filter (fun r => round_time r =? c) sorted =
     List.filter (fun r => round_time r =? c)
       (List.filter has_distribution rounds)) /\
  distSnapshots rounds = omap snapshot_of kept /\
  NoDup (map snapshot_key kept) /\
  (forall r, r ∈ kept -> first_with_key r sorted = Some r) /\
  (forall r, r ∈ sorted ->
     exists r', r' ∈ kept /\ snapshot_key r' = snapshot_key r) /\
  StronglySorted (by_key snapshot_time) (distSnapshots rounds).
Proof.
  intros sorted kept.
  assert (Hsorted : StronglySorted (by_key round_time) sorted)
    by apply sort_by_sorted.
  assert (Hloop : distSnapshots rounds = omap snapshot_of kept).
  { unfold distSnapshots. fold sorted.
    rewrite (dedupe_loop sorted [] ∅ []); [reflexivity |].
    intros key. cbn [map]. split; intros Hin; inversion Hin. }
  split; [apply sort_by_perm |].
  split; [exact Hsorted |].
  split; [intros c; apply (sort_by_stable round_time) |].
  split; [exact Hloop |].
  split; [apply first_occurrences_keys_NoDup |].
  split; [intros r Hr; apply (first_occurrences_first [] sorted r Hr) |].
  split.
  - intros r Hr.
    destruct (first_occurrences_keys [] sorted r Hr) as [Hnil | [r' [Hr' Hk]]];
      [discriminate |].
    exists r'. split; [exact Hr' |].
    unfold same_key in Hk. apply String.eqb_eq in Hk. exact Hk.
  - rewrite Hloop. apply snapshots_sorted, first_occurrences_sorted, Hsorted.
Qed.

(** C8 as stated fails when the file lists a later-dated round before an
    earlier-dated one with the same as-of date: the first occurrence in
    input order is the round of February 1, but the snapshot kept is that
    of the round of January 31. *)
Lemma later_duplicate_kept :
  first_with_key RoundFixtures.february RoundFixtures.out_of_order =
    Some RoundFixtures.february /\
  snapshot_key RoundFixtures.january = snapshot_key RoundFixtures.february /\
  distSnapshots RoundFixtures.out_of_order =
    omap snapshot_of [RoundFixtures.january] /\
  omap snapshot_of [RoundFixtures.february]
    <> distSnapshots RoundFixtures.out_of_order.
Proof.
  split; [reflexivity |]. split; [reflexivity |].
  split; [vm_compute; reflexivity |].
  vm_compute. intros Heq. discriminate Heq.
Qed.

(** ** Worked examples *)

(** A window of 6 over a flat series gives the flat value at every
    smoothed point; the builder then adds 12 forecast points. *)
Lemma moving_average_flat :
  map Point.y (smoothed_overlay (F := Q) SeriesFixtures.flat_series "General")
    = [470; 470; 470] /\
  map Point.y (smoothed_overlay (F := float) SeriesFixtures.flat_series "General")
    = [470; 470; 470] /\
  (length <$> (Dataset.data <$>
     movingAvgProjection (F := Q) SeriesFixtures.flat_series "General" "#2563eb"))
    = Some 15%nat /\
  movingAvgProjection (F := Q) SeriesFixtures.spec_series "General" "#2563eb"
    = None.
Proof. repeat split; vm_compute; reflexivity. Qed.

(** The series 480, 460, 450: a score of 470 is eligible now, with 2 past
    rounds at or below it; a score of 440 is not, and with the linear
    projection the answer is a projected month, from the pool-aware model
    when the pool is crowded and from the trend when it is not; without
    projection the score is too low. *)
Lemma eligibility_examples :
  scoreCard (F := Q) (EnvFixtures.sparse "linear") EnvFixtures.general 470
    = Some (Eligible 2) /\
  scoreCard (F := float) (EnvFixtures.sparse "linear") EnvFixtures.general 470
    = Some (Eligible 2) /\
  scoreCard (F := Q) (EnvFixtures.crowded "linear") EnvFixtures.general 440
    = Some (Projected "Dec 2025" true) /\
  scoreCard (F := float) (EnvFixtures.crowded "linear") EnvFixtures.general 440
    = Some (Projected "Dec 2025" true) /\
  scoreCard (F := Q) (EnvFixtures.sparse "off") EnvFixtures.general 440
    = Some Ineligible /\
  scoreCard (F := Q) (EnvFixtures.sparse "off") EnvFixtures.general 455
    = Some (Eligible 1) /\
  scoreCard (F := Q)
    (mkEnv [Dataset.mk "General"
              (SeriesFixtures.spec_series ++
               [SeriesFixtures.observed "2025-03-01" 470 1000])%list
              "#2563eb" [] false]
       [] "off" "all" ∅ 1738368000000)
    (Dataset.mk "General"
       (SeriesFixtures.spec_series ++
        [SeriesFixtures.observed "2025-03-01" 470 1000])%list
       "#2563eb" [] false) 455
    = Some (LastEligible "2025-01-01").
Proof. repeat split; vm_compute; reflexivity. Qed.

(** In binary64 the determinant of a series of rounds held on one day
    need not come out as 0: for three rounds on 2025-03-05 the fit returns a
    flat line through the mean score, where exact arithmetic returns no
    model. *)
Lemma same_day_determinant_binary64 :
  linearRegression (F := Q)
    (map to_pt
       [ SeriesFixtures.observed "2025-03-05" 480 1000;
         SeriesFixtures.observed "2025-03-05" 470 1200;
         SeriesFixtures.observed "2025-03-05" 460 1500 ]) = None /\
  (fun reg => round (eval_model reg (of_Z 1741132800000))) <$>
  linearRegression (F := float)
    (map to_pt
       [ SeriesFixtures.observed "2025-03-05" 480 1000;
         SeriesFixtures.observed "2025-03-05" 470 1200;
         SeriesFixtures.observed "2025-03-05" 460 1500 ]) = Some 470.
Proof. split; vm_compute; reflexivity. Qed.

(** The thresholds in binary64: [1e-10] and [1e-20] are the doubles
    nearest to them, and [10^20] is read exactly. A quadratic system whose
    determinant is about [-2.56e-20] is not below [1e-20] in absolute
    value, and it is solved, not handed to the linear fit. *)
Lemma thresholds_binary64 :
  lit_1e_10 (F := float) = 0x1.b7cdfd9d7bdbbp-34%float /\
  lit_1e_20 (F := float) = 0x1.79ca10c924223p-67%float /\
  Prim2SF (of_Z (F := float) (10 ^ 20))
    = S754_finite false 6103515625000000 14 /\
  ltb (abs Fixtures.near_singular_det) (lit_1e_20 (F := float)) = false /\
  ltb (abs Fixtures.near_singular_det) (div (of_Z 3) (of_Z (10 ^ 20)))
    = true /\
  match polyRegression Fixtures.near_singular with
  | Some (QuadModel _ _ _ _ _) => true
  | _ => false
  end = true /\
  match linearRegression Fixtures.near_singular with
  | Some (LinearModel _ _) => true
  | _ => false
  end = true.
Proof. repeat split; vm_compute; reflexivity. Qed.

(** The regression projection of the series 480, 460, 450 starts on the first
    observed date and ends 6 months after the last. *)
Lemma regression_projection_example :
  (fun proj =>
     (length (Dataset.data proj),
      Point.x <$> head (Dataset.data proj),
      Point.x <$> last (Dataset.data proj),
      Point.roundType <$> Dataset.data proj !! 26%nat,
      Point.roundType <$> Dataset.data proj !! 27%nat)) <$>
  regressionProjection (F := Q) SeriesFixtures.spec_series "General"
    "#2563eb" linearRegression [6; 4] "linear"
  = Some (41%nat, Some "2024-01-01", Some "2025-07-01",
          Some "General (linear trend)", Some "General (linear forecast)").
Proof. vm_compute. reflexivity. Qed.

(** Small fits in exact arithmetic: the line through three collinear
    points, no model for one point or for two points with one [x], and the
    parabola [y = x * x] on [0..3], whose [x] is normalised by 3. *)
Lemma linear_fit_example :
  linearRegression (F := Q) [mkPt 0%Q 1%Q; mkPt 1%Q 3%Q; mkPt 2%Q 5%Q]
    = Some (LinearModel 2%Q 1%Q) /\
  linearRegression (F := Q) [mkPt 7%Q 1%Q] = None /\
  linearRegression (F := Q) [mkPt 7%Q 1%Q; mkPt 7%Q 3%Q] = None /\
  polyRegression (F := Q)
    [mkPt 0%Q 0%Q; mkPt 1%Q 1%Q; mkPt 2%Q 4%Q; mkPt 3%Q 9%Q]
    = Some (QuadModel 9%Q 0%Q 0%Q 0%Q 3%Q).
Proof. repeat split; vm_compute; reflexivity. Qed.

(** * Further properties of the code *)

(** ** The fits in exact arithmetic *)

Lemma Qsum_nonneg (l : list Q) :
  Forall (fun q => 0 <= q)%Q l -> (0 <= Qsum l)%Q.
Proof.
  induction 1 as [| q l Hq _ IH]; cbn; [apply Qle_refl |].
  unfold Qsum in IH.
  replace 0%Q with (0 + 0)%Q by reflexivity.
  apply Qplus_le_compat; assumption.
Qed.

Lemma Qsquare_nonneg (q : Q) : (0 <= q * q)%Q.
Proof. destruct q as [n d]. unfold Qle, Qmult. cbn. nia. Qed.

Lemma ssr_shift (s c s' c' : Q) (pts : list (Pt Q)) :
  (ssr s' c' pts ==
   ssr s c pts
   + 2 * ((s - s') *
            Qsum (map (fun p => px p * (py p - (s * px p + c))) pts)
          + (c - c') * Qsum (map (fun p => py p - (s * px p + c)) pts))
   + Qsum (map (fun p => ((s - s') * px p + (c - c'))
                         * ((s - s') * px p + (c - c'))) pts))%Q.
Proof.
  unfold ssr. induction pts as [| p pts IH].
  - cbn. ring.
  - cbn [map Qsum fold_right]. unfold Qsum in IH. rewrite IH. ring.
Qed.

(** The line the linear fit returns has the least sum of squared
    residuals of all lines, in exact arithmetic. *)
Theorem linearRegression_least_squares (pts : list (Pt Q))
    (slope intercept : Q) :
  linearRegression pts = Some (LinearModel slope intercept) ->
  forall s' c' : Q, (ssr slope intercept pts <= ssr s' c' pts)%Q.
Proof.
  intros Hfit s' c'.
  destruct (linearRegression_normal_equations pts slope intercept Hfit)
    as [Hsum Hmoment].
  rewrite (ssr_shift slope intercept s' c' pts), Hsum, Hmoment.
  assert (Hzero : (2 * ((slope - s') * 0 + (intercept - c') * 0) == 0)%Q)
    by ring.
  rewrite Hzero, Qplus_0_r.
  rewrite <- (Qplus_0_r (ssr slope intercept pts)) at 1.
  apply Qplus_le_compat; [apply Qle_refl |].
  apply Qsum_nonneg, Forall_forall. intros q Hq.
  apply list_elem_of_In, in_map_iff in Hq as [p [<- _]].
  apply Qsquare_nonneg.
Qed.

Lemma linearRegression_least_squares_witness :
  linearRegression Fixtures.three_points
    = Some (LinearModel (-3 # 2) (1435 # 3)) /\
  (ssr (-3 # 2) (1435 # 3) Fixtures.three_points
     <= ssr 0 (470 # 1) Fixtures.three_points)%Q.
Proof.
  split; [vm_compute; reflexivity |].
  apply (linearRegression_least_squares Fixtures.three_points).
  vm_compute. reflexivity.
Defined.

Section PolyFacts.
Context {F : Type} `{JSNumber F}.

Lemma poly_sums_from (norm : list (Pt F)) (s : PolySums) :
  fold_left poly_step norm s =
  {| s1 := fold_left (fun acc p => add acc (px p)) norm (s1 s);
     s2 := fold_left (fun acc p => add acc (mul (px p) (px p))) norm (s2 s);
     s3 := fold_left (fun acc p => add acc (mul (mul (px p) (px p)) (px p)))
             norm (s3 s);
     s4 := fold_left
             (fun acc p => add acc (mul (mul (px p) (px p)) (mul (px p) (px p))))
             norm (s4 s);
     t0 := fold_left (fun acc p => add acc (py p)) norm (t0 s);
     t1 := fold_left (fun acc p => add acc (mul (px p) (py p))) norm (t1 s);
     t2 := fold_left (fun acc p => add acc (mul (mul (px p) (px p)) (py p)))
             norm (t2 s) |}.
Proof.
  revert s. induction norm as [| p norm IH]; intros s.
  - destruct s; reflexivity.
  - cbn [fold_left]. rewrite IH. reflexivity.
Qed.

Lemma poly_sums_sigma (norm : list (Pt F)) :
  poly_sums norm =
  {| s1 := sigma px norm;
     s2 := sigma (fun p => mul (px p) (px p)) norm;
     s3 := sigma (fun p => mul (mul (px p) (px p)) (px p)) norm;
     s4 := sigma (fun p => mul (mul (px p) (px p)) (mul (px p) (px p))) norm;
     t0 := sigma py norm;
     t1 := sigma (fun p => mul (px p) (py p)) norm;
     t2 := sigma (fun p => mul (mul (px p) (px p)) (py p)) norm |}.
Proof. unfold poly_sums. rewrite poly_sums_from. reflexivity. Qed.

Lemma linearRegression_is_linear (pts : list (Pt F)) (m : Model F) :
  linearRegression pts = Some m -> exists s c, m = LinearModel s c.
Proof.
  unfold linearRegression.
  destruct (length pts <? 2)%nat; [discriminate |].
  destruct (ltb _ _); [discriminate |].
  intros [= <-]. eauto.
Qed.

(** What a quadratic model returned by the fit is made of. *)
Lemma polyRegression_quadratic (pts : list (Pt F)) (a b c xMin xRange : F) :
  polyRegression pts = Some (QuadModel a b c xMin xRange) ->
  let norm := map (fun p => mkPt (div (sub (px p) xMin) xRange) (py p)) pts in
  let M : Mat3 :=
    ((of_Z (Z.of_nat (length pts)), sigma px norm,
      sigma (fun p => mul (px p) (px p)) norm),
     (sigma px norm, sigma (fun p => mul (px p) (px p)) norm,
      sigma (fun p => mul (mul (px p) (px p)) (px p)) norm),
     (sigma (fun p => mul (px p) (px p)) norm,
      sigma (fun p => mul (mul (px p) (px p)) (px p)) norm,
      sigma (fun p => mul (mul (px p) (px p)) (mul (px p) (px p))) norm)) in
  let T : Row3 :=
    (sigma py norm, sigma (fun p => mul (px p) (py p)) norm,
     sigma (fun p => mul (mul (px p) (px p)) (py p)) norm) in
  (4 <= length pts)%nat /\
  ltb (abs (det3 M)) lit_1e_20 = false /\
  c = div (det3 (replCol M 0 T)) (det3 M) /\
  b = div (det3 (replCol M 1 T)) (det3 M) /\
  a = div (det3 (replCol M 2 T)) (det3 M).
Proof.
  unfold polyRegression.
  destruct (Nat.ltb_spec (length pts) 4) as [Hlt | Hge].
  { intros Hfit. apply linearRegression_is_linear in Hfit as [s [c0 Hm]].
    discriminate. }
  destruct (head pts) as [p0 |]; [| discriminate].
  destruct (last pts) as [pn |]; [| discriminate].
  cbv zeta. rewrite poly_sums_sigma. cbn [s1 s2 s3 s4 t0 t1 t2].
  match goal with |- context [ltb ?x ?y] => destruct (ltb x y) eqn:Htiny end.
  { intros Hfit. apply linearRegression_is_linear in Hfit as [s [c0 Hm]].
    discriminate. }
  intros [= <- <- <- <- <-].
  repeat split; [exact Hge | exact Htiny].
Qed.

End PolyFacts.

Lemma det3_exact (m00 m01 m02 m10 m11 m12 m20 m21 m22 : Q) :
  (det3 ((m00, m01, m02), (m10, m11, m12), (m20, m21, m22)) ==
   m00 * (m11 * m22 - m12 * m21) - m01 * (m10 * m22 - m12 * m20)
   + m02 * (m10 * m21 - m11 * m20))%Q.
Proof.
  cbn [det3 add sub mul ExactNumber.Q_number].
  rewrite !Qred_correct. reflexivity.
Qed.

Lemma cramer3 (n S1 S2 S3 S4 T0 T1 T2 a b c : Q) :
  let D := (n * (S2 * S4 - S3 * S3) - S1 * (S1 * S4 - S3 * S2)
            + S2 * (S1 * S3 - S2 * S2))%Q in
  ~ (D == 0)%Q ->
  (c == (T0 * (S2 * S4 - S3 * S3) - S1 * (T1 * S4 - S3 * T2)
         + S2 * (T1 * S3 - S2 * T2)) / D)%Q ->
  (b == (n * (T1 * S4 - S3 * T2) - T0 * (S1 * S4 - S3 * S2)
         + S2 * (S1 * T2 - T1 * S2)) / D)%Q ->
  (a == (n * (S2 * T2 - T1 * S3) - S1 * (S1 * T2 - T1 * S2)
         + T0 * (S1 * S3 - S2 * S2)) / D)%Q ->
  (T0 - a * S2 - b * S1 - c * n == 0)%Q /\
  (T1 - a * S3 - b * S2 - c * S1 == 0)%Q /\
  (T2 - a * S4 - b * S3 - c * S2 == 0)%Q.
Proof.
  intros D HD Hc Hb Ha. 
  repeat split; rewrite Ha, Hb, Hc; unfold D in *; field; exact HD.
Qed.

Lemma Qsum_weighted (w u y : Pt Q -> Q) (a b c : Q) (pts : list (Pt Q)) :
  (Qsum (map (fun p => w p * (y p - (a * (u p * u p) + b * u p + c))) pts) ==
   Qsum (map (fun p => w p * y p) pts)
   - a * Qsum (map (fun p => w p * (u p * u p)) pts)
   - b * Qsum (map (fun p => w p * u p) pts)
   - c * Qsum (map w pts))%Q.
Proof.
  induction pts as [| p pts IH].
  - cbn. ring.
  - cbn [map Qsum fold_right]. unfold Qsum in IH. rewrite IH. ring.
Qed.

Lemma Qsum_const (pts : list (Pt Q)) :
  (Qsum (map (fun _ => 1) pts) == inject_Z (Z.of_nat (length pts)))%Q.
Proof.
  induction pts as [| p pts IH].
  - reflexivity.
  - cbn [map Qsum fold_right length]. unfold Qsum in IH. rewrite IH.
    rewrite Nat2Z.inj_succ. unfold Z.succ. rewrite inject_Z_plus. ring.
Qed.

Lemma Q_ltb_tiny (d : Q) :
  (d == 0)%Q -> ltb (abs d) (lit_1e_20 (F := Q)) = true.
Proof.
  intros Hd. cbn [ltb abs ExactNumber.Q_number].
  apply negb_true_iff. destruct (Qle_bool _ _) eqn:Hle; [| reflexivity].
  apply Qle_bool_iff in Hle. rewrite Qred_correct, Hd in Hle.
  revert Hle. vm_compute. intros Hle. contradiction Hle. reflexivity.
Qed.


Lemma sigma_norm_exact (f : Pt Q -> Q) (g : Pt Q -> Pt Q) (h : Pt Q -> Q)
    (pts : list (Pt Q)) :
  (forall p, f (g p) == h p)%Q ->
  (sigma f (map g pts) == Qsum (map h pts))%Q.
Proof.
  intros Hfg. rewrite sigma_exact, map_map. apply Qsum_ext. exact Hfg.
Qed.

(** A quadratic model returned by the quadratic fit satisfies the three
    normal equations of least squares on the normalised abscissa, in exact
    arithmetic: its residuals sum to 0 and are orthogonal to [x] and to
    [x * x]. *)
Theorem polyRegression_normal_equations (pts : list (Pt Q))
    (a b c xMin xRange : Q) :
  polyRegression pts = Some (QuadModel a b c xMin xRange) ->
  let m := QuadModel a b c xMin xRange in
  (Qsum (map (residual m) pts) == 0)%Q /\
  (Qsum (map (fun p => normalised m p * residual m p) pts) == 0)%Q /\
  (Qsum (map (fun p => normalised m p * normalised m p * residual m p) pts)
     == 0)%Q.
Proof.
  intros Hfit m.
  apply polyRegression_quadratic in Hfit. cbv zeta in Hfit.
  destruct Hfit as [_ [Htiny [Hc [Hb Ha]]]].
  set (u := fun p : Pt Q => ((px p - xMin) / xRange)%Q).
  set (g := fun p : Pt Q => mkPt (div (sub (px p) xMin) xRange) (py p)) in *.
  assert (Hg : forall p, (px (g p) == u p)%Q).
  { intros p. subst g u. cbn. rewrite !Qred_correct. reflexivity. }
  set (n := inject_Z (Z.of_nat (length pts))) in *.
  set (S1 := Qsum (map u pts)).
  set (S2 := Qsum (map (fun p => u p * u p)%Q pts)).
  set (S3 := Qsum (map (fun p => u p * (u p * u p))%Q pts)).
  set (S4 := Qsum (map (fun p => u p * u p * (u p * u p))%Q pts)).
  set (T0 := Qsum (map py pts)).
  set (T1 := Qsum (map (fun p => u p * py p)%Q pts)).
  set (T2 := Qsum (map (fun p => u p * u p * py p)%Q pts)).
  assert (H1 : (sigma px (map g pts) == S1)%Q)
    by (apply sigma_norm_exact; exact Hg).
  assert (H2 : (sigma (fun p => mul (px p) (px p)) (map g pts) == S2)%Q).
  { apply sigma_norm_exact. intros p. cbn [mul ExactNumber.Q_number].
    rewrite Qred_correct, !Hg. reflexivity. }
  assert (H3 : (sigma (fun p => mul (mul (px p) (px p)) (px p)) (map g pts)
                == S3)%Q).
  { apply sigma_norm_exact. intros p. cbn [mul ExactNumber.Q_number].
    rewrite !Qred_correct, !Hg. ring. }
  assert (H4 : (sigma (fun p => mul (mul (px p) (px p)) (mul (px p) (px p)))
                  (map g pts) == S4)%Q).
  { apply sigma_norm_exact. intros p. cbn [mul ExactNumber.Q_number].
    rewrite !Qred_correct, !Hg. reflexivity. }
  assert (H0t : (sigma py (map g pts) == T0)%Q).
  { apply sigma_norm_exact. intros p. reflexivity. }
  assert (H1t : (sigma (fun p => mul (px p) (py p)) (map g pts) == T1)%Q).
  { apply sigma_norm_exact. intros p. cbn [mul ExactNumber.Q_number].
    rewrite Qred_correct, !Hg. reflexivity. }
  assert (H2t : (sigma (fun p => mul (mul (px p) (px p)) (py p)) (map g pts)
                 == T2)%Q).
  { apply sigma_norm_exact. intros p. cbn [mul ExactNumber.Q_number].
    rewrite !Qred_correct, !Hg. reflexivity. }
  set (s1' := sigma px (map g pts)) in *.
  set (s2' := sigma (fun p => mul (px p) (px p)) (map g pts)) in *.
  set (s3' := sigma (fun p => mul (mul (px p) (px p)) (px p)) (map g pts)) in *.
  set (s4' := sigma (fun p => mul (mul (px p) (px p)) (mul (px p) (px p)))
                (map g pts)) in *.
  set (t0' := sigma py (map g pts)) in *.
  set (t1' := sigma (fun p => mul (px p) (py p)) (map g pts)) in *.
  set (t2' := sigma (fun p => mul (mul (px p) (px p)) (py p)) (map g pts)) in *.
  cbn [replCol replRow Nat.eqb] in Ha, Hb, Hc.
  change (of_Z (Z.of_nat (length pts))) with n in *.
  assert (HD : ~ (n * (S2 * S4 - S3 * S3) - S1 * (S1 * S4 - S3 * S2)
                  + S2 * (S1 * S3 - S2 * S2) == 0)%Q).
  { intros Hz. rewrite Q_ltb_tiny in Htiny; [discriminate |].
    rewrite det3_exact, H1, H2, H3, H4. exact Hz. }
  assert (Hdiv : forall x y : Q, (div x y == x / y)%Q).
  { intros x y. cbn. apply Qred_correct. }
  assert (Hc' : (c == (T0 * (S2 * S4 - S3 * S3) - S1 * (T1 * S4 - S3 * T2)
                       + S2 * (T1 * S3 - S2 * T2))
                      / (n * (S2 * S4 - S3 * S3) - S1 * (S1 * S4 - S3 * S2)
                         + S2 * (S1 * S3 - S2 * S2)))%Q).
  { rewrite Hc, Hdiv, !det3_exact, H1, H2, H3, H4, H0t, H1t, H2t.
    reflexivity. }
  assert (Hb' : (b == (n * (T1 * S4 - S3 * T2) - T0 * (S1 * S4 - S3 * S2)
                       + S2 * (S1 * T2 - T1 * S2))
                      / (n * (S2 * S4 - S3 * S3) - S1 * (S1 * S4 - S3 * S2)
                         + S2 * (S1 * S3 - S2 * S2)))%Q).
  { rewrite Hb, Hdiv, !det3_exact, H1, H2, H3, H4, H0t, H1t, H2t.
    reflexivity. }
  assert (Ha' : (a == (n * (S2 * T2 - T1 * S3) - S1 * (S1 * T2 - T1 * S2)
                       + T0 * (S1 * S3 - S2 * S2))
                      / (n * (S2 * S4 - S3 * S3) - S1 * (S1 * S4 - S3 * S2)
                         + S2 * (S1 * S3 - S2 * S2)))%Q).
  { rewrite Ha, Hdiv, !det3_exact, H1, H2, H3, H4, H0t, H1t, H2t.
    reflexivity. }
  clear Ha Hb Hc Htiny.
  destruct (cramer3 n S1 S2 S3 S4 T0 T1 T2 a b c HD Hc' Hb' Ha')
    as [E0 [E1 E2]].
  assert (Hres : forall p, (residual m p ==
                            py p - (a * (u p * u p) + b * u p + c))%Q).
  { intros p. unfold residual, m, u.
    cbn [eval_model add sub mul div ExactNumber.Q_number].
    rewrite !Qred_correct. ring. }
  split; [| split].
  - rewrite (Qsum_ext _
      (fun p => 1 * (py p - (a * (u p * u p) + b * u p + c)))%Q).
    2: { intros p. rewrite Hres. ring. }
    rewrite (Qsum_weighted (fun _ => 1%Q) u py), Qsum_const.
    rewrite (Qsum_ext (fun p => 1 * py p)%Q py) by (intros; ring).
    rewrite (Qsum_ext (fun p => 1 * (u p * u p))%Q (fun p => u p * u p)%Q)
      by (intros; ring).
    rewrite (Qsum_ext (fun p => 1 * u p)%Q u) by (intros; ring).
    exact E0.
  - rewrite (Qsum_ext _
      (fun p => u p * (py p - (a * (u p * u p) + b * u p + c)))%Q).
    2: { intros p. rewrite Hres. reflexivity. }
    rewrite (Qsum_weighted u u py). exact E1.
  - rewrite (Qsum_ext _
      (fun p => (u p * u p) * (py p - (a * (u p * u p) + b * u p + c)))%Q).
    2: { intros p. rewrite Hres. reflexivity. }
    rewrite (Qsum_weighted (fun p => u p * u p)%Q u py).
    rewrite (Qsum_ext (fun p => u p * u p * u p)%Q
               (fun p => u p * (u p * u p))%Q) by (intros; ring).
    exact E2.
Qed.

Lemma polyRegression_normal_equations_witness :
  polyRegression (F := Q)
    [mkPt 0%Q 0%Q; mkPt 1%Q 1%Q; mkPt 2%Q 4%Q; mkPt 3%Q 10%Q]
    = Some (QuadModel (45 # 4) (-27 # 20) (1 # 20) 0%Q 3%Q) /\
  (Qsum (map (residual (QuadModel (45 # 4) (-27 # 20) (1 # 20) 0%Q 3%Q))
           [mkPt 0%Q 0%Q; mkPt 1%Q 1%Q; mkPt 2%Q 4%Q; mkPt 3%Q 10%Q])
     == 0)%Q.
Proof.
  split; [vm_compute; reflexivity |].
  apply (polyRegression_normal_equations
           [mkPt 0%Q 0%Q; mkPt 1%Q 1%Q; mkPt 2%Q 4%Q; mkPt 3%Q 10%Q]
           (45 # 4) (-27 # 20) (1 # 20) 0%Q 3%Q).
  vm_compute. reflexivity.
Defined.

(** ** The nearest snapshot *)

Section ClosestFacts.
Context `{JSDate}.

Lemma closest_step_keeps (dateMs : Z) (seen : list Snapshot)
    (acc : option Snapshot * option Z) (snap : Snapshot) :
  closest_so_far dateMs seen acc ->
  closest_so_far dateMs (seen ++ [snap])%list (closest_step dateMs acc snap).
Proof.
  destruct acc as [[best |] [bestDiff |]]; cbn [closest_so_far];
    try contradiction.
  - intros [Hdiff [Hin Hall]]. unfold closest_step. cbn [snd].
    fold (snapshot_distance dateMs snap).
    destruct (Z.ltb_spec (snapshot_distance dateMs snap) bestDiff)
      as [Hlt | Hge]; cbn [closest_so_far].
    + split; [reflexivity |]. split; [set_solver |].
      apply Forall_app. split.
      * eapply Forall_impl; [exact Hall |]. cbn. intros s Hs. lia.
      * repeat constructor. lia.
    + split; [exact Hdiff |]. split; [set_solver |].
      apply Forall_app. split; [exact Hall |]. repeat constructor. lia.
  - intros ->. unfold closest_step. cbn [snd closest_so_far app].
    fold (snapshot_distance dateMs snap).
    split; [reflexivity |]. split; [set_solver |]. repeat constructor. lia.
Qed.

Lemma closest_fold_keeps (dateMs : Z) (rest seen : list Snapshot)
    (acc : option Snapshot * option Z) :
  closest_so_far dateMs seen acc ->
  closest_so_far dateMs (seen ++ rest)%list
    (fold_left (closest_step dateMs) rest acc).
Proof.
  revert seen acc. induction rest as [| snap rest IH]; intros seen acc Hacc.
  - rewrite app_nil_r. exact Hacc.
  - cbn [fold_left].
    replace (seen ++ snap :: rest)%list with ((seen ++ [snap]) ++ rest)%list
      by (rewrite <- app_assoc; reflexivity).
    apply IH, closest_step_keeps, Hacc.
Qed.

End ClosestFacts.

(** [findClosestDist] returns a snapshot of the page that is at most 30
    days from the date and at least as near as every other snapshot; it
    returns nothing exactly when there is no snapshot within 30 days. *)
Theorem findClosestDist_nearest `{JSDate} (env : Env) (dateMs : Z) :
  match findClosestDist env dateMs with
  | Some best =>
      best ∈ distributionSnapshots env /\
      snapshot_distance dateMs best <= 30 * 24 * 60 * 60 * 1000 /\
      Forall (fun snap => snapshot_distance dateMs best
                          <= snapshot_distance dateMs snap)
             (distributionSnapshots env)
  | None =>
      Forall (fun snap => 30 * 24 * 60 * 60 * 1000
                          < snapshot_distance dateMs snap)
             (distributionSnapshots env)
  end.
Proof.
  unfold findClosestDist.
  pose proof (closest_fold_keeps dateMs (distributionSnapshots env) []
                (None, None) eq_refl) as Hfold.
  cbn [app] in Hfold.
  destruct (distributionSnapshots env) as [| snap0 snaps] eqn:Hsnaps;
    [constructor |].
  destruct (fold_left (closest_step dateMs) (snap0 :: snaps) (None, None))
    as [[best |] [bestDiff |]]; cbn [closest_so_far] in Hfold;
    try contradiction; try discriminate.
  destruct Hfold as [Hdiff [Hin Hall]]. subst bestDiff.
  destruct (Z.ltb_spec (30 * 24 * 60 * 60 * 1000)
              (snapshot_distance dateMs best)) as [Hfar | Hnear].
  - eapply Forall_impl; [exact Hall |]. cbn. intros s Hs. lia.
  - split; [exact Hin |]. split; [exact Hnear | exact Hall].
Qed.

(** ** The moving average *)

Lemma map_seq_lookup_drop {A B : Type} (f : A -> B) (d : B) (l : list A)
    (k : nat) :
  map (fun i => default d (f <$> l !! i)) (seq k (length l - k)) =
  drop k (map f l).
Proof.
  apply list_eq. intros i.
  change (map (fun i => default d (f <$> l !! i)) (seq k (length l - k)))
    with ((fun i => default d (f <$> l !! i)) <$> seq k (length l - k)).
  change (map f l) with (f <$> l).
  rewrite list_lookup_fmap, lookup_drop, list_lookup_fmap.
  destruct (Nat.lt_ge_cases i (length l - k)) as [Hlt | Hge].
  - rewrite lookup_seq_lt by exact Hlt. cbn.
    destruct (lookup_lt_is_Some_2 l (k + i)) as [x Hx]; [lia |].
    rewrite Hx. reflexivity.
  - rewrite lookup_seq_ge by exact Hge. cbn.
    rewrite lookup_ge_None_2 by lia. reflexivity.
Qed.

Section MovingAverageFacts.
Context {F : Type} `{JSNumber F} `{JSDate}.

Lemma smoothed_overlay_length (sorted : list Point.t) (dsLabel : string) :
  length (smoothed_overlay sorted dsLabel) = (length sorted - 5)%nat.
Proof.
  unfold smoothed_overlay. rewrite length_map, length_seq. reflexivity.
Qed.

Lemma smoothed_overlay_dates (sorted : list Point.t) (dsLabel : string) :
  map Point.x (smoothed_overlay sorted dsLabel) =
  drop 5 (map Point.x sorted).
Proof.
  unfold smoothed_overlay. rewrite map_map. cbn [Point.x].
  apply (map_seq_lookup_drop Point.x EmptyString sorted 5).
Qed.

Lemma smoothed_overlay_flags (sorted : list Point.t) (dsLabel : string) :
  Forall (fun p => Point.isProjection p = true /\ Point.invitations p = 0)
    (smoothed_overlay sorted dsLabel).
Proof.
  unfold smoothed_overlay. apply Forall_forall. intros p Hp.
  apply list_elem_of_In, in_map_iff in Hp as [i [<- _]]. split; reflexivity.
Qed.

End MovingAverageFacts.

(** [movingAvgProjection] returns nothing for fewer than 6 points.
    Otherwise it returns a dataset labelled with the category and "(ma)":
    first one smoothed point for each round from the 6th on, in date
    order and dated as that round, then either no forecast or exactly 12
    forecast points; there is no forecast when there are exactly 6 rounds;
    forecast values are never negative, and every point is flagged as a
    projection with no invitations. *)
Theorem movingAvgProjection_shape {F : Type} `{JSNumber F} `{JSDate}
    (filtered : list Point.t) (dsLabel dsColor : string) :
  let result := movingAvgProjection filtered dsLabel dsColor in
  let n := length filtered in
  ((n < 6)%nat -> result = None) /\
  ((6 <= n)%nat ->
   exists proj,
     result = Some proj /\
     Dataset.label proj = dsLabel ++ " (ma)" /\
     Dataset._isProjection proj = true /\
     map Point.x (take (n - 5) (Dataset.data proj)) =
       drop 5 (map Point.x (sort_points filtered)) /\
     (length (Dataset.data proj) = (n - 5)%nat \/
      length (Dataset.data proj) = (n - 5 + 12)%nat) /\
     (n = 6%nat -> length (Dataset.data proj) = 1%nat) /\
     Forall (fun p => 0 <= Point.y p) (drop (n - 5) (Dataset.data proj)) /\
     Forall (fun p => Point.isProjection p = true /\ Point.invitations p = 0)
       (Dataset.data proj)).
Proof.
  intros result n. subst result. unfold movingAvgProjection.
  change MOVING_AVG_WINDOW with 6%nat. fold n.
  split.
  - intros Hlt. destruct (Nat.ltb_spec n 6); [reflexivity | lia].
  - intros Hge. destruct (Nat.ltb_spec n 6) as [Hlt | _]; [lia |].
    set (sorted := sort_points filtered).
    set (smoothed := smoothed_overlay sorted dsLabel).
    assert (Hlen : length smoothed = (n - 5)%nat).
    { subst smoothed. rewrite smoothed_overlay_length. subst sorted.
      rewrite sort_points_length. reflexivity. }
    match goal with
    | |- context [Dataset.mk _ (smoothed ++ ?f)%list _ _ _] =>
        set (forecast := f)
    end.
    assert (Hforecast :
      (forecast = [] \/ length forecast = 12%nat) /\
      (n = 6%nat -> forecast = []) /\
      Forall (fun p => 0 <= Point.y p) forecast /\
      Forall (fun p => Point.isProjection p = true /\ Point.invitations p = 0)
        forecast).
    { subst forecast. rewrite Hlen.
      destruct (Nat.leb_spec 2 (n - 5)) as [Hmany | Hfew].
      - destruct (linearRegression _) as [reg |];
          [| repeat split; auto; lia].
        destruct (last smoothed) as [final |];
          [| repeat split; auto; lia].
        split; [right; rewrite length_map, length_seqZ; reflexivity |].
        split; [lia |].
        split; apply Forall_forall; intros p Hp;
          apply list_elem_of_In, in_map_iff in Hp as [i [<- _]];
          cbn; [unfold clamp_eval; lia | split; reflexivity].
      - repeat split; auto. }
    destruct Hforecast as [Hshape [Hsix [Hpos Hflags]]].
    eexists. split; [reflexivity |]. cbn [Dataset.label Dataset._isProjection
                                          Dataset.data].
    split; [reflexivity |]. split; [reflexivity |].
    rewrite <- Hlen.
    split.
    { rewrite take_app_length. apply smoothed_overlay_dates. }
    split.
    { rewrite length_app.
      destruct Hshape as [-> | ->]; [left; cbn; lia | right; lia]. }
    split.
    { intros Hn. rewrite (Hsix Hn), app_nil_r. lia. }
    split.
    { rewrite drop_app_length. exact Hpos. }
    apply Forall_app. split; [apply smoothed_overlay_flags | exact Hflags].
Qed.

Lemma movingAvgProjection_overlay {F : Type} `{JSNumber F} `{JSDate}
    (filtered : list Point.t) (dsLabel dsColor : string) (proj : Dataset.t) :
  movingAvgProjection filtered dsLabel dsColor = Some proj ->
  take (length filtered - 5) (Dataset.data proj) =
  smoothed_overlay (sort_points filtered) dsLabel.
Proof.
  unfold movingAvgProjection.
  destruct (length filtered <? MOVING_AVG_WINDOW)%nat; [discriminate |].
  intros [= <-]. cbn [Dataset.data].
  rewrite <- (sort_points_length filtered).
  rewrite <- (smoothed_overlay_length (sort_points filtered) dsLabel).
  apply take_app_length.
Qed.

Lemma sumZ_bounds (lo hi : Z) (l : list Z) :
  Forall (fun y => lo <= y <= hi) l ->
  lo * Z.of_nat (length l) <= sumZ l <= hi * Z.of_nat (length l).
Proof.
  induction 1 as [| y l Hy _ IH]; unfold sumZ in *; cbn [foldr length];
    [lia | nia].
Qed.

Lemma window_sum_bounds (lo hi : Z) (ys : list Z) (i : nat) :
  Forall (fun y => lo <= y <= hi) ys ->
  (5 <= i < length ys)%nat ->
  6 * lo <= window_sum ys i <= 6 * hi.
Proof.
  intros Hall Hi. unfold window_sum. change MOVING_AVG_WINDOW with 6%nat.
  pose proof (sumZ_bounds lo hi (take 6 (drop (i + 1 - 6) ys))) as Hb.
  rewrite length_take, length_drop in Hb.
  replace (6 `min` (length ys - (i + 1 - 6)))%nat with 6%nat in Hb by lia.
  change (Z.of_nat 6) with 6 in Hb.
  assert (Hwin : Forall (fun y => lo <= y <= hi)
                   (take 6 (drop (i + 1 - 6) ys)))
    by apply Forall_take, Forall_drop, Hall.
  specialize (Hb Hwin). lia.
Qed.

(** In exact arithmetic [Math.round(a / p)] is the quotient rounded half
    up. *)
Lemma Q_round_div (a : Z) (p : positive) :
  round (div (of_Z a) (of_Z (Z.pos p)) : Q) =
  (2 * a + Z.pos p) / (2 * Z.pos p).
Proof.
  cbn [round div of_Z ExactNumber.Q_number]. unfold ExactNumber.q_round.
  rewrite <- Qfloor_half_up. apply Qfloor_comp.
  rewrite Qred_correct.
  unfold Qeq, Qplus, Qmult, Qdiv, Qinv, inject_Z. cbn. lia.
Qed.

(** In exact arithmetic every smoothed value of the moving average lies
    between the lowest and the highest score of the series; on a flat
    series the overlay is flat. *)
Theorem movingAvgProjection_within_scores `{JSDate}
    (filtered : list Point.t) (dsLabel dsColor : string) (proj : Dataset.t)
    (lo hi : Z) :
  movingAvgProjection (F := Q) filtered dsLabel dsColor = Some proj ->
  Forall (fun d => lo <= Point.y d <= hi) filtered ->
  Forall (fun p => lo <= Point.y p <= hi)
    (take (length filtered - 5) (Dataset.data proj)).
Proof.
  intros Hproj Hall.
  rewrite (movingAvgProjection_overlay filtered dsLabel dsColor proj Hproj).
  assert (Hsorted : Forall (fun y => lo <= y <= hi)
                      (map Point.y (sort_points filtered))).
  { apply Forall_fmap. unfold sort_points.
    rewrite (sort_by_perm (fun d => getTime (Point.x d)) filtered).
    exact Hall. }
  unfold smoothed_overlay. apply Forall_forall. intros p Hp.
  apply list_elem_of_In, in_map_iff in Hp as [i [<- Hi]].
  apply in_seq in Hi. cbn [Point.y].
  change (Z.of_nat MOVING_AVG_WINDOW) with (Z.pos 6).
  rewrite Q_round_div.
  pose proof (window_sum_bounds lo hi (map Point.y (sort_points filtered)) i
                Hsorted) as Hb.
  rewrite length_map in Hb.
  change MOVING_AVG_WINDOW with 6%nat in Hi.
  specialize (Hb ltac:(lia)).
  split.
  - apply Z.div_le_lower_bound; lia.
  - apply Z.lt_succ_r, Z.div_lt_upper_bound; lia.
Qed.

Lemma movingAvgProjection_within_scores_witness :
  (option_map (fun proj => map Point.y (take 3 (Dataset.data proj)))
     (movingAvgProjection (F := Q) SeriesFixtures.flat_series
        "General" "#2563eb") = Some [470; 470; 470]) /\
  match movingAvgProjection (F := Q) SeriesFixtures.flat_series
          "General" "#2563eb" with
  | Some proj =>
      Forall (fun p => 470 <= Point.y p <= 470)
        (take (length SeriesFixtures.flat_series - 5) (Dataset.data proj))
  | None => False
  end.
Proof.
  split; [vm_compute; reflexivity |].
  destruct (movingAvgProjection (F := Q) SeriesFixtures.flat_series
              "General" "#2563eb") as [proj |] eqn:Hproj;
    [| vm_compute in Hproj; discriminate].
  apply (movingAvgProjection_within_scores SeriesFixtures.flat_series
           "General" "#2563eb" proj 470 470 Hproj).
  repeat constructor; vm_compute; discriminate.
Defined.

(** The first smoothed value averages the first six rounds: for the scores
    1 to 8 the overlay is [round(21/6), round(27/6), round(33/6)]. *)
Lemma moving_average_ramp :
  map Point.y
    (smoothed_overlay (F := Q)
       (map (fun k => SeriesFixtures.observed "2024-01-10" k 1000)
          [1; 2; 3; 4; 5; 6; 7; 8]) "General") = [4; 5; 6] /\
  map Point.y
    (smoothed_overlay (F := float)
       (map (fun k => SeriesFixtures.observed "2024-01-10" k 1000)
          [1; 2; 3; 4; 5; 6; 7; 8]) "General") = [4; 5; 6].
Proof. split; vm_compute; reflexivity. Qed.

(** ** What a card means *)



Lemma last_elem_of {A : Type} (l : list A) (a : A) :
  last l = Some a -> a ∈ l.
Proof.
  intros Hlast. apply last_Some in Hlast as [l' ->].
  apply elem_of_app. right. apply list_elem_of_singleton. reflexivity.
Qed.



(** ** The trend search on a rising trend *)

Lemma find_all_false {A : Type} (f : A -> bool) (l : list A) :
  Forall (fun a => f a = false) l -> List.find f l = None.
Proof.
  induction 1 as [| a l Ha _ IH]; cbn [List.find]; [reflexivity |].
  rewrite Ha. exact IH.
Qed.

Lemma weekly_samples_later (lastT t : Z) :
  t ∈ weekly_samples lastT -> lastT <= t.
Proof.
  unfold weekly_samples. intros Hin.
  apply list_elem_of_In, in_map_iff in Hin as [k [<- Hk]].
  apply list_elem_of_In, elem_of_seqZ in Hk. lia.
Qed.

Lemma Q_linear_monotone (slope intercept : Q) (t1 t2 : Z) :
  (0 <= slope)%Q -> t1 <= t2 ->
  (eval_model (LinearModel slope intercept) (of_Z t1)
   <= eval_model (LinearModel slope intercept) (of_Z t2))%Q.
Proof.
  intros Hs Ht. cbn [eval_model add mul of_Z ExactNumber.Q_number].
  rewrite !Qred_correct.
  assert (Hq : (inject_Z t1 <= inject_Z t2)%Q) by (rewrite <- Zle_Qle; exact Ht).
  nra.
Qed.

(** In exact arithmetic, when the line fitted to the scores does not fall
    and lies above the score at the last observed date, the trend-based
    search finds no crossing: a level or rising trend never promises a
    date. *)
Theorem rising_trend_no_crossing `{JSDate} (env : Env) (sorted : list Point.t)
    (score : Z) (slope intercept : Q) (final : Point.t) :
  trend_model (F := Q) env sorted = Some (LinearModel slope intercept) ->
  last sorted = Some final ->
  (0 <= slope)%Q ->
  (inject_Z score <
   eval_model (LinearModel slope intercept) (of_Z (getTime (Point.x final))))%Q ->
  trendCrossing (F := Q) env sorted score = None.
Proof.
  intros Hmodel Hlast Hslope Habove.
  unfold trendCrossing. rewrite Hmodel, Hlast. cbv zeta.
  rewrite searchForward_weekly. unfold first_crossing.
  rewrite find_all_false; [reflexivity |].
  apply Forall_forall. intros t Ht.
  apply weekly_samples_later in Ht.
  pose proof (Q_linear_monotone slope intercept _ _ Hslope Ht) as Hmono.
  cbn [leb ExactNumber.Q_number of_Z].
  destruct (Qle_bool _ _) eqn:Hle; [| reflexivity].
  apply Qle_bool_iff in Hle. 
  cbn [of_Z ExactNumber.Q_number] in *. lra.
Qed.

Lemma rising_trend_no_crossing_witness :
  trend_model (F := Q) (EnvFixtures.sparse "linear") MoreFixtures.rising_series
    = Some (LinearModel (839 # 876337920000) (-59964835 # 50714)) /\
  trendCrossing (F := Q) (EnvFixtures.sparse "linear")
    MoreFixtures.rising_series 440 = None.
Proof.
  split; [vm_compute; reflexivity |].
  apply (rising_trend_no_crossing (EnvFixtures.sparse "linear")
           MoreFixtures.rising_series 440
           (839 # 876337920000) (-59964835 # 50714)
           (SeriesFixtures.observed "2025-01-01" 480 1500));
    vm_compute; reflexivity || discriminate.
Defined.

(** ** The pool position of a score *)

(** The bars of the distribution chart are the bands of [countAboveScore],
    in the same order. *)
Lemma labels_are_keys : map key ranges = distRangeLabels.
Proof. reflexivity. Qed.

Ltac index_cases score :=
  unfold getScoreRangeIndex;
  repeat match goal with
         | |- context [?a <=? score] => destruct (Z.leb_spec a score)
         end.

(** The bar highlighted for a score between 0 and 1200 is the band of the
    pool table that contains the score: [getScoreRangeIndex] and
    [getScoreRangeLabel] agree with the bounds [countAboveScore] reads off
    the band keys. *)
Theorem getScoreRangeIndex_band (score : Z) :
  0 <= score <= 1200 ->
  exists r hi,
    ranges !! getScoreRangeIndex score = Some r /\
    getScoreRangeLabel score = Some (key r) /\
    range_hi r = Some hi /\
    lo r <= score <= hi.
Proof.
  intros Hscore. unfold getScoreRangeLabel.
  index_cases score;
    (eexists; eexists; split; [reflexivity |];
     split; [reflexivity |]; split; [vm_compute; reflexivity |];
     cbn; lia).
Qed.

Lemma getScoreRangeIndex_band_witness :
  0 <= 455 <= 1200 /\
  exists r hi,
    ranges !! getScoreRangeIndex 455 = Some r /\
    getScoreRangeLabel 455 = Some (key r) /\
    range_hi r = Some hi /\
    lo r <= 455 <= hi.
Proof. split; [lia | apply (getScoreRangeIndex_band 455); lia]. Defined.

Section OwnBand.
Context {F : Type} `{ShareRounding F}.

(** The band the threshold falls in adds at most its own count, and no
    band below it adds anything. *)
Lemma countLoop_own_band (dist : Snapshot) (t : Z) (r : Range)
    (rest : list Range) (total : Z) :
  proper_band r ->
  safe_count (range_count dist r) = true ->
  match rest with
  | [] => True
  | r' :: _ =>
      lo r <= t /\ lo r' < lo r /\
      forall hi', range_hi r' = Some hi' -> hi' < lo r
  end ->
  total <= countLoop dist t (r :: rest) total <= total + range_count dist r.
Proof.
  intros [hi [Hhi Hspan]] Hc Hrest.
  unfold safe_count in Hc. apply andb_prop in Hc as [Hc0 Hc1].
  apply Z.leb_le in Hc0. apply Z.ltb_lt in Hc1.
  cbn [countLoop]. rewrite Hhi.
  destruct (Z.leb_spec t (lo r)) as [Hle | Hgt].
  - destruct rest as [| r' rest']; [cbn; lia |].
    destruct Hrest as [Hlo [Hlo' Hhi']].
    cbn [countLoop].
    destruct (Z.leb_spec t (lo r')) as [| _]; [lia |].
    destruct (range_hi r') as [hi' |]; [| lia].
    specialize (Hhi' hi' eq_refl).
    destruct (Z.leb_spec t hi'); lia.
  - destruct (Z.leb_spec t hi) as [Hin | Hout]; [| lia].
    pose proof (share_bounds (range_count dist r) (hi - t + 1)
                  (hi - lo r + 1) ltac:(lia) ltac:(lia) Hspan) as Hb.
    lia.
Qed.

Lemma countLoop_split (dist : Snapshot) (t : Z) (above : list Range)
    (r : Range) (rest : list Range) :
  Forall (fun r' => t <= lo r') above ->
  proper_band r ->
  safe_count (range_count dist r) = true ->
  match rest with
  | [] => True
  | r' :: _ =>
      lo r <= t /\ lo r' < lo r /\
      forall hi', range_hi r' = Some hi' -> hi' < lo r
  end ->
  sumZ (map (range_count dist) above)
  <= countLoop dist t (above ++ r :: rest)%list 0
  <= sumZ (map (range_count dist) above) + range_count dist r.
Proof.
  intros Habove Hband Hsafe Hrest.
  rewrite (countLoop_full_prefix dist t above (r :: rest) 0 Habove).
  pose proof (countLoop_own_band dist t r rest
                (0 + sumZ (map (range_count dist) above))
                Hband Hsafe Hrest).
  lia.
Qed.

(** [countAboveScore] counts the bars above the highlighted one in full
    and at most the highlighted bar besides. *)
Lemma countAboveScore_own_band (latest : Snapshot) (score : Z) :
  valid_snapshot latest = true ->
  let userIdx := getScoreRangeIndex score in
  let full :=
    sumZ (map (label_count latest) (take userIdx distRangeLabels)) in
  let own :=
    label_count latest (default EmptyString (distRangeLabels !! userIdx)) in
  full <= countAboveScore latest score <= full + own.
Proof.
  intros Hvalid. cbv zeta.
  assert (Hsafe : forall r, In r ranges ->
                    safe_count (range_count latest r) = true).
  { unfold valid_snapshot in Hvalid. rewrite forallb_forall in Hvalid.
    exact Hvalid. }
  unfold countAboveScore.
  index_cases score;
    match goal with
    | |- context [take ?n distRangeLabels] =>
        let above := eval cbv in (take n ranges) in
        let below := eval cbv in (drop n ranges) in
        match below with
        | ?r :: ?rest =>
            apply (countLoop_split latest score above r rest);
            [ repeat constructor; cbn [lo]; lia
            | eexists; split; [vm_compute; reflexivity | in_spans]
            | apply Hsafe; cbn; tauto
            | first [ exact I
                    | split; [cbn [lo]; lia |];
                      split; [cbn [lo]; lia |];
                      intros hi' Hhi'; vm_compute in Hhi';
                      injection Hhi' as <-; cbn [lo]; lia ] ]
        end
    end.
Qed.

End OwnBand.

(** [Math.round(c * 0.5)] in exact arithmetic. *)
Lemma Q_round_half (c : Z) :
  round (mul (of_Z c) (lit_half (F := Q))) = (c + 1) / 2.
Proof.
  cbn [round mul div of_Z lit_half ExactNumber.Q_number].
  unfold lit_half, ExactNumber.q_round.
  cbn [round mul div of_Z ExactNumber.Q_number].
  transitivity (Qfloor ((c # 2) + (1 # 2))%Q).
  - apply Qfloor_comp. rewrite !Qred_correct.
    unfold Qeq, Qplus, Qmult, Qdiv, Qinv, inject_Z. cbn. lia.
  - rewrite Qfloor_half_up.
    replace (2 * c + 2) with ((c + 1) * 2) by lia.
    rewrite Z.div_mul_cancel_r; lia.
Qed.

Lemma getScoreRangeIndex_lt (score : Z) :
  (getScoreRangeIndex score < length distRangeLabels)%nat.
Proof. index_cases score; cbn; lia. Qed.

Lemma label_count_nonneg (latest : Snapshot) (label : string) :
  valid_snapshot latest = true ->
  label ∈ distRangeLabels ->
  0 <= label_count latest label.
Proof.
  intros Hvalid Hin. unfold valid_snapshot in Hvalid.
  rewrite forallb_forall in Hvalid.
  rewrite <- labels_are_keys in Hin.
  apply list_elem_of_fmap in Hin as [r [-> Hr]].
  apply list_elem_of_In in Hr. apply Hvalid in Hr.
  unfold safe_count in Hr. apply andb_prop in Hr as [Hr _].
  apply Z.leb_le in Hr. exact Hr.
Qed.

Lemma sumZ_nonneg (l : list Z) : Forall (fun z => 0 <= z) l -> 0 <= sumZ l.
Proof.
  induction 1 as [| z l Hz _ IH]; unfold sumZ in *; cbn [foldr]; lia.
Qed.

(** The pool panel computes the candidates above a score twice: the
    percentile uses the bars above the score's own bar plus half of that
    bar, rounded half up; the competition ratio uses [countAboveScore]. In
    exact arithmetic, on a snapshot of non-negative counts, both lie
    between the bars above and the bars above plus the own bar, so they
    differ by at most half the own bar, rounded up. *)
Theorem pool_estimates_bracket (latest : Snapshot) (score : Z) :
  valid_snapshot latest = true ->
  let userIdx := getScoreRangeIndex score in
  let full :=
    sumZ (map (label_count latest) (take userIdx distRangeLabels)) in
  let own :=
    label_count latest (default EmptyString (distRangeLabels !! userIdx)) in
  0 <= full /\ 0 <= own /\
  above_estimate (F := Q) latest score = full + (own + 1) / 2 /\
  full <= countAboveScore (F := Q) latest score <= full + own /\
  Z.abs (countAboveScore (F := Q) latest score
         - above_estimate (F := Q) latest score) <= (own + 1) / 2.
Proof.
  intros Hvalid. cbv zeta.
  pose proof (countAboveScore_own_band (F := Q) latest score Hvalid) as Hb.
  cbv zeta in Hb.
  unfold above_estimate. cbv zeta. rewrite Q_round_half.
  set (userIdx := getScoreRangeIndex score) in *.
  set (full := sumZ _) in *.
  set (own := label_count latest _) in *.
  assert (Hfull : 0 <= full).
  { apply sumZ_nonneg, Forall_forall. intros z Hz.
    apply list_elem_of_fmap in Hz as [label [-> Hl]].
    apply label_count_nonneg; [exact Hvalid |].
    apply list_elem_of_lookup in Hl as [i Hi].
    apply lookup_take_Some in Hi as [Hi _].
    apply list_elem_of_lookup. eauto. }
  assert (Hown : 0 <= own).
  { apply label_count_nonneg; [exact Hvalid |].
    destruct (lookup_lt_is_Some_2 distRangeLabels userIdx
                (getScoreRangeIndex_lt score)) as [label Hl].
    rewrite Hl. cbn [default].
    apply list_elem_of_lookup. eauto. }
  assert (Hhalf : 0 <= (own + 1) / 2 /\ own <= 2 * ((own + 1) / 2)
                  /\ 2 * ((own + 1) / 2) <= own + 1).
  { pose proof (Z.div_mod (own + 1) 2 ltac:(lia)).
    pose proof (Z.mod_pos_bound (own + 1) 2 ltac:(lia)). lia. }
  repeat split; try lia.
Qed.

Lemma pool_estimates_bracket_witness :
  valid_snapshot PoolFixtures.three_bands = true /\
  above_estimate (F := Q) PoolFixtures.three_bands 550 = 100 + (200 + 1) / 2 /\
  100 <= countAboveScore (F := Q) PoolFixtures.three_bands 550 <= 100 + 200.
Proof.
  split; [reflexivity |].
  pose proof (pool_estimates_bracket PoolFixtures.three_bands 550 eq_refl)
    as Hb.
  cbv zeta in Hb. destruct Hb as (_ & _ & Ha & Hc & _).
  split; [exact Ha | exact Hc].
Defined.

(** [k < a / m] and [k < 0] in exact arithmetic, as the instance unfolds
    them. *)
Lemma Q_ltb_ratio (k a m : Z) :
  0 < m ->
  negb (Qle_bool (Qred (inject_Z a / inject_Z m)) (inject_Z k))
  = (k * m <? a).
Proof.
  intros Hm.
  destruct (Z.ltb_spec (k * m) a) as [Hlt | Hge].
  - apply negb_true_iff.
    destruct (Qle_bool _ _) eqn:Hle; [| reflexivity].
    apply Qle_bool_iff in Hle. rewrite Qred_correct in Hle.
    exfalso. revert Hle. destruct m as [| p | p]; try lia.
    unfold Qle, Qdiv, Qmult, Qinv, inject_Z. cbn. nia.
  - apply negb_false_iff. apply Qle_bool_iff. rewrite Qred_correct.
    destruct m as [| p | p]; try lia.
    unfold Qle, Qdiv, Qmult, Qinv, inject_Z. cbn. nia.
Qed.

Lemma Q_ltb_zero (k : Z) :
  0 < k -> negb (Qle_bool (inject_Z 0) (inject_Z k)) = false.
Proof.
  intros Hk.
  apply negb_false_iff, Qle_bool_iff.
  unfold Qle, inject_Z. cbn. lia.
Qed.

(** The pool panel is hidden exactly for a score of 0 or less or a page
    without snapshots (the latest snapshot always exists otherwise). When
    shown it reads the last snapshot, and in exact arithmetic the
    competition chip is "bad" exactly when the candidates above exceed 5
    times the reference invitation size, "warn" when they exceed twice but
    not 5 times it, and "good" otherwise, in particular whenever no round
    has invitations. *)
Theorem updatePoolPosition_competition `{JSDate} (env : Env) (score : Z) :
  (updatePoolPosition (F := Q) env score = None <->
   score <= 0 \/ distributionSnapshots env = []) /\
  forall pos, updatePoolPosition (F := Q) env score = Some pos ->
    let a := pos_abovePool pos in
    let m := pos_medInv pos in
    (exists latest,
       last (distributionSnapshots env) = Some latest /\
       a = countAboveScore (F := Q) latest score /\
       pos_above pos = above_estimate (F := Q) latest score /\
       pos_total pos = snap_total latest) /\
    m = reference_invitations env /\
    (pos_compClass pos = "bad" <-> 0 < m /\ 5 * m < a) /\
    (pos_compClass pos = "warn" <-> 0 < m /\ 2 * m < a <= 5 * m) /\
    (pos_compClass pos = "good" <-> m <= 0 \/ a <= 2 * m).
Proof.
  unfold updatePoolPosition, getLatestDistribution.
  destruct (Z.leb_spec score 0) as [Hle | Hgt]; cbn [orb].
  { split; [tauto | discriminate]. }
  destruct (distributionSnapshots env) as [| s0 snaps] eqn:Hsnaps.
  { cbn. split; [tauto | discriminate]. }
  cbn [length Nat.eqb].
  destruct (last (s0 :: snaps)) as [latest |] eqn:Hlast.
  2:{ apply last_None in Hlast. discriminate. }
  split.
  { split; [discriminate | intros [? | ?]; [lia | discriminate]]. }
  intros pos [= <-]. cbv zeta.
  cbn [pos_abovePool pos_medInv pos_above pos_total pos_compClass].
  set (m := reference_invitations env).
  set (a := countAboveScore latest score).
  split; [exists latest; repeat split; reflexivity |].
  split; [reflexivity |].
  destruct (Z.ltb_spec 0 m) as [Hm | Hm].
  - rewrite !Q_ltb_ratio by exact Hm.
    destruct (Z.ltb_spec (5 * m) a); [| destruct (Z.ltb_spec (2 * m) a)];
      repeat split; intros; try discriminate; try reflexivity; try lia.
  - rewrite !Q_ltb_zero by lia.
    repeat split; intros; try discriminate; try reflexivity; try lia.
Qed.

(** The reference invitation size of the pool panel is 0 when no round of
    any category has invitations, and otherwise the (positive) invitation
    count of one of the page's rounds, of whatever category. *)
Theorem reference_invitations_is_round `{JSDate} (env : Env) :
  let rounds := flat_map Dataset.data (originalDatasets env) in
  (reference_invitations env = 0 /\
   Forall (fun d => Point.invitations d <= 0) rounds) \/
  (exists d, d ∈ rounds /\ 0 < Point.invitations d /\
             reference_invitations env = Point.invitations d).
Proof.
  cbv zeta. unfold reference_invitations. cbv zeta.
  set (rounds := flat_map Dataset.data (originalDatasets env)).
  set (fl := List.filter (fun d => 0 <? Point.invitations d) rounds).
  set (recent := slice_last 10 (sort_points fl)).
  set (recentInv := sort_by (fun n => n) (map Point.invitations recent)).
  destruct (recentInv !! (length recentInv / 2)%nat) as [z |] eqn:Hz.
  - right. cbn [default].
    apply list_elem_of_lookup_2 in Hz.
    unfold recentInv in Hz. rewrite sort_by_perm in Hz.
    apply list_elem_of_fmap in Hz as [d [-> Hd]].
    unfold recent, slice_last in Hd.
    apply subseteq_drop in Hd.
    unfold sort_points in Hd. rewrite sort_by_perm in Hd.
    unfold fl in Hd. apply list_elem_of_In, filter_In in Hd as [Hin Hpos].
    apply Z.ltb_lt in Hpos. apply list_elem_of_In in Hin.
    exists d. auto.
  - left. cbn [default]. split; [reflexivity |].
    apply lookup_ge_None in Hz.
    assert (Hlen : length recentInv = 0%nat).
    { destruct (length recentInv) as [| n] eqn:Hn; [reflexivity |].
      exfalso. assert ((S n / 2 < S n)%nat) by (apply Nat.div_lt; lia). lia. }
    unfold recentInv in Hlen. rewrite sort_by_length, length_map in Hlen.
    unfold recent, slice_last in Hlen. rewrite length_drop in Hlen.
    rewrite sort_points_length in Hlen.
    assert (Hfl : fl = []) by (destruct fl; [reflexivity | cbn in Hlen; lia]).
    apply Forall_forall. intros d Hd.
    destruct (Z.ltb_spec 0 (Point.invitations d)) as [Hpos | Hle]; [| lia].
    exfalso. assert (Hin : In d fl).
    { unfold fl. apply filter_In. split; [apply list_elem_of_In, Hd |].
      apply Z.ltb_lt, Hpos. }
    rewrite Hfl in Hin. exact Hin.
Qed.

(** On the crowded page and a score of 445 the panel reads 2100 above for
    the percentile, 2200 above for the competition against 1200
    invitations, and "good", in exact arithmetic and in binary64. *)
Lemma pool_position_example :
  updatePoolPosition (F := Q) (EnvFixtures.crowded "none") 445 =
    Some (mkPoolPosition 2100 2600 2200 1200 (11 # 6)%Q "good") /\
  option_map (fun p => (pos_above p, pos_abovePool p, pos_compClass p))
    (updatePoolPosition (F := float) (EnvFixtures.crowded "none") 445) =
    Some (2100, 2200, "good").
Proof. split; vm_compute; reflexivity. Qed.

(** ** The page generator: categories and chart datasets *)

Lemma categorize_cases (roundType : string) :
  categorize roundType ∈ categoryNames \/ categorize roundType = roundType.
Proof.
  unfold categorize. cbv zeta.
  repeat match goal with
         | |- context [if ?b then _ else _] =>
             destruct b; [left; vm_compute; set_solver |]
         end.
  right. reflexivity.
Qed.

Lemma categorize_twice (roundType : string) :
  categorize (categorize roundType) = categorize roundType.
Proof.
  unfold categorize at 2 3. cbv zeta.
  repeat match goal with
         | |- context [if ?b then _ else _] =>
             destruct b eqn:?; [vm_compute; reflexivity |]
         end.
  unfold categorize. cbv zeta.
  repeat match goal with
         | H : ?b = false |- context [if ?b then _ else _] => rewrite H
         end.
  reflexivity.
Qed.

(** [categorize] returns one of the 12 category names of [COLORS] or the
    round type unchanged, and a category is its own category: grouping the
    categories again changes nothing. *)
Theorem categorize_idempotent (roundType : string) :
  (categorize roundType ∈ categoryNames \/
   categorize roundType = roundType) /\
  categorize (categorize roundType) = categorize roundType.
Proof.
  split; [apply categorize_cases | apply categorize_twice].
Qed.

(** The order of the tests matters: a round type that names the skilled
    trades programme is not a trade occupation, and any word containing
    "stem" makes a STEM round. *)
Lemma categorize_examples :
  categorize "No Program Specified" = "General" /\
  categorize "Federal Skilled Trades" = "Federal Skilled Trades" /\
  categorize "Trade occupations (Version 1)" = "Trade Occupations" /\
  categorize "Health care system occupations" = "Healthcare Occupations" /\
  categorize "Ecosystem occupations" = "STEM Occupations" /\
  categorize "Physicians with Canadian work experience" =
    "Physicians with Canadian work experience".
Proof. repeat split; vm_compute; reflexivity. Qed.

Lemma group_push_keys (cat : string) (round : DrawRound.t)
    (g : list (string * list DrawRound.t)) (c : string) :
  c ∈ map fst (group_push cat round g) -> c = cat \/ c ∈ map fst g.
Proof.
  induction g as [| [c' rs] g IH]; cbn [group_push map fst].
  - intros Hc. apply list_elem_of_singleton in Hc. auto.
  - destruct (String.eqb_spec c' cat) as [-> | Hne]; cbn [map fst].
    + auto.
    + intros Hc. apply elem_of_cons in Hc as [-> | Hc].
      * right. left.
      * destruct (IH Hc) as [-> | Hin]; [auto | right; right; exact Hin].
Qed.

Lemma group_push_NoDup (cat : string) (round : DrawRound.t)
    (g : list (string * list DrawRound.t)) :
  NoDup (map fst g) -> NoDup (map fst (group_push cat round g)).
Proof.
  induction g as [| [c rs] g IH]; cbn [group_push map fst]; intros Hnd.
  - apply NoDup_singleton.
  - destruct (String.eqb_spec c cat) as [-> | Hne]; cbn [map fst];
      [exact Hnd |].
    apply NoDup_cons in Hnd as [Hc Hnd].
    apply NoDup_cons. split; [| exact (IH Hnd)].
    intros Hin. apply group_push_keys in Hin as [-> | Hin]; auto.
Qed.

Lemma group_push_perm (cat : string) (round : DrawRound.t)
    (g : list (string * list DrawRound.t)) :
  concat (map snd (group_push cat round g)) ≡ₚ round :: concat (map snd g).
Proof.
  induction g as [| [c rs] g IH]; cbn [group_push map snd concat].
  - reflexivity.
  - destruct (String.eqb_spec c cat) as [-> | Hne]; cbn [map snd concat].
    + rewrite <- app_assoc. cbn [app].
      rewrite <- Permutation_middle. reflexivity.
    + rewrite IH. rewrite <- Permutation_middle. reflexivity.
Qed.

Lemma group_push_in_category (round : DrawRound.t)
    (g : list (string * list DrawRound.t)) :
  Forall in_category g ->
  Forall in_category
    (group_push (categorize (DrawRound.roundType round)) round g).
Proof.
  induction 1 as [| [c rs] g [Hne Hall] Hg IH]; cbn [group_push].
  - constructor; [| constructor].
    split; cbn [fst snd]; [discriminate | repeat constructor].
  - cbn [fst snd] in *.
    destruct (String.eqb_spec c (categorize (DrawRound.roundType round)))
      as [Heq | Hneq].
    + constructor; [| exact Hg]. split; cbn [fst snd].
      * destruct rs; discriminate.
      * apply Forall_app. split; [exact Hall |].
        constructor; [symmetry; exact Heq | constructor].
    + constructor; [split; assumption | exact IH].
Qed.

Lemma grouped_invariant (rounds : list DrawRound.t)
    (g : list (string * list DrawRound.t)) :
  let g' :=
    fold_left
      (fun g round =>
         group_push (categorize (DrawRound.roundType round)) round g)
      rounds g in
  NoDup (map fst g) -> Forall in_category g ->
  NoDup (map fst g') /\ Forall in_category g' /\
  concat (map snd g') ≡ₚ (concat (map snd g) ++ rounds)%list.
Proof.
  cbv zeta. revert g.
  induction rounds as [| round rounds IH]; intros g Hnd Hcat;
    cbn [fold_left].
  - rewrite app_nil_r. auto.
  - destruct (IH _ (group_push_NoDup _ round g Hnd)
                (group_push_in_category round g Hcat)) as (H1 & H2 & H3).
    split; [exact H1 |]. split; [exact H2 |].
    rewrite H3, group_push_perm. rewrite <- Permutation_middle.
    reflexivity.
Qed.

Lemma StronglySorted_imap {A B : Type} (R : A -> A -> Prop)
    (R' : B -> B -> Prop) (f : nat -> A -> B) (l : list A) :
  (forall i j a b, R a b -> R' (f i a) (f j b)) ->
  StronglySorted R l -> StronglySorted R' (imap f l).
Proof.
  intros Hf Hs. revert f Hf.
  induction Hs as [| a l Hs IH Hall]; intros f Hf; cbn [imap].
  - constructor.
  - constructor.
    + apply IH. intros i j. apply Hf.
    + clear IH Hs. revert f Hf.
      induction Hall as [| b l Hb _ IH]; intros f Hf; cbn [imap];
        constructor.
      * apply Hf, Hb.
      * apply (IH (fun i => f (match i with 0%nat => 0%nat | S n => S (S n) end))).
        intros i j. apply Hf.
Qed.

Lemma StronglySorted_map {A B : Type} (R : A -> A -> Prop)
    (R' : B -> B -> Prop) (f : A -> B) (l : list A) :
  (forall a b, R a b -> R' (f a) (f b)) ->
  StronglySorted R l -> StronglySorted R' (map f l).
Proof.
  intros Hf. induction 1 as [| a l _ IH Hall]; cbn [map]; constructor.
  - exact IH.
  - apply Forall_map. eapply Forall_impl; [exact Hall |].
    intros b. apply Hf.
Qed.

Lemma concat_perm_pointwise {A B : Type} (f g : A -> list B) (l : list A) :
  (forall a, f a ≡ₚ g a) -> concat (map f l) ≡ₚ concat (map g l).
Proof.
  intros Hfg. induction l as [| a l IH]; cbn [map concat]; [reflexivity |].
  rewrite (Hfg a), IH. reflexivity.
Qed.

Lemma map_imap_const {A B C : Type} (g : B -> C) (f : nat -> A -> B)
    (h : A -> C) (l : list A) :
  (forall i a, g (f i a) = h a) -> map g (imap f l) = map h l.
Proof.
  intros Hgf. change (g <$> imap f l = h <$> l).
  rewrite fmap_imap, <- imap_const.
  apply imap_ext. intros i a _. apply Hgf.
Qed.

(** The chart datasets partition the rounds of the data file by category:
    the labels are distinct; the points of all datasets together are the
    rounds, each exactly once; no dataset is empty, every point of a
    dataset is of the dataset's category, and its points are in date
    order; the datasets are in order of decreasing size. *)
Theorem chartDatasets_partition `{JSDate} (rounds : list DrawRound.t) :
  let datasets := chartDatasets rounds in
  NoDup (map Dataset.label datasets) /\
  concat (map Dataset.data datasets) ≡ₚ map chart_point rounds /\
  Forall
    (fun ds =>
       Dataset.data ds <> [] /\
       Forall (fun p => categorize (Point.roundType p) = Dataset.label ds)
         (Dataset.data ds) /\
       StronglySorted (by_key (fun p => getTime (Point.x p)))
         (Dataset.data ds))
    datasets /\
  StronglySorted
    (fun a b =>
       (length (Dataset.data b) <= length (Dataset.data a))%nat)
    datasets.
Proof.
  cbv zeta. unfold chartDatasets. cbv zeta.
  destruct (grouped_invariant rounds [] (NoDup_nil_2 (A := string)) (Forall_nil_2 _))
    as (Hnd & Hcat & Hperm).
  fold (grouped rounds) in Hnd, Hcat, Hperm.
  cbn [map concat app] in Hperm.
  pose proof (sort_by_perm (fun e : string * list DrawRound.t =>
                              - Z.of_nat (length (snd e)))
                (grouped rounds)) as Hsort.
  fold (categories rounds) in Hsort.
  split; [| split; [| split]].
  - rewrite (map_imap_const _ _ fst) by reflexivity.
    rewrite Hsort. exact Hnd.
  - rewrite (map_imap_const _ _
               (fun e : string * list DrawRound.t =>
                  map chart_point
                    (sort_by (fun r => getTime (DrawRound.date r)) (snd e))))
      by reflexivity.
    rewrite (concat_perm_pointwise _
               (fun e => map chart_point (snd e)))
      by (intros e; rewrite sort_by_perm; reflexivity).
    transitivity (map chart_point (concat (map snd (categories rounds)))).
    + clear. induction (categories rounds) as [| e l IH];
        cbn [map concat]; [reflexivity |].
      rewrite map_app, IH. reflexivity.
    + apply Permutation_map.
      transitivity (concat (map snd (grouped rounds))); [| exact Hperm].
      change (concat (snd <$> categories rounds)
              ≡ₚ concat (snd <$> grouped rounds)).
      rewrite Hsort. reflexivity.
  - apply Forall_forall. intros ds Hds.
    apply elem_of_lookup_imap_1 in Hds as (i & e & -> & He).
    apply list_elem_of_lookup_2 in He. rewrite Hsort in He.
    rewrite Forall_forall in Hcat. destruct (Hcat e He) as [Hne Hall].
    cbn [Dataset.data Dataset.label].
    assert (Hp : sort_by (fun r => getTime (DrawRound.date r)) (snd e)
                 ≡ₚ snd e) by apply sort_by_perm.
    split; [| split].
    + intros Hnil. apply map_eq_nil in Hnil. rewrite Hnil in Hp.
      apply Permutation_nil in Hp. auto.
    + apply Forall_map. rewrite Hp. exact Hall.
    + apply (StronglySorted_map
               (by_key (fun r => getTime (DrawRound.date r)))).
      * intros a b Hab. exact Hab.
      * apply sort_by_sorted.
  - apply (StronglySorted_imap
             (by_key (fun e : string * list DrawRound.t =>
                        - Z.of_nat (length (snd e))))).
    + intros i j a b Hab. unfold by_key in Hab.
      cbn [Dataset.data]. rewrite !length_map, !sort_by_length. lia.
    + apply sort_by_sorted.
Qed.

Lemma chartDatasets_example :
  map (fun ds => (Dataset.label ds, map Point.roundNumber (Dataset.data ds)))
    (chartDatasets GeneratorFixtures.draws) =
  [ ("French Language Proficiency", [Some 301; Some 305]);
    ("General", [Some 303; Some 304]);
    ("Healthcare Occupations", [Some 302]) ].
Proof. vm_compute. reflexivity. Qed.

(** ** The statistics cards *)

Lemma minimum_spec (first : Z) (others : list Z) :
  minimum first others ∈ first :: others /\
  Forall (fun z => minimum first others <= z) (first :: others).
Proof.
  unfold minimum. revert first.
  induction others as [| z others IH]; intros first; cbn [fold_left].
  - split; [left | repeat constructor; lia].
  - destruct (IH (Z.min first z)) as [Hin Hall].
    apply Forall_cons in Hall as [Hmin Hall].
    split.
    + apply elem_of_cons in Hin as [-> | Hin].
      * destruct (Z.min_spec first z) as [[_ ->] | [_ ->]];
          [left | right; left].
      * right. right. exact Hin.
    + repeat constructor; [lia | lia | exact Hall].
Qed.

Lemma maximum_spec (first : Z) (others : list Z) :
  maximum first others ∈ first :: others /\
  Forall (fun z => z <= maximum first others) (first :: others).
Proof.
  unfold maximum. revert first.
  induction others as [| z others IH]; intros first; cbn [fold_left].
  - split; [left | repeat constructor; lia].
  - destruct (IH (Z.max first z)) as [Hin Hall].
    apply Forall_cons in Hall as [Hmax Hall].
    split.
    + apply elem_of_cons in Hin as [-> | Hin].
      * destruct (Z.max_spec first z) as [[_ ->] | [_ ->]];
          [right; left | left].
      * right. right. exact Hin.
    + repeat constructor; [lia | lia | exact Hall].
Qed.

Lemma StronglySorted_last {A : Type} (k : A -> Z) (l : list A) (a z : A) :
  StronglySorted (by_key k) l -> a ∈ l -> last l = Some z -> k a <= k z.
Proof.
  intros Hs. revert a z.
  induction Hs as [| b l Hs IH Hall]; intros a z Ha Hz.
  - apply elem_of_nil in Ha. contradiction.
  - destruct l as [| c l'].
    + cbn in Hz. injection Hz as <-.
      apply list_elem_of_singleton in Ha as ->. lia.
    + change (last (b :: c :: l')) with (last (c :: l')) in Hz.
      apply elem_of_cons in Ha as [-> | Ha].
      * rewrite Forall_forall in Hall. apply Hall.
        apply last_elem_of. exact Hz.
      * apply IH; assumption.
Qed.

(** The cards are left empty exactly when no round is in range. Otherwise
    the lowest and the highest score are scores of rounds in range and
    enclose the score of every round in range, the latest score among them;
    the latest round is the last in date order, and the date range runs
    from the earliest to the latest date of the rounds in range. *)
Theorem updateStats_sound `{JSDate} (env : Env) :
  (updateStats env = None <-> allRounds env = []) /\
  forall s, updateStats env = Some s ->
    roundsShown s = length (allRounds env) /\
    programTypes s = length (originalDatasets env) /\
    (exists d, d ∈ allRounds env /\ Point.y d = lowestCRS s) /\
    (exists d, d ∈ allRounds env /\ Point.y d = highestCRS s) /\
    (exists d, last (allRounds env) = Some d /\
               Point.y d = latestScore s /\ Point.x d = dateTo s /\
               Point.roundType d = latestType s) /\
    lowestCRS s <= latestScore s <= highestCRS s /\
    Forall
      (fun d =>
         lowestCRS s <= Point.y d <= highestCRS s /\
         getTime (dateFrom s) <= getTime (Point.x d) <= getTime (dateTo s))
      (allRounds env).
Proof.
  unfold updateStats.
  assert (Hsorted : StronglySorted
                      (by_key (fun d => getTime (Point.x d)))
                      (allRounds env)) by apply sort_by_sorted.
  destruct (allRounds env) as [| earliest others] eqn:Hall.
  { split; [tauto | discriminate]. }
  destruct (last (earliest :: others)) as [latest |] eqn:Hlast.
  2:{ apply last_None in Hlast. discriminate. }
  split; [split; discriminate |].
  intros s [= <-].
  cbn [roundsShown programTypes lowestCRS highestCRS latestScore latestType
       dateFrom dateTo].
  destruct (minimum_spec (Point.y earliest) (map Point.y others))
    as [Hmin_in Hmin].
  destruct (maximum_spec (Point.y earliest) (map Point.y others))
    as [Hmax_in Hmax].
  change (Point.y earliest :: map Point.y others)
    with (map Point.y (earliest :: others)) in *.
  apply list_elem_of_fmap in Hmin_in as [dmin [Hdmin Hmin_in]].
  apply list_elem_of_fmap in Hmax_in as [dmax [Hdmax Hmax_in]].
  rewrite Forall_map in Hmin, Hmax.
  rewrite Forall_forall in Hmin, Hmax.
  pose proof (last_elem_of _ _ Hlast) as Hlatest.
  split; [reflexivity |]. split; [reflexivity |].
  split; [exists dmin; auto |]. split; [exists dmax; auto |].
  split; [exists latest; auto |].
  split; [split; [apply Hmin | apply Hmax]; exact Hlatest |].
  apply Forall_forall. intros d Hd.
  split; [split; [apply Hmin | apply Hmax]; exact Hd |].
  split.
  - apply StronglySorted_inv in Hsorted as [_ Hfirst].
    apply elem_of_cons in Hd as [-> | Hd]; [lia |].
    rewrite Forall_forall in Hfirst. apply Hfirst, Hd.
  - exact (StronglySorted_last _ _ _ _ Hsorted Hd Hlast).
Qed.

Section StatsAndChart.
Context {F : Type} `{JSNumber F} `{JSDate}.

Lemma projectionOf_flag (env : Env) (ds proj : Dataset.t)
    (filtered : list Point.t) :
  projectionOf (F := F) env ds filtered = Some proj ->
  Dataset._isProjection proj = true.
Proof.
  unfold projectionOf, regressionProjection, movingAvgProjection.
  cbv zeta. intros Hproj.
  repeat match type of Hproj with
         | context [if ?b then _ else _] => destruct b
         | context [match ?o with Some _ => _ | None => _ end] =>
             destruct o
         end;
    try discriminate; injection Hproj as <-; reflexivity.
Qed.

Lemma filter_range_stats (env : Env) (ds : Dataset.t) :
  0 <= cutoff env ->
  filter_range env ds =
  List.filter
    (fun d => (cutoff env =? 0) || (cutoff env <=? getTime (Point.x d)))
    (Dataset.data ds).
Proof.
  intros Hcut. unfold filter_range.
  destruct (Z.ltb_spec 0 (cutoff env)) as [Hpos | Hzero].
  - replace (cutoff env =? 0) with false by (symmetry; apply Z.eqb_neq; lia).
    reflexivity.
  - replace (cutoff env =? 0) with true by (symmetry; apply Z.eqb_eq; lia).
    cbn [orb]. induction (Dataset.data ds) as [| d l IH]; [reflexivity |].
    cbn [List.filter]. rewrite <- IH. reflexivity.
Qed.

(** With a cutoff that is not negative, the rounds the cards are computed
    from are the observed points the chart is given, over all categories:
    "Rounds Shown" counts the points of the datasets of [buildDatasets]
    that are not projections, hidden categories included. *)
Theorem updateStats_counts_chart_points (env : Env) :
  0 <= cutoff env ->
  Forall (fun ds => Dataset._isProjection ds = false) (originalDatasets env) ->
  allRounds env ≡ₚ
  flat_map Dataset.data
    (List.filter (fun ds => negb (Dataset._isProjection ds))
       (buildDatasets (F := F) env)).
Proof.
  intros Hcut Horig. unfold allRounds, sort_points, buildDatasets.
  rewrite sort_by_perm.
  induction Horig as [| ds rest Hds _ IH]; [reflexivity |].
  cbn [flat_map]. rewrite !List.filter_app, !List.flat_map_app.
  cbn [app List.filter Dataset._isProjection]. rewrite Hds. cbn [negb].
  cbn [flat_map Dataset.data]. rewrite <- app_assoc.
  rewrite <- (filter_range_stats env ds Hcut).
  apply Permutation_app_head.
  destruct (projectionOf env ds (filter_range env ds)) as [proj |] eqn:Hproj.
  - cbn [List.filter]. rewrite (projectionOf_flag _ _ _ _ Hproj).
    cbn [negb flat_map app]. exact IH.
  - cbn [List.filter flat_map app]. exact IH.
Qed.

End StatsAndChart.

Lemma updateStats_counts_chart_points_witness :
  allRounds (MoreFixtures.three_years (EnvFixtures.sparse "linear")) ≡ₚ
  flat_map Dataset.data
    (List.filter (fun ds => negb (Dataset._isProjection ds))
       (buildDatasets (F := Q)
          (MoreFixtures.three_years (EnvFixtures.sparse "linear")))).
Proof.
  apply (updateStats_counts_chart_points (F := Q));
    [vm_compute; discriminate | repeat constructor].
Defined.

(** The cards of the sparse page: 4 rounds of 2 categories, the latest of
    two rounds of one day being the one embedded last. *)
Lemma updateStats_example :
  updateStats (EnvFixtures.sparse "off") =
    Some (mkStats 4 480 "General" 450 480 2 "2024-01-01" "2025-01-01") /\
  updateStats (EnvFixtures.later (EnvFixtures.sparse "off")) = None.
Proof. split; vm_compute; reflexivity. Qed.

(** ** The page state and its persistence in the URL *)

Lemma string_app_cons (c : ascii) (s1 s2 : string) :
  String c s1 ++ s2 = String c (s1 ++ s2).
Proof. reflexivity. Qed.

Lemma string_app_assoc (s1 s2 s3 : string) :
  (s1 ++ s2) ++ s3 = s1 ++ (s2 ++ s3).
Proof.
  induction s1 as [| c s1 IH]; [reflexivity |].
  rewrite !string_app_cons, IH. reflexivity.
Qed.

Lemma digit_char (d : Z) :
  0 <= d < 10 ->
  digit_of (ascii_of_nat (48 + Z.to_nat d)) = Some d.
Proof.
  intros Hd.
  assert (Hcases : d = 0 \/ d = 1 \/ d = 2 \/ d = 3 \/ d = 4 \/ d = 5 \/
                   d = 6 \/ d = 7 \/ d = 8 \/ d = 9) by lia.
  repeat (destruct Hcases as [-> | Hcases]; [reflexivity |]).
  subst. reflexivity.
Qed.

Lemma parse_digits_app (s1 s2 : string) (acc : option Z) :
  all_digits s1 = true ->
  parse_digits (s1 ++ s2) acc = parse_digits s2 (parse_digits s1 acc).
Proof.
  revert acc. induction s1 as [| c s1 IH]; intros acc Hall.
  - reflexivity.
  - cbn in Hall. apply andb_prop in Hall as [Hc Hall].
    unfold is_digit in Hc.
    destruct (digit_of c) as [d |] eqn:Hd; [| discriminate].
    rewrite string_app_cons. cbn [parse_digits]. rewrite Hd. apply IH, Hall.
Qed.

Lemma digits_of_acc (fuel : nat) (n : Z) (acc : string) :
  digits_of fuel n acc = digits_of fuel n EmptyString ++ acc.
Proof.
  revert n acc. induction fuel as [| fuel IH]; intros n acc;
    cbn [digits_of]; [reflexivity |].
  cbv zeta. destruct (n <? 10); [reflexivity |].
  rewrite IH. rewrite (IH _ (String _ EmptyString)).
  rewrite string_app_assoc. reflexivity.
Qed.

Lemma digits_of_spec (fuel : nat) (n : Z) :
  (0 < fuel)%nat ->
  0 <= n < 2 ^ Z.of_nat fuel ->
  let s := digits_of fuel n EmptyString in
  all_digits s = true /\ s <> EmptyString /\
  parse_digits s None = Some n.
Proof.
  cbv zeta. revert n. induction fuel as [| fuel IH]; intros n Hfuel Hn.
  - lia.
  - cbn [digits_of]. cbv zeta.
    pose proof (Z.mod_pos_bound n 10 ltac:(lia)) as Hmod.
    pose proof (digit_char (n mod 10) Hmod) as Hd.
    destruct (Z.ltb_spec n 10) as [Hsmall | Hbig].
    + rewrite Z.mod_small in * by lia.
      cbn [all_digits parse_digits]. unfold is_digit. rewrite Hd.
      cbn. split; [reflexivity |]. split; [discriminate |].
      first [reflexivity | f_equal; lia].
    + rewrite digits_of_acc.
      assert (Hn' : 0 <= n / 10 < 2 ^ Z.of_nat fuel).
      { split; [apply Z.div_pos; lia |].
        apply Z.div_lt_upper_bound; [lia |].
        rewrite Nat2Z.inj_succ, Z.pow_succ_r in Hn by lia. lia. }
      assert (Hfuel' : (0 < fuel)%nat).
      { destruct fuel; [| lia]. cbn in Hn'.
        assert (1 <= n / 10) by (apply Z.div_le_lower_bound; lia). lia. }
      destruct (IH _ Hfuel' Hn') as (Hall & Hne & Hparse).
      split; [| split].
      * clear Hparse Hne. revert Hall.
        generalize (digits_of fuel (n / 10) EmptyString) as s.
        induction s as [| c s IHs]; intros Hall.
        -- change (EmptyString ++ ?x) with x.
           cbn [all_digits]. unfold is_digit. rewrite Hd. reflexivity.
        -- cbn in Hall. apply andb_prop in Hall as [Hc Hall].
           rewrite string_app_cons. cbn [all_digits].
           rewrite Hc. apply IHs, Hall.
      * destruct (digits_of fuel (n / 10) EmptyString);
          [contradiction | discriminate].
      * rewrite parse_digits_app by exact Hall. rewrite Hparse.
        cbn [parse_digits]. rewrite Hd. cbn [default]. f_equal.
        unfold id. pose proof (Z.div_mod n 10 ltac:(lia)). lia.
Qed.

Lemma toString_spec (n : Z) :
  0 <= n ->
  all_digits (toString n) = true /\ toString n <> EmptyString /\
  parse_digits (toString n) None = Some n.
Proof.
  intros Hn. unfold toString.
  destruct (Z.ltb_spec n 0) as [| _]; [lia |].
  apply digits_of_spec; [lia |]. split; [exact Hn |].
  destruct (Z.eq_dec n 0) as [-> | Hnz]; [cbn; lia |].
  rewrite Nat2Z.inj_succ, Z2Nat.id by apply Z.log2_nonneg.
  apply Z.log2_spec. lia.
Qed.

Lemma all_digits_head (s : string) :
  all_digits s = true -> s <> EmptyString -> skip_spaces s = s /\
  match s with
  | String c _ => c <> "-"%char /\ c <> "+"%char
  | EmptyString => True
  end.
Proof.
  destruct s as [| c s]; [contradiction |]. cbn. intros Hall _.
  apply andb_prop in Hall as [Hc _]. unfold is_digit, digit_of in Hc.
  cbv zeta in Hc.
  destruct ((48 <=? Z.of_nat (nat_of_ascii c)) &&
            (Z.of_nat (nat_of_ascii c) <=? 57)) eqn:Hrange;
    [| discriminate].
  apply andb_prop in Hrange as [Hlo Hhi].
  apply Z.leb_le in Hlo, Hhi.
  unfold is_space. cbv zeta.
  replace ((9 <=? nat_of_ascii c)%nat && (nat_of_ascii c <=? 13)%nat)
    with false
    by (symmetry; apply andb_false_iff; right; apply Nat.leb_gt; lia).
  replace (nat_of_ascii c =? 32)%nat with false
    by (symmetry; apply Nat.eqb_neq; lia).
  cbn [orb]. split; [reflexivity |].
  split; intros ->; vm_compute in Hlo; apply Hlo; reflexivity.
Qed.

Lemma parseInt10_toString (n : Z) :
  0 <= n -> parseInt10 (toString n) = Some n.
Proof.
  intros Hn. destruct (toString_spec n Hn) as (Hall & Hne & Hparse).
  destruct (all_digits_head _ Hall Hne) as [Hskip Hhead].
  unfold parseInt10. rewrite Hskip.
  destruct (toString n) as [| c s]; [contradiction |].
  destruct Hhead as [Hminus Hplus].
  unfold parseInt.
  destruct c as [[] [] [] [] [] [] [] []]; try exact Hparse;
    contradiction.
Qed.

Lemma digit_not_comma (c : ascii) : is_digit c = true -> Ascii.eqb c "," = false.
Proof.
  intros Hc. destruct (Ascii.eqb_spec c ","%char) as [-> | _];
    [discriminate | reflexivity].
Qed.

Lemma split_digits (s : string) :
  all_digits s = true -> split "," s = [s].
Proof.
  induction s as [| c s IH]; [reflexivity |]. cbn [all_digits split].
  intros Hall. apply andb_prop in Hall as [Hc Hall].
  rewrite (digit_not_comma c Hc), (IH Hall). reflexivity.
Qed.

Lemma split_digits_comma (s rest : string) :
  all_digits s = true ->
  split "," (s ++ String "," rest) = s :: split "," rest.
Proof.
  induction s as [| c s IH]; intros Hall.
  - reflexivity.
  - cbn [all_digits] in Hall. apply andb_prop in Hall as [Hc Hall].
    rewrite string_app_cons. cbn [split].
    rewrite (digit_not_comma c Hc), (IH Hall). reflexivity.
Qed.

Lemma split_join_digits (l : list string) :
  l <> [] -> Forall (fun s => all_digits s = true) l ->
  split "," (join "," l) = l.
Proof.
  intros Hne Hall. induction Hall as [| s l Hs Hl IH]; [contradiction |].
  destruct l as [| s' l'].
  - cbn [join]. apply split_digits, Hs.
  - change (join "," (s :: s' :: l'))
      with (s ++ String "," (join "," (s' :: l'))).
    rewrite (split_digits_comma _ _ Hs), IH by discriminate. reflexivity.
Qed.

Lemma join_digits_nonempty (l : list string) :
  l <> [] -> Forall (fun s => s <> EmptyString) l ->
  join "," l <> EmptyString.
Proof.
  intros Hne Hall. destruct Hall as [| s l Hs Hl]; [contradiction |].
  destruct l as [| s' l']; [exact Hs |].
  change (join "," (s :: s' :: l'))
    with (s ++ String "," (join "," (s' :: l'))).
  destruct s; [contradiction | discriminate].
Qed.

Lemma restore_hidden_from (datasets : list Dataset.t) (hide : list string)
    (start : gset string) (label : string) :
  label ∈ fold_left
    (fun hidden idx =>
       match dataset_at datasets (parseInt10 idx) with
       | Some ds => {[ Dataset.label ds ]} ∪ hidden
       | None => hidden
       end)
    hide start <->
  label ∈ start \/
  exists idx ds, idx ∈ hide /\
    dataset_at datasets (parseInt10 idx) = Some ds /\
    Dataset.label ds = label.
Proof.
  revert start. induction hide as [| idx hide IH]; intros start;
    cbn [fold_left].
  - split; [auto | intros [Hin | (idx & ds & Hidx & _)]; [exact Hin |]].
    apply elem_of_nil in Hidx. contradiction.
  - rewrite IH. split.
    + intros [Hin | (idx' & ds & Hidx & Hds & Hlabel)].
      * destruct (dataset_at datasets (parseInt10 idx)) as [ds |] eqn:Hds;
          [| auto].
        apply elem_of_union in Hin as [Hin | Hin]; [| auto].
        apply elem_of_singleton in Hin. right. exists idx, ds.
        split; [left | auto].
      * right. exists idx', ds. split; [right; exact Hidx | auto].
    + intros [Hin | (idx' & ds & Hidx & Hds & Hlabel)].
      * left. destruct (dataset_at datasets (parseInt10 idx)); [| exact Hin].
        apply elem_of_union. auto.
      * apply elem_of_cons in Hidx as [-> | Hidx].
        -- left. rewrite Hds. apply elem_of_union. left.
           apply elem_of_singleton. auto.
        -- right. exists idx', ds. auto.
Qed.

Lemma restore_hidden_spec (datasets : list Dataset.t) (hide : list string)
    (label : string) :
  label ∈ restore_hidden datasets hide <->
  exists idx ds, idx ∈ hide /\
    dataset_at datasets (parseInt10 idx) = Some ds /\
    Dataset.label ds = label.
Proof.
  unfold restore_hidden. rewrite restore_hidden_from.
  split; [intros [Hin | Hex]; [| exact Hex] | auto].
  apply elem_of_empty in Hin. contradiction.
Qed.

Lemma dataset_at_label (datasets : list Dataset.t) (i : option Z)
    (ds : Dataset.t) :
  dataset_at datasets i = Some ds ->
  Dataset.label ds ∈ map Dataset.label datasets.
Proof.
  unfold dataset_at. destruct i as [i |]; [| discriminate].
  destruct (i <? 0); [discriminate |]. intros Hds.
  apply list_elem_of_fmap. exists ds. split; [reflexivity |].
  apply list_elem_of_lookup_2 in Hds. exact Hds.
Qed.

Lemma hidden_indices_spec (env : Env) (i : nat) :
  i ∈ hidden_indices env <->
  exists ds, originalDatasets env !! i = Some ds /\
             Dataset.label ds ∈ hiddenCategories env.
Proof.
  unfold hidden_indices. rewrite list_elem_of_omap. split.
  - intros ([j ds] & Hin & Hsome). cbn [fst snd] in Hsome.
    destruct (bool_decide_reflect (Dataset.label ds ∈ hiddenCategories env))
      as [Hh |]; [| discriminate].
    injection Hsome as ->.
    apply elem_of_lookup_imap in Hin as (k & d & [= -> ->] & Hk).
    exists d. auto.
  - intros (ds & Hds & Hh). exists (i, ds). split.
    + apply elem_of_lookup_imap. exists i, ds. auto.
    + cbn [fst snd]. rewrite bool_decide_eq_true_2 by exact Hh. reflexivity.
Qed.

Lemma nonempty_true (s : string) : s <> EmptyString -> nonempty s = true.
Proof.
  intros Hs. unfold nonempty. apply negb_true_iff, String.eqb_neq, Hs.
Qed.

Lemma get_or_nonempty (p : Query) (name fallback : string) :
  fallback <> EmptyString -> get_or p name fallback <> EmptyString.
Proof.
  intros Hf. unfold get_or. destruct (p !! name) as [v |]; [| exact Hf].
  unfold nonempty. destruct (String.eqb_spec v EmptyString); cbn [negb];
    assumption.
Qed.

Lemma initPage_invariant (datasets : list Dataset.t)
    (snapshots : list Snapshot) (clock : Z) (p : Query) :
  page_invariant (initPage datasets snapshots clock p).
Proof.
  unfold page_invariant, initPage, readURL. cbv zeta.
  cbn [page_env hiddenCategories originalDatasets timeRange projectionMode
       currentTheme InitState.range InitState.proj InitState.hide
       InitState.theme].
  split; [| repeat split; apply get_or_nonempty; discriminate].
  intros label Hin. apply restore_hidden_spec in Hin
    as (idx & ds & _ & Hds & <-).
  exact (dataset_at_label _ _ _ Hds).
Qed.

Lemma fold_hide_all (datasets : list Dataset.t) (start : gset string)
    (label : string) :
  label ∈ fold_left (fun hidden ds => {[ Dataset.label ds ]} ∪ hidden)
            datasets start <->
  label ∈ start \/ label ∈ map Dataset.label datasets.
Proof.
  revert start. induction datasets as [| ds datasets IH]; intros start;
    cbn [fold_left map].
  - split; [auto | intros [? | Hin]; [assumption |]].
    apply elem_of_nil in Hin. contradiction.
  - rewrite IH, elem_of_union, elem_of_singleton, elem_of_cons. tauto.
Qed.

Ltac not_a_button H :=
  apply bool_decide_eq_true_1 in H;
  repeat (apply elem_of_cons in H as [H | H]; [discriminate H |]);
  apply elem_of_nil in H; contradiction.

Lemma handle_invariant (pg pg' : Page) (ev : Event) :
  page_invariant pg -> button_value ev = true -> handle pg ev = Some pg' ->
  page_invariant pg' /\
  originalDatasets (page_env pg') = originalDatasets (page_env pg) /\
  distributionSnapshots (page_env pg') = distributionSnapshots (page_env pg) /\
  now (page_env pg') = now (page_env pg).
Proof.
  intros (Hhid & Hrange & Hproj & Htheme) Hbutton Hstep.
  destruct ev as [origIdx | | range | proj | theme | value];
    cbn [handle button_value] in Hstep, Hbutton.
  - unfold toggleDataset in Hstep. cbv zeta in Hstep.
    destruct (originalDatasets (page_env pg) !! origIdx) as [ds |] eqn:Hds;
      [| discriminate].
    injection Hstep as <-. split; [| auto].
    split; [| auto].
    cbn [with_hidden page_env hiddenCategories originalDatasets].
    intros label Hin.
    destruct (bool_decide (Dataset.label ds ∈ hiddenCategories (page_env pg))).
    + apply elem_of_difference in Hin as [Hin _]. auto.
    + apply elem_of_union in Hin as [Hin | Hin]; [| auto].
      apply elem_of_singleton in Hin as ->.
      apply list_elem_of_fmap. exists ds. split; [reflexivity |].
      apply list_elem_of_lookup_2 in Hds. exact Hds.
  - injection Hstep as <-. split; [| auto]. split; [| auto].
    unfold toggleAll. cbv zeta.
    cbn [with_hidden page_env hiddenCategories originalDatasets].
    intros label Hin.
    destruct (size (hiddenCategories (page_env pg)) =? 0)%nat.
    + apply fold_hide_all in Hin as [Hin | Hin]; auto.
    + apply elem_of_empty in Hin. contradiction.
  - injection Hstep as <-. split; [| auto].
    split; [exact Hhid |]. split; [| auto].
    cbn [setTimeRange page_env timeRange].
    intros ->. not_a_button Hbutton.
  - injection Hstep as <-. split; [| auto].
    split; [exact Hhid |]. split; [exact Hrange |]. split; [| exact Htheme].
    cbn [setProjectionMode page_env projectionMode].
    intros ->. not_a_button Hbutton.
  - injection Hstep as <-. split; [| auto].
    split; [exact Hhid |]. split; [exact Hrange |]. split; [exact Hproj |].
    cbn [setTheme currentTheme].
    intros ->. not_a_button Hbutton.
  - injection Hstep as <-. split; [| auto].
    repeat split; assumption.
Qed.

Ltac writeURL_lookup :=
  unfold writeURL; cbv zeta;
  repeat match goal with
         | |- context [if ?b then _ else _] => destruct b
         | |- context [match ?o with Some _ => _ | None => _ end] =>
             destruct o
         end;
  repeat first [ rewrite lookup_insert_eq
               | rewrite lookup_insert_ne by (intros ?; discriminate)
               | rewrite lookup_empty ];
  reflexivity.

Lemma writeURL_range (pg : Page) :
  writeURL pg !! "range" =
  if String.eqb (timeRange (page_env pg)) "all" then None
  else Some (timeRange (page_env pg)).
Proof. writeURL_lookup. Qed.

Lemma writeURL_proj (pg : Page) :
  writeURL pg !! "proj" =
  if String.eqb (projectionMode (page_env pg)) "off" then None
  else Some (projectionMode (page_env pg)).
Proof. writeURL_lookup. Qed.

Lemma writeURL_theme (pg : Page) :
  writeURL pg !! "theme" =
  if String.eqb (currentTheme pg) "auto" then None
  else Some (currentTheme pg).
Proof. writeURL_lookup. Qed.

Lemma writeURL_score (pg : Page) :
  writeURL pg !! "score" =
  match userScore pg with
  | Some n => if 0 <? n then Some (toString n) else None
  | None => None
  end.
Proof. writeURL_lookup. Qed.

Lemma writeURL_hide (pg : Page) :
  writeURL pg !! "hide" =
  if (0 <? size (hiddenCategories (page_env pg)))%nat
  then Some (join "," (map (fun i => toString (Z.of_nat i))
                         (hidden_indices (page_env pg))))
  else None.
Proof. writeURL_lookup. Qed.

Lemma get_or_written (p : Query) (name fallback value : string) :
  value <> EmptyString ->
  p !! name = (if String.eqb value fallback then None else Some value) ->
  get_or p name fallback = value.
Proof.
  intros Hne Hp. unfold get_or. rewrite Hp.
  destruct (String.eqb_spec value fallback) as [-> | _]; [reflexivity |].
  rewrite nonempty_true by exact Hne. reflexivity.
Qed.

Lemma restore_written_hidden (env : Env) :
  (forall label, label ∈ hiddenCategories env ->
     label ∈ map Dataset.label (originalDatasets env)) ->
  restore_hidden (originalDatasets env)
    (match (if (0 <? size (hiddenCategories env))%nat
            then Some (join "," (map (fun i => toString (Z.of_nat i))
                                   (hidden_indices env)))
            else None) with
     | Some v =>
         if nonempty v then List.filter nonempty (split ","%char v) else []
     | None => []
     end)
  = hiddenCategories env.
Proof.
  intros Hsub.
  destruct (Nat.ltb_spec 0 (size (hiddenCategories env))) as [Hsize | Hsize].
  2:{ assert (Hempty : hiddenCategories env = ∅).
      { apply leibniz_equiv, size_empty_inv. lia. }
      rewrite Hempty. reflexivity. }
  set (written := map (fun i => toString (Z.of_nat i)) (hidden_indices env)).
  assert (Hdigits : Forall (fun s => all_digits s = true) written).
  { apply Forall_map, Forall_forall. intros i _.
    apply toString_spec. lia. }
  assert (Hfull : Forall (fun s => s <> EmptyString) written).
  { apply Forall_map, Forall_forall. intros i _.
    apply toString_spec. lia. }
  assert (Hsome : written <> []).
  { apply size_pos_elem_of in Hsize as [label Hlabel].
    pose proof (Hsub label Hlabel) as Hin.
    apply list_elem_of_fmap in Hin as [ds [-> Hds]].
    apply list_elem_of_lookup in Hds as [i Hi].
    assert (Hidx : i ∈ hidden_indices env)
      by (apply hidden_indices_spec; eauto).
    unfold written. intros Hnil. apply map_eq_nil in Hnil.
    rewrite Hnil in Hidx. apply elem_of_nil in Hidx. exact Hidx. }
  rewrite (nonempty_true _ (join_digits_nonempty _ Hsome Hfull)).
  rewrite (split_join_digits _ Hsome Hdigits).
  assert (Hkeep : List.filter nonempty written = written).
  { clear Hsome Hdigits. induction Hfull as [| s l Hs _ IH];
      [reflexivity |].
    cbn [List.filter]. rewrite (nonempty_true s Hs), IH. reflexivity. }
  rewrite Hkeep.
  apply set_eq. intros label. rewrite restore_hidden_spec. split.
  - intros (idx & ds & Hidx & Hds & <-).
    unfold written in Hidx. apply list_elem_of_fmap in Hidx as [i [-> Hi]].
    rewrite parseInt10_toString in Hds by lia.
    unfold dataset_at in Hds.
    destruct (Z.ltb_spec (Z.of_nat i) 0) as [| _]; [lia |].
    rewrite Nat2Z.id in Hds.
    apply hidden_indices_spec in Hi as (ds' & Hds' & Hhidden).
    rewrite Hds' in Hds. injection Hds as <-. exact Hhidden.
  - intros Hlabel. pose proof (Hsub label Hlabel) as Hin.
    apply list_elem_of_fmap in Hin as [ds [-> Hds]].
    apply list_elem_of_lookup in Hds as [i Hi].
    exists (toString (Z.of_nat i)), ds. split; [| split; [| reflexivity]].
    + unfold written. apply list_elem_of_fmap. exists i.
      split; [reflexivity |]. apply hidden_indices_spec. eauto.
    + rewrite parseInt10_toString by lia. unfold dataset_at.
      destruct (Z.ltb_spec (Z.of_nat i) 0) as [| _]; [lia |].
      rewrite Nat2Z.id. exact Hi.
Qed.

Lemma writeURL_round_trip (pg : Page) (n : Z) :
  page_invariant pg ->
  userScore pg = Some n -> 0 <= n ->
  initPage (originalDatasets (page_env pg))
    (distributionSnapshots (page_env pg)) (now (page_env pg))
    (writeURL pg) = pg.
Proof.
  intros (Hhid & Hrange & Hproj & Htheme) Hscore Hn.
  destruct pg as [[datasets snapshots proj range hidden clock] score theme].
  cbn [page_env userScore currentTheme originalDatasets
       distributionSnapshots now timeRange projectionMode hiddenCategories]
    in *.
  subst score. unfold initPage, readURL. cbv zeta.
  cbn [InitState.range InitState.proj InitState.hide InitState.score
       InitState.theme].
  rewrite (get_or_written _ "range" "all" range Hrange)
    by apply writeURL_range.
  rewrite (get_or_written _ "proj" "off" proj Hproj) by apply writeURL_proj.
  rewrite (get_or_written _ "theme" "auto" theme Htheme)
    by apply writeURL_theme.
  rewrite writeURL_hide.
  cbn [page_env hiddenCategories].
  pose proof (restore_written_hidden
                (mkEnv datasets snapshots proj range hidden clock) Hhid)
    as Hrestore.
  cbn [originalDatasets hiddenCategories] in Hrestore. rewrite Hrestore.
  f_equal.
  unfold get_or. rewrite writeURL_score. cbn [userScore].
  destruct (Z.ltb_spec 0 n) as [Hpos | Hzero].
  - destruct (toString_spec n Hn) as (_ & Hfull & _).
    rewrite !(nonempty_true _ Hfull). apply parseInt10_toString, Hn.
  - cbn. f_equal. lia.
Qed.

Lemma run_snoc (pg : Page) (events : list Event) (ev : Event) :
  run pg (events ++ [ev]) = run pg events ≫= fun pg' => handle pg' ev.
Proof. unfold run. rewrite foldl_app. reflexivity. Qed.

Lemma run_invariant (pg pg' : Page) (events : list Event) :
  page_invariant pg ->
  Forall (fun ev => button_value ev = true) events ->
  run pg events = Some pg' ->
  page_invariant pg' /\
  originalDatasets (page_env pg') = originalDatasets (page_env pg) /\
  distributionSnapshots (page_env pg') = distributionSnapshots (page_env pg) /\
  now (page_env pg') = now (page_env pg).
Proof.
  intros Hinv. revert pg'.
  induction events as [| ev events IH] using rev_ind; intros pg' Hbuttons Hrun.
  - injection Hrun as <-. auto.
  - apply Forall_app in Hbuttons as [Hbuttons Hev].
    apply Forall_cons in Hev as [Hev _].
    rewrite run_snoc in Hrun.
    destruct (run pg events) as [mid |] eqn:Hmid; [| discriminate].
    cbn in Hrun.
    destruct (IH mid Hbuttons eq_refl) as (Hinv' & Hd & Hs & Hn).
    destruct (handle_invariant mid pg' ev Hinv' Hev Hrun)
      as (Hinv'' & Hd' & Hs' & Hn').
    split; [exact Hinv'' |]. rewrite Hd', Hs', Hn'. auto.
Qed.

Lemma run_defined (pg : Page) (events : list Event) :
  Forall (fun ev =>
            match ev with
            | ClickCategory origIdx =>
                (origIdx < length (originalDatasets (page_env pg)))%nat
            | _ => True
            end) events ->
  exists pg', run pg events = Some pg' /\
              originalDatasets (page_env pg') = originalDatasets (page_env pg).
Proof.
  induction events as [| ev events IH] using rev_ind; intros Hidx.
  - exists pg. auto.
  - apply Forall_app in Hidx as [Hidx Hev].
    apply Forall_cons in Hev as [Hev _].
    destruct (IH Hidx) as (mid & Hmid & Hd).
    rewrite run_snoc, Hmid. cbn [mbind option_bind].
    destruct ev as [origIdx | | range | proj | theme | value];
      cbn [handle]; try (eexists; split; [reflexivity | exact Hd]).
    unfold toggleDataset. cbv zeta. rewrite Hd.
    destruct (lookup_lt_is_Some_2 _ _ Hev) as [ds ->].
    eexists. split; [reflexivity | exact Hd].
Qed.

(** Whatever the URL of the visit and whatever is clicked or typed
    afterwards, no handler throws as long as the category buttons clicked
    exist, and in every state reached only categories of the page are
    hidden, the time range, projection mode and theme are not empty, and
    the embedded data and the clock are untouched. *)
Theorem page_invariant_reachable (datasets : list Dataset.t)
    (snapshots : list Snapshot) (clock : Z) (p : Query)
    (events : list Event) :
  Forall (fun ev => button_value ev = true) events ->
  (Forall (fun ev =>
             match ev with
             | ClickCategory origIdx => (origIdx < length datasets)%nat
             | _ => True
             end) events ->
   is_Some (run (initPage datasets snapshots clock p) events)) /\
  forall pg, run (initPage datasets snapshots clock p) events = Some pg ->
    page_invariant pg /\
    originalDatasets (page_env pg) = datasets /\
    distributionSnapshots (page_env pg) = snapshots /\
    now (page_env pg) = clock.
Proof.
  intros Hbuttons. split.
  - intros Hidx.
    destruct (run_defined (initPage datasets snapshots clock p) events Hidx)
      as (pg & Hrun & _).
    rewrite Hrun. eauto.
  - intros pg Hrun.
    exact (run_invariant _ _ _ (initPage_invariant _ _ _ _) Hbuttons Hrun).
Qed.

Lemma page_invariant_reachable_witness :
  Forall (fun ev => button_value ev = true) PageFixtures.clicks /\
  page_invariant PageFixtures.after_clicks.
Proof.
  assert (Hbuttons : Forall (fun ev => button_value ev = true)
                       PageFixtures.clicks) by (repeat constructor).
  split; [exact Hbuttons |].
  destruct (page_invariant_reachable
              (originalDatasets (EnvFixtures.sparse "off"))
              (distributionSnapshots (EnvFixtures.sparse "off"))
              (now (EnvFixtures.sparse "off"))
              PageFixtures.visit PageFixtures.clicks Hbuttons)
    as [_ Hreach].
  apply (Hreach PageFixtures.after_clicks). vm_compute. reflexivity.
Defined.

(** The URL restores the page: in every state reached from a visit in
    which the score is a non-negative safe integer, loading the URL that
    [writeURL] wrote yields that same state (time range, projection mode,
    hidden categories, score and theme). *)
Theorem url_restores_state (datasets : list Dataset.t)
    (snapshots : list Snapshot) (clock : Z) (p : Query)
    (events : list Event) (pg : Page) (n : Z) :
  Forall (fun ev => button_value ev = true) events ->
  run (initPage datasets snapshots clock p) events = Some pg ->
  userScore pg = Some n -> 0 <= n < 2 ^ 53 ->
  initPage datasets snapshots clock (writeURL pg) = pg.
Proof.
  intros Hbuttons Hrun Hscore Hn.
  destruct (run_invariant _ _ _ (initPage_invariant _ _ _ _) Hbuttons Hrun)
    as (Hinv & Hd & Hs & Hc).
  cbn [initPage page_env originalDatasets distributionSnapshots now]
    in Hd, Hs, Hc.
  rewrite <- Hd, <- Hs, <- Hc at 1.
  apply (writeURL_round_trip pg n Hinv Hscore). lia.
Qed.

(** A score typed in is between 0 and 1200. *)
Lemma scoreInput_range (pg : Page) (value : string) :
  exists n, userScore (scoreInput pg value) = Some n /\ 0 <= n <= 1200.
Proof.
  unfold scoreInput. cbv zeta. cbn [userScore].
  destruct (parseInt10 value) as [v |]; [| exists 0; split; [auto | lia]].
  destruct (Z.leb_spec 0 v); cbn [andb];
    [| exists 0; split; [auto | lia]].
  destruct (Z.leb_spec v 1200); [exists v | exists 0]; split; auto; lia.
Qed.

Lemma url_restores_state_witness :
  initPage (originalDatasets (EnvFixtures.sparse "off"))
    (distributionSnapshots (EnvFixtures.sparse "off"))
    (now (EnvFixtures.sparse "off"))
    (writeURL PageFixtures.after_clicks) = PageFixtures.after_clicks.
Proof.
  apply (url_restores_state _ _ _ PageFixtures.visit PageFixtures.clicks
           PageFixtures.after_clicks 470);
    [repeat constructor | vm_compute; reflexivity | reflexivity | lia].
Defined.

(** A score in the URL is not held to the bounds of the input, and a
    negative one is lost on the way back: the page keeps -5 and writes no
    score. *)
Lemma url_score_examples :
  userScore (initPage [] [] 0 (<["score" := "5000"]> ∅)) = Some 5000 /\
  userScore (initPage [] [] 0 (<["score" := "-5"]> ∅)) = Some (-5) /\
  writeURL (initPage [] [] 0 (<["score" := "-5"]> ∅)) = ∅ /\
  userScore (initPage [] [] 0 (<["score" := "abc"]> ∅)) = None.
Proof. repeat split; vm_compute; reflexivity. Qed.

Lemma with_hidden_same (pg : Page) :
  with_hidden pg (hiddenCategories (page_env pg)) = pg.
Proof. destruct pg as [[] ? ?]. reflexivity. Qed.

Lemma with_hidden_twice (pg : Page) (h1 h2 : gset string) :
  with_hidden (with_hidden pg h1) h2 = with_hidden pg h2.
Proof. reflexivity. Qed.

Lemma hide_all_labels (datasets : list Dataset.t) :
  fold_left (fun hidden ds => {[ Dataset.label ds ]} ∪ hidden) datasets
    (∅ : gset string)
  = list_to_set (map Dataset.label datasets).
Proof.
  apply set_eq. intros label.
  rewrite fold_hide_all, elem_of_list_to_set, elem_of_empty. tauto.
Qed.

(** A second click on a category button undoes the first. "All" hides
    every category when none is hidden, and a second click then shows them
    again; with any category hidden it shows all; three clicks on "All" do
    what one does. *)
Theorem toggles_undo (pg : Page) :
  (forall origIdx pg',
     toggleDataset pg origIdx = Some pg' ->
     toggleDataset pg' origIdx = Some pg) /\
  (hiddenCategories (page_env pg) = ∅ ->
   hiddenCategories (page_env (toggleAll pg)) =
     list_to_set (map Dataset.label (originalDatasets (page_env pg))) /\
   toggleAll (toggleAll pg) = pg) /\
  (hiddenCategories (page_env pg) <> ∅ ->
   hiddenCategories (page_env (toggleAll pg)) = ∅) /\
  toggleAll (toggleAll (toggleAll pg)) = toggleAll pg.
Proof.
  assert (Hall : forall pg : Page,
            hiddenCategories (page_env pg) = ∅ ->
            hiddenCategories (page_env (toggleAll pg)) =
              list_to_set (map Dataset.label (originalDatasets (page_env pg)))
            /\ toggleAll (toggleAll pg) = pg).
  { clear pg. intros pg Hempty.
    assert (Hfirst : toggleAll pg =
              with_hidden pg
                (list_to_set
                   (map Dataset.label (originalDatasets (page_env pg))))).
    { unfold toggleAll. cbv zeta. rewrite Hempty, size_empty.
      cbn [Nat.eqb]. rewrite hide_all_labels. reflexivity. }
    split; [rewrite Hfirst; reflexivity |].
    rewrite Hfirst. unfold toggleAll at 1. cbv zeta.
    cbn [with_hidden page_env hiddenCategories originalDatasets].
    destruct (Nat.eqb_spec
                (size (list_to_set (C := gset string)
                         (map Dataset.label (originalDatasets (page_env pg)))))
                0) as [Hzero | Hpos].
    - apply size_empty_inv in Hzero. apply leibniz_equiv in Hzero.
      rewrite Hzero, hide_all_labels, Hzero.
      rewrite with_hidden_twice, <- Hempty. apply with_hidden_same.
    - rewrite with_hidden_twice, <- Hempty. apply with_hidden_same. }
  assert (Hclear : forall pg : Page,
            hiddenCategories (page_env pg) <> ∅ ->
            toggleAll pg = with_hidden pg ∅).
  { clear pg. intros pg Hsome. unfold toggleAll. cbv zeta.
    destruct (Nat.eqb_spec (size (hiddenCategories (page_env pg))) 0)
      as [Hzero | _]; [| reflexivity].
    apply size_empty_inv, leibniz_equiv in Hzero. contradiction. }
  split; [| split; [apply Hall | split]].
  - intros origIdx pg' Htoggle. unfold toggleDataset in *. cbv zeta in *.
    destruct (originalDatasets (page_env pg) !! origIdx) as [ds |] eqn:Hds;
      [| discriminate].
    injection Htoggle as <-.
    cbn [with_hidden page_env originalDatasets hiddenCategories].
    rewrite Hds. f_equal. rewrite with_hidden_twice.
    transitivity (with_hidden pg (hiddenCategories (page_env pg)));
      [| apply with_hidden_same].
    f_equal.
    destruct (bool_decide_reflect
                (Dataset.label ds ∈ hiddenCategories (page_env pg)))
      as [Hin | Hout].
    + rewrite bool_decide_eq_false_2.
      2:{ intros Hx. apply elem_of_difference in Hx as [_ Hx].
          apply Hx, elem_of_singleton. reflexivity. }
      apply set_eq. intros x.
      rewrite elem_of_union, elem_of_difference, elem_of_singleton.
      destruct (decide (x = Dataset.label ds)) as [-> | Hne]; tauto.
    + rewrite bool_decide_eq_true_2.
      2:{ apply elem_of_union. left. apply elem_of_singleton. reflexivity. }
      apply set_eq. intros x.
      rewrite elem_of_difference, elem_of_union, elem_of_singleton.
      destruct (decide (x = Dataset.label ds)) as [-> | Hne]; tauto.
  - intros Hsome. rewrite (Hclear pg Hsome). reflexivity.
  - destruct (decide (hiddenCategories (page_env pg) = ∅)) as [Hempty | Hsome].
    + destruct (Hall pg Hempty) as [_ ->]. reflexivity.
    + rewrite (Hclear pg Hsome).
      exact (proj2 (Hall (with_hidden pg ∅) eq_refl)).
Qed.

(** ** Hiding datasets on the chart *)

Lemma string_length_app (s1 s2 : string) :
  String.length (s1 ++ s2) = (String.length s1 + String.length s2)%nat.
Proof.
  induction s1 as [| c s1 IH]; [reflexivity |].
  rewrite string_app_cons. cbn [String.length]. rewrite IH. reflexivity.
Qed.

Lemma substring_all (s : string) : substring 0 (String.length s) s = s.
Proof.
  induction s as [| c s IH]; [reflexivity |].
  cbn [String.length substring]. rewrite IH. reflexivity.
Qed.

Lemma substring_app_r (s1 s2 : string) :
  substring (String.length s1) (String.length s2) (s1 ++ s2) = s2.
Proof.
  induction s1 as [| c s1 IH]; [apply substring_all |].
  rewrite string_app_cons. cbn [String.length substring]. exact IH.
Qed.

Lemma substring_app_l (s1 s2 : string) :
  substring 0 (String.length s1) (s1 ++ s2) = s1.
Proof.
  induction s1 as [| c s1 IH].
  - cbn [String.length]. destruct (EmptyString ++ s2); reflexivity.
  - rewrite string_app_cons. cbn [String.length substring].
    rewrite IH. reflexivity.
Qed.

Lemma endsWith_app (s suffix : string) : endsWith (s ++ suffix) suffix = true.
Proof.
  unfold endsWith. rewrite string_length_app.
  apply andb_true_intro. split; [apply Nat.leb_le; lia |].
  replace (String.length s + String.length suffix - String.length suffix)%nat
    with (String.length s) by lia.
  rewrite substring_app_r. apply String.eqb_refl.
Qed.

Lemma endsWith_get (s suffix : string) (k : nat) :
  endsWith s suffix = true -> (k < String.length suffix)%nat ->
  String.get (k + (String.length s - String.length suffix)) s
  = String.get k suffix.
Proof.
  unfold endsWith. intros Hends Hk.
  apply andb_prop in Hends as [_ Heq]. apply String.eqb_eq in Heq.
  transitivity
    (String.get k
       (substring (String.length s - String.length suffix)
          (String.length suffix) s)).
  - symmetry. apply substring_correct1. exact Hk.
  - rewrite Heq. reflexivity.
Qed.

(** Two suffixes of one string agree on their character before the last. *)
Lemma endsWith_agree (s suffix suffix' : string) :
  endsWith s suffix = true -> endsWith s suffix' = true ->
  (2 <= String.length suffix)%nat -> (2 <= String.length suffix')%nat ->
  String.get (String.length suffix - 2) suffix
  = String.get (String.length suffix' - 2) suffix'.
Proof.
  intros Hs Hs' Hlen Hlen'.
  rewrite <- (endsWith_get s suffix _ Hs) by lia.
  rewrite <- (endsWith_get s suffix' _ Hs') by lia.
  unfold endsWith in Hs, Hs'.
  apply andb_prop in Hs as [Hle _]. apply andb_prop in Hs' as [Hle' _].
  apply Nat.leb_le in Hle, Hle'. f_equal. lia.
Qed.

Lemma strip_appended (label suffix : string) :
  suffix ∈ projection_suffixes ->
  strip_projection_suffix (label ++ suffix) = label.
Proof.
  intros Hin. unfold strip_projection_suffix.
  pose proof (endsWith_app label suffix) as Hends.
  assert (Hfind : List.find (endsWith (label ++ suffix)) projection_suffixes
                  = Some suffix).
  { unfold projection_suffixes in *.
    repeat (apply elem_of_cons in Hin as [-> | Hin];
            [ cbn [List.find];
              repeat match goal with
                     | |- context [endsWith (label ++ ?a) ?b] =>
                         lazymatch a with
                         | b => rewrite Hends
                         | _ =>
                             let Hb := fresh in
                             destruct (endsWith (label ++ a) b) eqn:Hb;
                             [ pose proof (endsWith_agree _ _ _ Hends Hb
                                             ltac:(cbn; lia) ltac:(cbn; lia));
                               discriminate
                             | ]
                         end
                     end;
              reflexivity
            | ]).
    apply elem_of_nil in Hin. contradiction. }
  rewrite Hfind, string_length_app.
  replace (String.length label + String.length suffix - String.length suffix)%nat
    with (String.length label) by lia.
  apply substring_app_l.
Qed.

Ltac in_list :=
  repeat first [apply list_elem_of_here | apply list_elem_of_further].

Section RebuildFacts.
Context {F : Type} `{JSNumber F} `{JSDate}.

Lemma projectionOf_label (env : Env) (ds proj : Dataset.t)
    (filtered : list Point.t) :
  projectionOf (F := F) env ds filtered = Some proj ->
  exists suffix, suffix ∈ [" (linear)"; " (ma)"; " (polynomial)"] /\
    Dataset.label proj = Dataset.label ds ++ suffix.
Proof.
  unfold projectionOf, regressionProjection, movingAvgProjection.
  cbv zeta. intros Hproj.
  repeat match type of Hproj with
         | context [if ?b then _ else _] => destruct b
         | context [match ?o with Some _ => _ | None => _ end] =>
             destruct o
         end;
    try discriminate; injection Hproj as <-; cbn [Dataset.label];
    eexists; (split; [| reflexivity]); in_list.
Qed.

(** When no category label ends like a projection label, [rebuildChart]
    hides each dataset of a hidden category together with the projection
    drawn from it, and shows every other dataset: the flag of a projection
    is the flag of its category. *)
Theorem rebuildChart_hides_projections (env : Env) :
  Forall (fun ds => strip_projection_suffix (Dataset.label ds)
                    = Dataset.label ds) (originalDatasets env) ->
  rebuildChart (F := F) env =
  flat_map
    (fun ds =>
       let hidden := bool_decide (Dataset.label ds ∈ hiddenCategories env) in
       let filtered := filter_range env ds in
       (Dataset.mk (Dataset.label ds) filtered (Dataset.borderColor ds)
          (Dataset.borderDash ds) (Dataset._isProjection ds), hidden)
       :: match projectionOf (F := F) env ds filtered with
          | Some proj => [(proj, hidden)]
          | None => []
          end)
    (originalDatasets env).
Proof.
  unfold rebuildChart, buildDatasets.
  induction 1 as [| ds rest Hds _ IH]; [reflexivity |].
  cbn [flat_map]. rewrite map_app, IH. f_equal. cbv zeta.
  cbn [map Dataset.label]. rewrite Hds. f_equal.
  destruct (projectionOf env ds (filter_range env ds)) as [proj |] eqn:Hproj;
    [| reflexivity].
  cbn [map]. apply projectionOf_label in Hproj as (suffix & Hin & ->).
  rewrite strip_appended; [reflexivity |].
  unfold projection_suffixes.
  repeat (apply elem_of_cons in Hin as [-> | Hin]; [in_list |]).
  apply elem_of_nil in Hin. contradiction.
Qed.

End RebuildFacts.

Lemma rebuildChart_hides_projections_witness :
  Forall (fun ds => strip_projection_suffix (Dataset.label ds)
                    = Dataset.label ds)
    (originalDatasets (PageFixtures.general_hidden "linear")) /\
  map (fun e => (Dataset.label (fst e), snd e))
    (rebuildChart (F := Q) (PageFixtures.general_hidden "linear")) =
  [ ("General", true); ("General (linear)", true);
    ("Education Occupations", false) ].
Proof.
  assert (Hlabels :
            Forall (fun ds => strip_projection_suffix (Dataset.label ds)
                              = Dataset.label ds)
              (originalDatasets (PageFixtures.general_hidden "linear")))
    by (repeat constructor).
  split; [exact Hlabels |].
  rewrite (rebuildChart_hides_projections (F := Q) _ Hlabels).
  vm_compute. reflexivity.
Defined.

(** ** The marker of pool-aware projections *)

Lemma star_free_app (s1 s2 : string) :
  star_free (s1 ++ s2) = star_free s1 && star_free s2.
Proof.
  induction s1 as [| c s1 IH]; [reflexivity |].
  rewrite string_app_cons. cbn [star_free]. rewrite IH, andb_assoc.
  reflexivity.
Qed.

Lemma star_free_get (s : string) (n : nat) :
  star_free s = true -> String.get n s <> Some "*"%char.
Proof.
  revert n. induction s as [| c s IH]; intros n Hfree; [discriminate |].
  cbn [star_free] in Hfree. apply andb_prop in Hfree as [Hc Hfree].
  destruct n as [| n]; cbn [String.get]; [| apply IH, Hfree].
  intros [= ->]. discriminate.
Qed.

Lemma star_free_not_marked (s : string) :
  star_free s = true -> endsWith s "*" = false.
Proof.
  intros Hfree. destruct (endsWith s "*") eqn:Hends; [| reflexivity].
  pose proof (endsWith_get s "*" 0 Hends ltac:(cbn; lia)) as Hget.
  apply star_free_get in Hget; [contradiction | exact Hfree].
Qed.

Lemma star_free_no_marker (s : string) :
  star_free s = true -> replace_first " *" EmptyString s = s.
Proof.
  induction s as [| c s IH]; intros Hfree; [reflexivity |].
  cbn [star_free] in Hfree. apply andb_prop in Hfree as [Hc Hfree].
  cbn [replace_first].
  destruct (String.prefix " *" (String c s)) eqn:Hpre.
  - exfalso. cbn [String.prefix] in Hpre.
    destruct (ascii_dec " " c); [| discriminate].
    destruct s as [| c' s]; [discriminate |].
    cbn [String.prefix] in Hpre.
    destruct (ascii_dec "*" c') as [<- |]; [| discriminate].
    cbn in Hfree. discriminate.
  - rewrite (IH Hfree). reflexivity.
Qed.

Lemma marker_removed (s : string) :
  star_free s = true ->
  replace_first " *" EmptyString (s ++ " *") = s /\
  endsWith (s ++ " *") "*" = true.
Proof.
  intros Hfree. split.
  - induction s as [| c s IH]; [reflexivity |].
    cbn [star_free] in Hfree. apply andb_prop in Hfree as [Hc Hfree].
    rewrite string_app_cons. cbn [replace_first].
    destruct (String.prefix " *" (String c (s ++ " *"))) eqn:Hpre.
    + exfalso. cbn [String.prefix] in Hpre.
      destruct (ascii_dec " " c); [| discriminate].
      destruct s as [| c' s]; [discriminate |].
      rewrite string_app_cons in Hpre. cbn [String.prefix] in Hpre.
      destruct (ascii_dec "*" c') as [<- |]; [| discriminate].
      cbn in Hfree. discriminate.
    + rewrite (IH Hfree). reflexivity.
  - change (s ++ " *") with (s ++ (" " ++ "*")).
    rewrite <- string_app_assoc. apply endsWith_app.
Qed.

Section Marker.
Context {F : Type} `{JSNumber F} `{JSDate}.

Lemma getPoolAwareProjection_text (env : Env) (sorted : list Point.t)
    (score : Z) (label text : string) :
  getPoolAwareProjection (F := F) env sorted score label = Some text ->
  exists t, text = monthLabel t ++ " *".
Proof.
  unfold getPoolAwareProjection. cbv zeta. intros Hpool.
  repeat match type of Hpool with
         | context [if ?b then _ else _] => destruct b
         | context [match ?o with Some _ => _ | None => _ end] =>
             destruct o
         end;
    try discriminate.
  injection Hpool as <-. eauto.
Qed.

Lemma trendCrossing_text (env : Env) (sorted : list Point.t) (score : Z)
    (text : string) :
  trendCrossing (F := F) env sorted score = Some text ->
  exists t, text = monthLabel t.
Proof.
  unfold trendCrossing. cbv zeta. intros Htrend.
  repeat match type of Htrend with
         | context [match ?o with Some _ => _ | None => _ end] =>
             destruct o
         end;
    try discriminate.
  injection Htrend as <-. eauto.
Qed.

(** When month labels carry no star, a "Projected" card shows a month
    label with nothing left of the marker, and its pool-aware flag tells
    which search produced it: set, the pool-aware projection answered with
    that month; not set, the trend-based search did. *)
Theorem projected_marker (env : Env) (ds : Dataset.t) (score : Z)
    (text : string) (isPoolAware : bool) :
  (forall t, star_free (monthLabel t) = true) ->
  scoreCard (F := F) env ds score = Some (Projected text isPoolAware) ->
  let sorted := sort_points (filter_range env ds) in
  exists t,
    text = monthLabel t /\
    getProjectedCrossing (F := F) env sorted score (Dataset.label ds)
      = Some (if isPoolAware then monthLabel t ++ " *" else monthLabel t) /\
    if isPoolAware
    then getPoolAwareProjection (F := F) env sorted score (Dataset.label ds)
         = Some (monthLabel t ++ " *")
    else trendCrossing (F := F) env sorted score = Some (monthLabel t).
Proof.
  intros Hfree Hcard. cbv zeta.
  unfold scoreCard, scoreCardWith in Hcard. cbv zeta in Hcard.
  set (sorted := sort_points (filter_range env ds)) in *.
  destruct (bool_decide _); [discriminate |].
  destruct (length (filter_range env ds) <? 2)%nat; [discriminate |].
  destruct (last sorted) as [mostRecent |]; [| discriminate].
  injection Hcard as Hcard.
  destruct (Point.y mostRecent <=? score); [discriminate |].
  destruct (negb (String.eqb (projectionMode env) "off") && negb false)
    eqn:Hmode.
  2:{ destruct (last _); discriminate. }
  destruct (getProjectedCrossing env sorted score (Dataset.label ds))
    as [found |] eqn:Hfound.
  2:{ destruct (last _); discriminate. }
  destruct (nonempty found) eqn:Hne.
  2:{ destruct (last _); discriminate. }
  injection Hcard as <- <-.
  unfold getProjectedCrossing in Hfound. cbv zeta in Hfound.
  destruct (if (3 <=? length (distributionSnapshots env))%nat
            then getPoolAwareProjection env sorted score (Dataset.label ds)
            else None) as [poolText |] eqn:Hpool.
  - assert (Hpool' : getPoolAwareProjection env sorted score (Dataset.label ds)
                     = Some poolText).
    { destruct (3 <=? length (distributionSnapshots env))%nat;
        [exact Hpool | discriminate]. }
    destruct (getPoolAwareProjection_text _ _ _ _ _ Hpool') as [t ->].
    destruct (marker_removed _ (Hfree t)) as [Hstrip Hmark].
    assert (Hfull : nonempty (monthLabel t ++ " *") = true).
    { destruct (monthLabel t); reflexivity. }
    rewrite Hfull in Hfound. injection Hfound as <-.
    rewrite Hstrip, Hmark. exists t. auto.
  - destruct (trendCrossing_text _ _ _ _ Hfound) as [t ->].
    rewrite (star_free_no_marker _ (Hfree t)),
            (star_free_not_marked _ (Hfree t)).
    exists t. auto.
Qed.

End Marker.


Section UTCLabels.
Import UTC.

Lemma decimal_star_free (width : nat) (n : Z) (acc : string) :
  star_free acc = true -> star_free (decimal width n acc) = true.
Proof.
  revert n acc. induction width as [| width IH]; intros n acc Hacc;
    cbn [decimal]; [exact Hacc |].
  apply IH. cbn [star_free]. rewrite Hacc, andb_true_r.
  pose proof (Z.mod_pos_bound n 10 ltac:(lia)) as Hmod.
  assert (Hcases : n mod 10 = 0 \/ n mod 10 = 1 \/ n mod 10 = 2 \/
                   n mod 10 = 3 \/ n mod 10 = 4 \/ n mod 10 = 5 \/
                   n mod 10 = 6 \/ n mod 10 = 7 \/ n mod 10 = 8 \/
                   n mod 10 = 9) by lia.
  repeat (destruct Hcases as [-> | Hcases]; [reflexivity |]).
  rewrite Hcases. reflexivity.
Qed.

Lemma month_label_star_free (t : Z) : star_free (UTC.month_label t) = true.
Proof.
  unfold UTC.month_label.
  destruct (civil_from_days (t / msPerDay)) as [[y m] d].
  assert (Hname : star_free
                    (default EmptyString (month_names !! Z.to_nat (m - 1)))
                  = true).
  { assert (Hnames : Forall (fun s => star_free s = true) month_names)
      by (repeat constructor).
    destruct (month_names !! Z.to_nat (m - 1)) as [name |] eqn:Hlookup;
      [| reflexivity].
    rewrite Forall_forall in Hnames. apply Hnames.
    apply list_elem_of_lookup_2 in Hlookup. exact Hlookup. }
  rewrite !star_free_app, Hname, decimal_star_free by reflexivity.
  reflexivity.
Qed.

End UTCLabels.

Lemma projected_marker_witness :
  exists t,
    "Dec 2025" = UTC.month_label t /\
    getProjectedCrossing (F := Q) (EnvFixtures.crowded "linear")
      (sort_points (filter_range (EnvFixtures.crowded "linear")
                      EnvFixtures.general))
      440 "General" = Some (UTC.month_label t ++ " *") /\
    getPoolAwareProjection (F := Q) (EnvFixtures.crowded "linear")
      (sort_points (filter_range (EnvFixtures.crowded "linear")
                      EnvFixtures.general))
      440 "General" = Some (UTC.month_label t ++ " *").
Proof.
  apply (@projected_marker Q _ UTC.utc_date (EnvFixtures.crowded "linear")
           EnvFixtures.general 440 "Dec 2025" true month_label_star_free).
  vm_compute. reflexivity.
Defined.

(** ** The downloader *)

Lemma space_not_digit (c : ascii) : is_space c = true -> digit_of c = None.
Proof.
  unfold is_space, digit_of. cbv zeta. intros Hc.
  destruct ((48 <=? Z.of_nat (nat_of_ascii c)) &&
            (Z.of_nat (nat_of_ascii c) <=? 57)) eqn:Hd; [| reflexivity].
  apply andb_prop in Hd as [Hlo Hhi]. apply Z.leb_le in Hlo, Hhi.
  apply orb_prop in Hc as [Hc | Hc].
  - apply andb_prop in Hc as [_ Hc]. apply Nat.leb_le in Hc. lia.
  - apply Nat.eqb_eq in Hc. lia.
Qed.

Lemma parse_digits_trim_end (s : string) (acc : option Z) :
  parse_digits (trim_end s) acc = parse_digits s acc.
Proof.
  revert acc. induction s as [| c s IH]; intros acc; [reflexivity |].
  cbn [trim_end]. cbv zeta.
  destruct (is_space c && String.eqb (trim_end s) EmptyString) eqn:Hdrop.
  - apply andb_prop in Hdrop as [Hc _].
    cbn [parse_digits]. rewrite (space_not_digit c Hc). reflexivity.
  - cbn [parse_digits]. destruct (digit_of c); [apply IH | reflexivity].
Qed.

Lemma skip_spaces_head (s : string) :
  match skip_spaces s with
  | EmptyString => True
  | String c _ => is_space c = false
  end.
Proof.
  induction s as [| c s IH]; [exact I |]. cbn [skip_spaces].
  destruct (is_space c) eqn:Hc; [exact IH | exact Hc].
Qed.

Lemma skip_spaces_none (s : string) :
  match s with
  | EmptyString => True
  | String c _ => is_space c = false
  end -> skip_spaces s = s.
Proof. destruct s as [| c s]; [reflexivity |]. cbn. intros ->. reflexivity. Qed.

Lemma parseInt10_trim (s : string) : parseInt10 (trim s) = parseInt10 s.
Proof.
  unfold parseInt10, trim.
  pose proof (skip_spaces_head s) as Hhead.
  destruct (skip_spaces s) as [| c u]; [reflexivity |].
  cbn [trim_end]. cbv zeta. rewrite Hhead. cbn [andb].
  cbn [skip_spaces]. rewrite Hhead. unfold parseInt.
  destruct (Ascii.eqb_spec c "-") as [-> | Hminus];
    [rewrite parse_digits_trim_end; reflexivity |].
  destruct (Ascii.eqb_spec c "+") as [-> | Hplus];
    [rewrite parse_digits_trim_end; reflexivity |].
  transitivity (parse_digits (String c (trim_end u)) None).
  - destruct c as [[] [] [] [] [] [] [] []]; try reflexivity; contradiction.
  - transitivity (parse_digits (String c u) None).
    + cbn [parse_digits]. destruct (digit_of c);
        [apply parse_digits_trim_end | reflexivity].
    + destruct c as [[] [] [] [] [] [] [] []]; try reflexivity; contradiction.
Qed.

Lemma remove_commas_idem (s : string) :
  remove_commas (remove_commas s) = remove_commas s.
Proof.
  induction s as [| c s IH]; [reflexivity |]. cbn [remove_commas].
  destruct (Ascii.eqb c ",") eqn:Hc; [exact IH |].
  cbn [remove_commas]. rewrite Hc, IH. reflexivity.
Qed.

(** The guard and the trim of [parseNumber] change nothing: on every
    field it is [parseInt] of the text without its commas, with 0 for NaN
    (the texts the guard stops do not start with a number). *)
Theorem parseNumber_is_parseInt (str : option string) :
  parseNumber str =
  match str with
  | Some s => default 0 (parseInt10 (remove_commas s))
  | None => 0
  end.
Proof.
  destruct str as [s |]; [| reflexivity]. unfold parseNumber.
  rewrite parseInt10_trim.
  destruct (String.eqb_spec s EmptyString) as [-> | _]; [reflexivity |].
  destruct (String.eqb_spec s "undefined") as [-> | _]; [reflexivity |].
  destruct (String.eqb_spec s "N/A") as [-> | _]; reflexivity.
Qed.

Section DownloaderFacts.
Variable parseDate : string -> string.

Lemma drawRound_of_fields (round : Row) (r : DrawRound.t) :
  drawRound_of parseDate round = Some r ->
  DrawRound.number r = parseNumber (round !! "drawNumber") /\
  DrawRound.number r <> 0 /\
  DrawRound.invitationsIssued r = parseNumber (round !! "drawSize") /\
  DrawRound.crsScore r = parseNumber (round !! "drawCRS") /\
  DrawRound.distribution r = parseDistribution round.
Proof.
  unfold drawRound_of. cbv zeta.
  destruct (Z.eqb_spec (parseNumber (round !! "drawNumber")) 0) as [| Hnum];
    [discriminate |].
  intros [= <-]. cbn. auto.
Qed.

Lemma parseDistribution_total (round : Row) :
  match parseDistribution round with
  | Some d =>
      ScoreDistribution.total d = parseNumber (round !! "dd18") /\
      ScoreDistribution.total d <> 0
  | None => parseNumber (round !! "dd18") = 0
  end.
Proof.
  unfold parseDistribution. cbv zeta.
  destruct (Z.eqb_spec (parseNumber (round !! "dd18")) 0) as [Hz | Hnz];
    [exact Hz |].
  cbn. auto.
Qed.

(** The rounds saved by the downloader are in ascending order of round
    number; they are the rounds of the entries whose draw number parses to
    a number other than 0, each once; every saved round carries the
    numbers parsed from its entry, and a distribution exactly when the
    entry's total ([dd18]) parses to a number other than 0. *)
Theorem downloadRounds_sorted (entries : list (string * Row)) :
  let rounds := downloadRounds parseDate entries in
  StronglySorted (by_key DrawRound.number) rounds /\
  rounds ≡ₚ omap (fun e => drawRound_of parseDate (snd e)) entries /\
  length rounds =
    length (List.filter
              (fun e => negb (parseNumber (snd e !! "drawNumber") =? 0))
              entries) /\
  Forall
    (fun r =>
       DrawRound.number r <> 0 /\
       exists key round,
         (key, round) ∈ entries /\
         DrawRound.number r = parseNumber (round !! "drawNumber") /\
         DrawRound.invitationsIssued r = parseNumber (round !! "drawSize") /\
         DrawRound.crsScore r = parseNumber (round !! "drawCRS") /\
         match DrawRound.distribution r with
         | Some d =>
             ScoreDistribution.total d = parseNumber (round !! "dd18") /\
             ScoreDistribution.total d <> 0
         | None => parseNumber (round !! "dd18") = 0
         end)
    rounds.
Proof.
  cbv zeta. unfold downloadRounds.
  split; [apply sort_by_sorted |].
  split; [apply sort_by_perm |].
  split.
  - rewrite sort_by_length. clear.
    induction entries as [| [key round] entries IH]; [reflexivity |].
    cbn [omap list_omap List.filter snd].
    unfold drawRound_of at 1. cbv zeta.
    destruct (parseNumber (round !! "drawNumber") =? 0); cbn [negb length];
      [exact IH | f_equal; exact IH].
  - apply Forall_forall. intros r Hr.
    rewrite sort_by_perm in Hr.
    apply list_elem_of_omap in Hr as ([key round] & Hin & Hround).
    cbn [snd] in Hround.
    destruct (drawRound_of_fields round r Hround)
      as (Hnum & Hnz & Hsize & Hcrs & Hdist).
    split; [exact Hnz |]. exists key, round.
    repeat (split; [assumption |]).
    rewrite Hdist. apply parseDistribution_total.
Qed.

End DownloaderFacts.

Lemma parseNumber_examples :
  parseNumber (Some "1,234") = 1234 /\
  parseNumber (Some " 4,500 ") = 4500 /\
  parseNumber (Some "N/A") = 0 /\
  parseNumber (Some "12 rounds") = 12 /\
  parseNumber (Some "-7") = -7 /\
  parseNumber None = 0.
Proof. repeat split; vm_compute; reflexivity. Qed.

(** A negative count in the source data reaches the data file: a row with
    ["dd2": "-100"] and a positive total is parsed to the distribution of
    [RoundFixtures.skewed]. *)
Lemma negative_count_is_parsed :
  parseDistribution
    (list_to_map
       [ ("dd1", "300"); ("dd2", "-100"); ("dd18", "200");
         ("drawDistributionAsOn", "January 1, 2025") ])
  = Some RoundFixtures.skewed.
Proof. vm_compute. reflexivity. Qed.

(** ** The scraper of the rounds page *)

Lemma keep_first_invariant (rounds : list DrawRound.t) :
  let '(seen, kept) := fold_left Scraper.keep_first rounds (∅, []) in
  (forall n, n ∈ seen <-> n ∈ map DrawRound.number rounds) /\
  (forall n, n ∈ map DrawRound.number kept <->
             n ∈ map DrawRound.number rounds) /\
  NoDup (map DrawRound.number kept) /\
  kept `sublist_of` rounds /\
  Forall (first_with_number rounds) kept.
Proof.
  induction rounds as [| r rounds IH] using rev_ind.
  - cbn. split; [| split; [| split; [| split]]].
    + intros n. rewrite elem_of_empty, elem_of_nil. tauto.
    + intros n. reflexivity.
    + constructor.
    + constructor.
    + constructor.
  - rewrite fold_left_app. cbn [fold_left].
    destruct (fold_left Scraper.keep_first rounds (∅, [])) as [seen kept].
    destruct IH as (Hseen & Hkept & Hnd & Hsub & Hfirst).
    unfold Scraper.keep_first.
    destruct (bool_decide_reflect (DrawRound.number r ∈ seen)) as [Hin | Hout].
    + split; [| split; [| split; [| split]]].
      * intros n. rewrite map_app, elem_of_app, <- Hseen. cbn [map].
        rewrite list_elem_of_singleton. split; [auto |].
        intros [Hn | ->]; assumption.
      * intros n. rewrite map_app, elem_of_app, <- Hkept. cbn [map].
        rewrite list_elem_of_singleton. split; [auto |].
        intros [Hn | ->]; [assumption |]. apply Hkept, Hseen, Hin.
      * exact Hnd.
      * apply sublist_inserts_r, Hsub.
      * eapply Forall_impl; [exact Hfirst |].
        intros r0 (before & after & -> & Hnot).
        exists before, (after ++ [r])%list. split; [| exact Hnot].
        rewrite <- app_assoc. reflexivity.
    + split; [| split; [| split; [| split]]].
      * intros n. rewrite map_app, elem_of_app, <- Hseen, elem_of_union.
        cbn [map]. rewrite list_elem_of_singleton, elem_of_singleton. tauto.
      * intros n. rewrite !map_app, !elem_of_app, <- Hkept. tauto.
      * rewrite map_app. apply NoDup_app. split; [exact Hnd |].
        split; [| apply NoDup_singleton].
        intros n Hn Hn'. cbn [map] in Hn'.
        apply list_elem_of_singleton in Hn' as ->.
        apply Hout, Hseen, Hkept, Hn.
      * apply sublist_app; [exact Hsub | reflexivity].
      * apply Forall_app. split.
        -- eapply Forall_impl; [exact Hfirst |].
           intros r0 (before & after & -> & Hnot).
           exists before, (after ++ [r])%list. split; [| exact Hnot].
           rewrite <- app_assoc. reflexivity.
        -- constructor; [| constructor].
           exists rounds, []. split; [reflexivity |].
           intros Hn. apply Hout, Hseen, Hn.
Qed.

Lemma sorted_distinct_strict {A : Type} (k : A -> Z) (l : list A) :
  StronglySorted (by_key k) l -> NoDup (map k l) ->
  StronglySorted (fun a b => k a < k b) l.
Proof.
  induction 1 as [| a l _ IH Hall]; intros Hnd; [constructor |].
  cbn [map] in Hnd. apply NoDup_cons in Hnd as [Hnot Hnd].
  constructor; [apply IH, Hnd |].
  apply Forall_forall. intros b Hb.
  rewrite Forall_forall in Hall. specialize (Hall b Hb). unfold by_key in Hall.
  assert (k a <> k b).
  { intros Heq. apply Hnot. rewrite Heq.
    apply list_elem_of_fmap. exists b. auto. }
  lia.
Qed.

Section ScraperFacts.
Variable parseDate : string -> string.

(** The rounds saved by the scraper are in strictly ascending order of
    round number, so no number occurs twice; the numbers saved are the
    numbers scraped; and each saved round is the first scraped row with its
    number. Its [parseNumber] agrees with the downloader's on every
    text. *)
Theorem scrapedRounds_unique_sorted (rows : list Scraper.RowText) :
  let rounds := map (Scraper.round_of parseDate) rows in
  let saved := Scraper.scrapedRounds parseDate rows in
  StronglySorted (fun a b => DrawRound.number a < DrawRound.number b) saved /\
  (forall n, n ∈ map DrawRound.number saved <->
             n ∈ map DrawRound.number rounds) /\
  Forall (first_with_number rounds) saved /\
  forall str, Scraper.parseNumber str = parseNumber (Some str).
Proof.
  cbv zeta. unfold Scraper.scrapedRounds, Scraper.deduped.
  pose proof (keep_first_invariant (map (Scraper.round_of parseDate) rows))
    as Hinv.
  destruct (fold_left Scraper.keep_first
              (map (Scraper.round_of parseDate) rows) (∅, []))
    as [seen kept].
  destruct Hinv as (_ & Hkept & Hnd & _ & Hfirst). cbn [snd].
  pose proof (sort_by_perm DrawRound.number kept) as Hperm.
  split; [| split; [| split]].
  - apply sorted_distinct_strict; [apply sort_by_sorted |].
    change (NoDup (DrawRound.number <$> sort_by DrawRound.number kept)).
    rewrite Hperm. exact Hnd.
  - intros n. rewrite <- Hkept.
    change (n ∈ DrawRound.number <$> sort_by DrawRound.number kept
            <-> n ∈ DrawRound.number <$> kept).
    rewrite Hperm. reflexivity.
  - rewrite Hperm. exact Hfirst.
  - intros str. unfold Scraper.parseNumber, parseNumber.
    destruct (String.eqb_spec str EmptyString) as [-> | _]; [reflexivity |].
    destruct (String.eqb_spec str "undefined") as [-> | _]; [reflexivity |].
    destruct (String.eqb_spec str "N/A") as [-> | _]; reflexivity.
Qed.

End ScraperFacts.

(** ** The pool count at the band bounds *)

Section Edges.
Context {F : Type} `{JSNumber F}.



End Edges.

(** ** The pool distribution chart *)

Lemma fold_left_sum {A : Type} (f : A -> Z) (l : list A) (start : Z) :
  fold_left (fun s a => s + f a) l start = start + sumZ (map f l).
Proof.
  revert start. induction l as [| a l IH]; intros start; cbn [fold_left map].
  - unfold sumZ. cbn. lia.
  - rewrite IH. unfold sumZ. cbn [foldr]. lia.
Qed.

Section DistChartFacts.
Context {F : Type} `{JSNumber F} `{JSDate}.

(** The history view has one dataset per band, in the order of the band
    labels, each with one point per snapshot in range, dated as the
    snapshots; the points at one date add up to the sum of the bands of
    that snapshot, which is what [countAboveScore] counts at or above a
    score of 0. *)
Theorem historyDatasets_columns (env : Env)
    (datasets : list (string * list (string * Z))) :
  historyDatasets env = Some datasets ->
  map fst datasets = distRangeLabels /\
  Forall (fun ds => map fst (snd ds) = map snap_date (historySnapshots env))
    datasets /\
  forall j snap, historySnapshots env !! j = Some snap ->
    footerTotal datasets j = band_total snap /\
    forall t, t <= 0 ->
      footerTotal datasets j = countAboveScore (F := F) snap t.
Proof.
  unfold historyDatasets. cbv zeta.
  destruct (length (historySnapshots env) =? 0)%nat; [discriminate |].
  intros Hds. inversion Hds as [Heq]. clear Hds Heq. split; [| split].
  - reflexivity.
  - repeat (constructor; [cbn [snd]; rewrite List.map_map; reflexivity |]).
    constructor.
  - intros j snap Hsnap.
    assert (Hfooter :
              footerTotal
                (map (fun range =>
                        (range,
                         map (fun s => (snap_date s, label_count s range))
                           (historySnapshots env)))
                   distRangeLabels) j
              = band_total snap).
    { unfold footerTotal. rewrite fold_left_sum.
      unfold band_total. rewrite <- labels_are_keys.
      rewrite Z.add_0_l. f_equal.
      generalize ranges as rs. intros rs.
      induction rs as [| r rs IH]; [reflexivity |].
      cbn [map omap list_omap snd].
      rewrite list_lookup_fmap, Hsnap. cbn [fmap option_fmap option_map].
      cbn [map snd]. f_equal. exact IH. }
    split; [exact Hfooter |].
    intros t Ht. transitivity (band_total snap); [exact Hfooter |].
    unfold countAboveScore, band_total.
    rewrite <- (app_nil_r ranges) at 2.
    rewrite countLoop_full_prefix.
    + cbn [countLoop]. lia.
    + unfold ranges. repeat constructor; cbn [lo]; lia.
Qed.

End DistChartFacts.

Lemma historyDatasets_columns_witness :
  exists datasets,
    historyDatasets (EnvFixtures.crowded "off") = Some datasets /\
    map fst datasets = distRangeLabels /\
    footerTotal datasets 0 = 4000.
Proof.
  eexists. split; [reflexivity |].
  destruct (historyDatasets_columns (F := Q) (EnvFixtures.crowded "off") _
              eq_refl) as (Hlabels & _ & Hcolumns).
  split; [exact Hlabels |].
  destruct (Hcolumns 0%nat (EnvFixtures.snapshot "2024-01-01" 500 1500 2000)
              eq_refl) as [Hfooter _].
  rewrite Hfooter. reflexivity.
Defined.

(** ** Projection modes outside the toolbar *)

Section UnknownMode.
Context {F : Type} `{JSNumber F} `{JSDate}.

Lemma unknown_mode_tests (mode : string) :
  mode ∉ ["off"; "linear"; "moving-avg"; "poly"] ->
  String.eqb mode "off" = false /\ String.eqb mode "linear" = false /\
  String.eqb mode "moving-avg" = false /\ String.eqb mode "poly" = false.
Proof.
  intros Hmode.
  repeat split; apply String.eqb_neq; intros ->; apply Hmode; in_list.
Qed.

Lemma crossing_as_linear (env : Env) (sorted : list Point.t) (score : Z)
    (label : string) :
  projectionMode env ∉ ["off"; "linear"; "moving-avg"; "poly"] ->
  getProjectedCrossing (F := F) env sorted score label =
  getProjectedCrossing (F := F) (with_mode env "linear") sorted score label.
Proof.
  intros Hmode.
  destruct (unknown_mode_tests _ Hmode) as (_ & _ & Hma & Hpoly).
  destruct env as [datasets snapshots mode range hidden clock].
  cbn [projectionMode] in Hma, Hpoly.
  unfold getProjectedCrossing, getPoolAwareProjection, trendCrossing,
    pool_model, trend_model, with_mode.
  cbn [projectionMode distributionSnapshots originalDatasets timeRange
       hiddenCategories now].
  rewrite Hma, Hpoly.
  reflexivity.
Qed.

(** A projection mode that is none of the four the buttons carry (the URL
    can hold any) draws no projection on the chart, as "off" does, while
    the eligibility cards are those of the linear mode. *)
Theorem unknown_projection_mode (env : Env) (score : Z) :
  projectionMode env ∉ ["off"; "linear"; "moving-avg"; "poly"] ->
  buildDatasets (F := F) env = buildDatasets (F := F) (with_mode env "off") /\
  buildScoreResults (F := F) env score =
    buildScoreResults (F := F) (with_mode env "linear") score.
Proof.
  intros Hmode.
  destruct (unknown_mode_tests _ Hmode) as (Hoff & Hlin & Hma & Hpoly).
  split.
  - unfold buildDatasets. cbn [with_mode originalDatasets].
    apply flat_map_ext. intros ds.
    change (filter_range (with_mode env "off") ds)
      with (filter_range env ds).
    f_equal. unfold projectionOf.
    cbn [with_mode projectionMode]. rewrite Hoff, Hlin, Hma, Hpoly.
    cbn [String.eqb orb]. destruct (length (filter_range env ds) <? 3)%nat;
      reflexivity.
  - unfold buildScoreResults. destruct (score <=? 0); [reflexivity |].
    cbn [with_mode originalDatasets].
    induction (originalDatasets env) as [| ds rest IH]; [reflexivity |].
    cbn [omap list_omap]. rewrite IH. clear IH.
    replace (scoreCard (with_mode env "linear") ds score)
      with (scoreCard env ds score); [reflexivity |].
    unfold with_mode, scoreCard, scoreCardWith.
    cbn [with_mode hiddenCategories projectionMode].
    change (filter_range (with_mode env "linear") ds)
      with (filter_range env ds).
    rewrite Hoff, (crossing_as_linear env _ score (Dataset.label ds) Hmode).
    reflexivity.
Qed.

End UnknownMode.

Lemma unknown_projection_mode_witness :
  buildDatasets (F := Q) (EnvFixtures.sparse "cubic") =
    buildDatasets (F := Q) (with_mode (EnvFixtures.sparse "cubic") "off") /\
  buildScoreResults (F := Q) (EnvFixtures.sparse "cubic") 440 =
    buildScoreResults (F := Q) (with_mode (EnvFixtures.sparse "cubic") "linear")
      440.
Proof.
  apply (unknown_projection_mode (F := Q)).
  cbn [EnvFixtures.sparse projectionMode]. intros Hin.
  repeat (apply elem_of_cons in Hin as [Hin | Hin]; [discriminate Hin |]).
  apply elem_of_nil in Hin. exact Hin.
Defined.

(** With [?proj=cubic] the chart of the sparse page shows the two
    categories and no projection, and the card of the first category
    reads "Projected: Apr 2025". *)
Lemma unknown_projection_mode_example :
  map Dataset.label (buildDatasets (F := Q) (EnvFixtures.sparse "cubic")) =
    ["General"; "Education Occupations"] /\
  buildScoreResults (F := Q) (EnvFixtures.sparse "cubic") 440 =
    [("General", Projected "Apr 2025" false)].
Proof. split; vm_compute; reflexivity. Qed.

(** ** What the pool-aware projection reads *)

Section PoolIgnoresCutoffs.
Context {F : Type} `{JSNumber F} `{JSDate}.

Lemma ratioSeries_length (env : Env) (sorted sorted' : list Point.t) :
  round_schedule sorted = round_schedule sorted' ->
  length (ratioSeries (F := F) env sorted) =
  length (ratioSeries (F := F) env sorted').
Proof.
  unfold round_schedule, ratioSeries.
  revert sorted'. induction sorted as [| d sorted IH];
    intros [| d' sorted'] Heq; try discriminate; [reflexivity |].
  cbn [map] in Heq. injection Heq as Hx Hinv Hrest.
  cbn [flat_map]. rewrite !length_app, (IH sorted' Hrest).
  f_equal. rewrite Hx, Hinv.
  destruct (Point.invitations d' <=? 0); [reflexivity |].
  cbv zeta. destruct (findClosestDist env (getTime (Point.x d')));
    reflexivity.
Qed.

Lemma medianInvitations_schedule (sorted sorted' : list Point.t) :
  round_schedule sorted = round_schedule sorted' ->
  medianInvitations sorted = medianInvitations sorted'.
Proof.
  intros Heq. unfold medianInvitations, recentInvitations. cbv zeta.
  assert (Hinv : map Point.invitations (slice_last 10 sorted) =
                 map Point.invitations (slice_last 10 sorted')).
  { assert (Hmap : forall l, map Point.invitations l
                             = map snd (round_schedule l)).
    { intros l. unfold round_schedule. rewrite List.map_map. reflexivity. }
    assert (Hlen : length sorted = length sorted').
    { rewrite <- (length_map (fun d => (Point.x d, Point.invitations d))
                    sorted).
      fold (round_schedule sorted). rewrite Heq.
      unfold round_schedule. apply length_map. }
    unfold slice_last. rewrite Hlen.
    change (Point.invitations <$> drop (length sorted' - 10) sorted =
            Point.invitations <$> drop (length sorted' - 10) sorted').
    rewrite !fmap_drop.
    change (drop (length sorted' - 10) (map Point.invitations sorted) =
            drop (length sorted' - 10) (map Point.invitations sorted')).
    rewrite !Hmap, Heq. reflexivity. }
  rewrite Hinv. reflexivity.
Qed.

(** The pool-aware projection never reads the cutoff scores of the
    category: two series of rounds with the same dates and invitation
    counts get the same answer, whatever their scores and labels. *)
Theorem pool_projection_ignores_cutoffs (env : Env)
    (sorted sorted' : list Point.t) (userScore : Z) (label label' : string) :
  round_schedule sorted = round_schedule sorted' ->
  getPoolAwareProjection (F := F) env sorted userScore label =
  getPoolAwareProjection (F := F) env sorted' userScore label'.
Proof.
  intros Heq. unfold getPoolAwareProjection.
  rewrite (ratioSeries_length env sorted sorted' Heq),
          (medianInvitations_schedule sorted sorted' Heq).
  reflexivity.
Qed.

End PoolIgnoresCutoffs.

Lemma pool_projection_ignores_cutoffs_witness :
  getPoolAwareProjection (F := Q) (EnvFixtures.crowded "linear")
    SeriesFixtures.spec_series 440 "General" =
  getPoolAwareProjection (F := Q) (EnvFixtures.crowded "linear")
    ScheduleFixtures.other_cutoffs 440 "Other".
Proof.
  apply (pool_projection_ignores_cutoffs (F := Q)). reflexivity.
Defined.

(** ** Hiding everything *)

Section AllHidden.
Context {F : Type} `{JSNumber F} `{JSDate}.

Lemma projection_base (env : Env) (ds proj : Dataset.t)
    (filtered : list Point.t) :
  projectionOf (F := F) env ds filtered = Some proj ->
  strip_projection_suffix (Dataset.label proj) = Dataset.label ds.
Proof.
  intros Hproj. apply projectionOf_label in Hproj as (suffix & Hin & ->).
  apply strip_appended. unfold projection_suffixes.
  repeat (apply elem_of_cons in Hin as [-> | Hin]; [in_list |]).
  apply elem_of_nil in Hin. contradiction.
Qed.

Lemma hidden_flags (env : Env) (datasets : list Dataset.t) :
  Forall (fun ds =>
            strip_projection_suffix (Dataset.label ds) = Dataset.label ds /\
            Dataset.label ds ∈ hiddenCategories env) datasets ->
  Forall (fun e => snd e = true)
    (map (fun d =>
            let base := strip_projection_suffix (Dataset.label d) in
            (d, bool_decide (base ∈ hiddenCategories env)))
       (flat_map
          (fun ds =>
             let filtered := filter_range env ds in
             Dataset.mk (Dataset.label ds) filtered (Dataset.borderColor ds)
               (Dataset.borderDash ds) (Dataset._isProjection ds)
             :: match projectionOf (F := F) env ds filtered with
                | Some proj => [proj]
                | None => []
                end)
          datasets)).
Proof.
  induction 1 as [| ds rest [Hlabel Hhidden] _ IH]; [constructor |].
  cbn [flat_map]. rewrite map_app. apply Forall_app. split; [| exact IH].
  cbv zeta. cbn [app map]. constructor.
  - cbn [snd Dataset.label]. rewrite Hlabel.
    apply bool_decide_eq_true_2, Hhidden.
  - destruct (projectionOf env ds (filter_range env ds)) as [proj |]
      eqn:Hproj; [| constructor].
    cbn [map]. constructor; [| constructor]. cbn [snd].
    rewrite (projection_base _ _ _ _ Hproj).
    apply bool_decide_eq_true_2, Hhidden.
Qed.

Lemma omap_all_none {A B : Type} (f : A -> option B) (l : list A) :
  Forall (fun a => f a = None) l -> omap f l = [].
Proof.
  induction 1 as [| a l Ha _ IH]; [reflexivity |].
  cbn [omap list_omap]. rewrite Ha. exact IH.
Qed.

(** After a click on "All" with nothing hidden, and when no category
    label ends like a projection label, every dataset of the chart is
    hidden, projections included, and there is no eligibility card. *)
Theorem all_hidden_shows_nothing (pg : Page) (score : Z) :
  hiddenCategories (page_env pg) = ∅ ->
  Forall (fun ds => strip_projection_suffix (Dataset.label ds)
                    = Dataset.label ds) (originalDatasets (page_env pg)) ->
  buildScoreResults (F := F) (page_env (toggleAll pg)) score = [] /\
  Forall (fun e => snd e = true)
    (rebuildChart (F := F) (page_env (toggleAll pg))).
Proof.
  intros Hempty Hlabels.
  assert (Hhidden : forall ds, ds ∈ originalDatasets (page_env pg) ->
            Dataset.label ds ∈ hiddenCategories (page_env (toggleAll pg))).
  { intros ds Hds. unfold toggleAll. cbv zeta.
    rewrite Hempty, size_empty. cbn [Nat.eqb with_hidden page_env
                                      hiddenCategories].
    apply fold_hide_all. right.
    apply list_elem_of_fmap. exists ds. auto. }
  set (env' := page_env (toggleAll pg)) in *.
  assert (Hdata : originalDatasets env' = originalDatasets (page_env pg))
    by reflexivity.
  split.
  - unfold buildScoreResults. destruct (score <=? 0); [reflexivity |].
    apply omap_all_none, Forall_forall. intros ds Hds.
    rewrite Hdata in Hds. unfold scoreCard, scoreCardWith.
    rewrite bool_decide_eq_true_2 by (apply Hhidden, Hds). reflexivity.
  - unfold rebuildChart, buildDatasets. apply hidden_flags.
    rewrite Hdata. rewrite Forall_forall in Hlabels.
    apply Forall_forall. intros ds Hds. auto.
Qed.

End AllHidden.

Lemma all_hidden_shows_nothing_witness :
  buildScoreResults (F := Q)
    (page_env (toggleAll ScheduleFixtures.visitor)) 440 = [] /\
  Forall (fun e => snd e = true)
    (rebuildChart (F := Q) (page_env (toggleAll ScheduleFixtures.visitor))).
Proof.
  apply (all_hidden_shows_nothing (F := Q) ScheduleFixtures.visitor 440);
    [reflexivity | repeat constructor].
Defined.
